(** * jsonschema-gen: a shallow embedding of [cmd/jsonschema-gen] and its
    properties.

    The Go program locates the module that owns a source file, renders an
    entry-point program into a workspace directory next to that file, copies
    an embedded vendor tree there, rewrites the import paths of the copied
    dependencies, runs the entry point with [go run] and relays its output.

    Go strings are byte sequences: they are modelled by [string], whose
    characters are the 256 values of [ascii]; where the program looks at
    characters ([strings.TrimSpace]) the bytes are decoded as UTF-8, the
    way package [unicode/utf8] does it.  Paths follow the Unix flavour
    of [path/filepath] (separator [/], no volume names).  The file system is
    a finite map from cleaned absolute paths to nodes, which are files and
    directories: there are no symbolic links, so that a path names what is
    stored under it.  An operation fails when the shape of the tree makes
    it fail (a missing file, a file where a directory is needed, a
    directory where a file is needed), not for lack of permission or of
    space; the exception is the removal of a tree, which meets the entries
    that the system refuses to unlink.

    [main] starts from the values of the two flags, that is after
    [flag.Parse()]; the embedded [main.templ] is taken as parsed, so that
    [template.Must] does not panic; the child process is described by how
    its run ends and by what it wrote to its two output streams, and is
    taken to leave the file system as it is.

    The cache of the extension, [lib/cache.js], is independent of the
    program and is treated on its own, after the sample worlds. *)

From Stdlib Require Import Ascii String List Arith Lia Bool NArith DecimalString.
From stdpp Require Import base option list sorting gmap strings fin_maps.


(* ===================================================================== *)
(** * Byte strings *)
(* ===================================================================== *)

Module GoStrings.

(** [len(s) == 0], the test behind [s == ""]. *)
Definition is_empty (s : string) : bool :=
  match s with EmptyString => true | String _ _ => false end.

(** [strings.HasPrefix(s, prefix)]. *)
Fixpoint HasPrefix (s prefix : string) {struct prefix} : bool :=
  match prefix with
  | EmptyString => true
  | String p prefix' =>
      match s with
      | EmptyString => false
      | String c s' => if Ascii.eqb c p then HasPrefix s' prefix' else false
      end
  end.

(** [s[n:]], with the whole string dropped when [n] exceeds its length. *)
Fixpoint drop (n : nat) (s : string) : string :=
  match n with
  | 0 => s
  | S n' => match s with EmptyString => "" | String _ s' => drop n' s' end
  end.

(** [strings.HasSuffix(s, suffix)]:
    [len(s) >= len(suffix) && s[len(s)-len(suffix):] == suffix]. *)
Definition HasSuffix (s suffix : string) : bool :=
  (String.length suffix <=? String.length s)%nat &&
  String.eqb (drop (String.length s - String.length suffix) s) suffix.

(** [strings.TrimPrefix(s, prefix)]. *)
Definition TrimPrefix (s prefix : string) : string :=
  if HasPrefix s prefix then drop (String.length prefix) s else s.

(** [s[:n]], the whole string when [n] exceeds its length. *)
Fixpoint head_bytes (n : nat) (s : string) : string :=
  match n, s with
  | S n', String c s' => String c (head_bytes n' s')
  | _, _ => ""
  end.

(** The byte [s[i]] as a number. *)
Definition byte_at (s : string) (i : nat) : N :=
  match String.get i s with
  | Some c => N_of_ascii c
  | None => 0
  end.

(** ** [unicode/utf8] *)

Definition RuneError : N := 65533.
Definition RuneSelf : N := 128.
Definition UTFMax : nat := 4.

(** An entry of the table [first]: the byte is ASCII, is no first byte,
    or starts a sequence of the given size whose second byte lies in the
    given range. *)
Inductive first_info : Type :=
| as_ascii
| invalid
| leading (size : nat) (lo hi : N).

Definition first (b : N) : first_info :=
  if (b <? 128)%N then as_ascii
  else if (b <? 194)%N then invalid
  else if (b <? 224)%N then leading 2 128 191
  else if (b =? 224)%N then leading 3 160 191
  else if (b <? 237)%N then leading 3 128 191
  else if (b =? 237)%N then leading 3 128 159
  else if (b <? 240)%N then leading 3 128 191
  else if (b =? 240)%N then leading 4 144 191
  else if (b <? 244)%N then leading 4 128 191
  else if (b =? 244)%N then leading 4 128 143
  else invalid.

(** A continuation byte: between [locb] and [hicb]. *)
Definition continuation (b : N) : bool := (128 <=? b)%N && (b <=? 191)%N.

(** [utf8.DecodeRuneInString(s)]: the first rune of [s] and its width in
    bytes; [RuneError] with width 1 for an encoding that is not valid and
    with width 0 for the empty string. *)
Definition DecodeRuneInString (s : string) : N * nat :=
  match s with
  | EmptyString => (RuneError, 0)
  | String c0 t0 =>
      let s0 := N_of_ascii c0 in
      match first s0 with
      | as_ascii => (s0, 1)
      | invalid => (RuneError, 1)
      | leading sz lo hi =>
          if (String.length s <? sz)%nat then (RuneError, 1)
          else
            match t0 with
            | EmptyString => (RuneError, 1)
            | String c1 t1 =>
                let s1 := N_of_ascii c1 in
                if (s1 <? lo)%N || (hi <? s1)%N then (RuneError, 1)
                else if (sz <=? 2)%nat
                then (N.lor (N.shiftl (N.land s0 31) 6) (N.land s1 63), 2)
                else
                  match t1 with
                  | EmptyString => (RuneError, 1)
                  | String c2 t2 =>
                      let s2 := N_of_ascii c2 in
                      if negb (continuation s2) then (RuneError, 1)
                      else if (sz <=? 3)%nat
                      then (N.lor (N.lor (N.shiftl (N.land s0 15) 12)
                                         (N.shiftl (N.land s1 63) 6))
                                  (N.land s2 63), 3)
                      else
                        match t2 with
                        | EmptyString => (RuneError, 1)
                        | String c3 _ =>
                            let s3 := N_of_ascii c3 in
                            if negb (continuation s3) then (RuneError, 1)
                            else
                              (N.lor (N.lor (N.lor
                                 (N.shiftl (N.land s0 7) 18)
                                 (N.shiftl (N.land s1 63) 12))
                                 (N.shiftl (N.land s2 63) 6))
                                 (N.land s3 63), 4)
                        end
                  end
            end
      end
  end.

(** [utf8.RuneStart(b)]. *)
Definition RuneStart (b : N) : bool := negb (N.land b 192 =? 128)%N.

(** The loop of [DecodeLastRuneInString] that looks for the start of the
    last rune among the [n] positions from [lim] on, the last of them
    first: the position found, or the one before [lim], and 0 when there
    is none. *)
Fixpoint last_start (s : string) (lim n : nat) : nat :=
  match n with
  | 0 => lim - 1
  | S n' =>
      if RuneStart (byte_at s (lim + n')) then lim + n'
      else last_start s lim n'
  end.

(** [utf8.DecodeLastRuneInString(s)]. *)
Definition DecodeLastRuneInString (s : string) : N * nat :=
  match String.length s with
  | 0 => (RuneError, 0)
  | S last =>
      let r := byte_at s last in
      if (r <? RuneSelf)%N then (r, 1)
      else
        let lim := S last - UTFMax in
        let start := last_start s lim (last - lim) in
        let '(r, size) := DecodeRuneInString (drop start s) in
        if Nat.eqb (start + size) (S last) then (r, size) else (RuneError, 1)
  end.

(** ** White space *)

(** The table [asciiSpace] of package [strings]. *)
Definition asciiSpace (b : N) : bool :=
  existsb (N.eqb b) [9; 10; 11; 12; 13; 32]%N.

(** [unicode.IsSpace(r)]: the white space of Latin-1, and beyond it the
    property White_Space. *)
Definition IsSpace (r : N) : bool :=
  if (r <=? 255)%N
  then existsb (N.eqb r) [9; 10; 11; 12; 13; 32; 133; 160]%N
  else (r =? 5760)%N || ((8192 <=? r)%N && (r <=? 8202)%N) ||
       ((8232 <=? r)%N && (r <=? 8233)%N) || (r =? 8239)%N ||
       (r =? 8287)%N || (r =? 12288)%N.

(** [indexFunc(s, f, truth)] of package [strings], [None] standing for
    -1: the offset of the first rune [r] with [f(r) == truth].  [s] is
    what is left of the string and [i] the offset reached. *)
Fixpoint indexFunc_fuel (fuel : nat) (s : string) (i : nat)
    (f : N -> bool) (truth : bool) : option nat :=
  match fuel with
  | 0 => None
  | S fuel' =>
      match s with
      | EmptyString => None
      | _ =>
          let '(r, size) := DecodeRuneInString s in
          if Bool.eqb (f r) truth then Some i
          else indexFunc_fuel fuel' (drop size s) (i + size) f truth
      end
  end.

Definition indexFunc (s : string) (f : N -> bool) (truth : bool)
  : option nat :=
  indexFunc_fuel (String.length s) s 0 f truth.

(** [lastIndexFunc(s, f, truth)]: the offset of the last such rune, the
    runes being decoded from the end; [i] is the offset reached. *)
Fixpoint lastIndexFunc_fuel (fuel : nat) (s : string) (i : nat)
    (f : N -> bool) (truth : bool) : option nat :=
  match fuel with
  | 0 => None
  | S fuel' =>
      match i with
      | 0 => None
      | _ =>
          let '(r, size) := DecodeLastRuneInString (head_bytes i s) in
          let i := i - size in
          if Bool.eqb (f r) truth then Some i
          else lastIndexFunc_fuel fuel' s i f truth
      end
  end.

Definition lastIndexFunc (s : string) (f : N -> bool) (truth : bool)
  : option nat :=
  lastIndexFunc_fuel (String.length s) s (String.length s) f truth.

(** [strings.TrimLeftFunc(s, f)]. *)
Definition TrimLeftFunc (s : string) (f : N -> bool) : string :=
  match indexFunc s f false with
  | None => ""
  | Some i => drop i s
  end.

(** [strings.TrimRightFunc(s, f)]: the string up to the end of the last
    rune that [f] rejects, the width of that rune being decoded forwards
    when its first byte is not ASCII. *)
Definition TrimRightFunc (s : string) (f : N -> bool) : string :=
  match lastIndexFunc s f false with
  | Some i =>
      if (RuneSelf <=? byte_at s i)%N
      then head_bytes (i + (DecodeRuneInString (drop i s)).2) s
      else head_bytes (S i) s
  | None => ""
  end.

(** [strings.TrimFunc(s, f)]. *)
Definition TrimFunc (s : string) (f : N -> bool) : string :=
  TrimRightFunc (TrimLeftFunc s f) f.

(** The second loop of [strings.TrimSpace], on [u = s[start:]]: [stop]
    moves down over ASCII white space; a byte that is not ASCII hands
    [u[:stop]] over to [TrimRightFunc]. *)
Fixpoint trim_stop (u : string) (stop : nat) : string :=
  match stop with
  | 0 => ""
  | S k =>
      let c := byte_at u k in
      if (RuneSelf <=? c)%N then TrimRightFunc (head_bytes stop u) IsSpace
      else if asciiSpace c then trim_stop u k
      else head_bytes stop u
  end.

(** [strings.TrimSpace(s)]: leading and trailing white space, as defined
    by Unicode, is removed.  The first loop moves over ASCII white
    space; a byte that is not ASCII hands what is left over to
    [TrimFunc]. *)
Fixpoint TrimSpace (s : string) : string :=
  match s with
  | EmptyString => ""
  | String c s' =>
      if (RuneSelf <=? N_of_ascii c)%N then TrimFunc s IsSpace
      else if asciiSpace (N_of_ascii c) then TrimSpace s'
      else trim_stop s (String.length s)
  end.

(** Splitting at every occurrence of one separator byte.  The result
    always has at least one element. *)
Fixpoint split_on (sep : ascii) (s : string) : list string :=
  match s with
  | EmptyString => [""]
  | String c s' =>
      if Ascii.eqb c sep then "" :: split_on sep s'
      else match split_on sep s' with
           | [] => [String c ""]
           | h :: t => String c h :: t
           end
  end.

(** Leftmost, non-overlapping splitting at a separator of any positive
    length; [skip] counts the bytes of a matched separator that are
    still to be passed over and [cur] is the piece read so far. *)
Fixpoint split_go (sep : string) (skip : nat) (cur : string) (s : string)
  : list string :=
  match s with
  | EmptyString => [cur]
  | String c s' =>
      match skip with
      | S k => split_go sep k cur s'
      | 0 =>
          if HasPrefix s sep
          then cur :: split_go sep (String.length sep - 1) "" s'
          else split_go sep 0 (cur +:+ String c "") s'
      end
  end.

(** [strings.Split(s, sep)] for a non-empty [sep].  (With an empty
    separator Go explodes [s] into UTF-8 sequences; the program never
    does that and the model explodes into bytes.) *)
Definition Split (s sep : string) : list string :=
  match sep with
  | EmptyString =>
      (fix explode (s : string) : list string :=
         match s with
         | EmptyString => []
         | String c s' => String c "" :: explode s'
         end) s
  | String c EmptyString => split_on c s
  | _ => split_go sep 0 "" s
  end.

(** [strings.Join(elems, sep)]. *)
Fixpoint Join (elems : list string) (sep : string) : string :=
  match elems with
  | [] => ""
  | [e] => e
  | e :: rest => e +:+ sep +:+ Join rest sep
  end.

(** Leftmost, non-overlapping replacement of [old] (non-empty) by [new];
    [skip] counts the bytes of a matched occurrence still to be passed
    over. *)
Fixpoint replace_go (old new : string) (skip : nat) (s : string) : string :=
  match s with
  | EmptyString => ""
  | String c s' =>
      match skip with
      | S k => replace_go old new k s'
      | 0 =>
          if HasPrefix s old
          then new +:+ replace_go old new (String.length old - 1) s'
          else String c (replace_go old new 0 s')
      end
  end.

(** [strings.ReplaceAll(s, old, new)].  With an empty [old] Go inserts
    [new] before every UTF-8 sequence and at the end; the program guards
    every call with [dep == ""], and the model inserts at byte
    boundaries. *)
Definition ReplaceAll (s old new : string) : string :=
  match old with
  | EmptyString =>
      (fix ins (s : string) : string :=
         match s with
         | EmptyString => new
         | String c s' => new +:+ String c (ins s')
         end) s
  | _ => replace_go old new 0 s
  end.

(** Go's [<] on strings: byte-wise lexicographic order, a proper prefix
    being smaller. *)
Fixpoint ltb (a b : string) : bool :=
  match a, b with
  | _, EmptyString => false
  | EmptyString, String _ _ => true
  | String x a', String y b' =>
      match N.compare (N_of_ascii x) (N_of_ascii y) with
      | Lt => true
      | Gt => false
      | Eq => ltb a' b'
      end
  end.

(** [old] occurs in [s] at some byte offset. *)
Fixpoint occursb (old s : string) : bool :=
  HasPrefix s old ||
  match s with
  | EmptyString => false
  | String _ s' => occursb old s'
  end.

(** Decimal rendering of an exit status, as [strconv.Itoa] does. *)
Definition itoa (n : N) : string :=
  NilEmpty.string_of_uint (N.to_uint n).

End GoStrings.

Import GoStrings.

(** A Go call returning [(T, error)]: the value, or the text of
    [err.Error()]. *)
Inductive result (A : Type) : Type :=
| Ok (a : A)
| Err (msg : string).
Arguments Ok {A} a.
Arguments Err {A} msg.

(* ===================================================================== *)
(** * Paths: [path/filepath] on Unix *)
(* ===================================================================== *)

Module Filepath.

Definition Separator : ascii := "/"%char.

(** [filepath.IsAbs]: on Unix, the path starts with the separator. *)
Definition IsAbs (path : string) : bool := HasPrefix path "/".

(** One element of the path being cleaned; [out] holds the elements
    written so far, innermost first.  An empty element and [.] are
    skipped; [..] removes the last real element, is dropped at the root
    and is kept in front of a relative path. *)
Definition clean_step (rooted : bool) (out : list string) (elem : string)
  : list string :=
  if is_empty elem || String.eqb elem "." then out
  else if String.eqb elem ".." then
    match out with
    | top :: rest => if String.eqb top ".." then elem :: out else rest
    | [] => if rooted then [] else [elem]
    end
  else elem :: out.

Definition clean_elems (rooted : bool) (path : string) : list string :=
  fold_left (clean_step rooted) (split_on Separator path) [].

(** [filepath.Clean]: the shortest path equivalent to [path] by purely
    lexical processing. *)
Definition Clean (path : string) : string :=
  if is_empty path then "."
  else
    let rooted := IsAbs path in
    let body := GoStrings.Join (rev (clean_elems rooted path)) "/" in
    if rooted then "/" +:+ body
    else if is_empty body then "." else body.

(** [filepath.Join]: leading empty elements are ignored, the rest is
    joined with the separator and cleaned; all empty gives [""]. *)
Fixpoint Join (elem : list string) : string :=
  match elem with
  | [] => ""
  | e :: rest =>
      if is_empty e then Join rest else Clean (GoStrings.Join elem "/")
  end.

Fixpoint has_sep (s : string) : bool :=
  match s with
  | EmptyString => false
  | String c s' => Ascii.eqb c Separator || has_sep s'
  end.

(** [path[:i+1]] where [i] is the index of the last separator, or the
    empty string when there is none. *)
Fixpoint upto_last_sep (s : string) : string :=
  match s with
  | EmptyString => ""
  | String c s' => if has_sep s then String c (upto_last_sep s') else ""
  end.

(** [filepath.Dir]: all but the last element of [path], cleaned. *)
Definition Dir (path : string) : string := Clean (upto_last_sep path).

Fixpoint last_nonempty (l : list string) : option string :=
  match l with
  | [] => None
  | e :: rest =>
      match last_nonempty rest with
      | Some x => Some x
      | None => if is_empty e then None else Some e
      end
  end.

(** [filepath.Base]: the last element of [path], trailing separators
    removed; [.] for the empty path and [/] for one of separators only. *)
Definition Base (path : string) : string :=
  if is_empty path then "."
  else match last_nonempty (split_on Separator path) with
       | Some e => e
       | None => "/"
       end.

(** [filepath.Abs]: an absolute path is cleaned, a relative one is joined
    to the working directory. *)
Definition Abs (cwd path : string) : string :=
  if IsAbs path then Clean path else Join [cwd; path].

Definition elems (path : string) : list string :=
  filter (fun e => is_empty e = false) (split_on Separator path).

Fixpoint strip_common (bs ts : list string) : list string * list string :=
  match bs, ts with
  | b :: bs', t :: ts' =>
      if String.eqb b t then strip_common bs' ts' else (bs, ts)
  | _, _ => (bs, ts)
  end.

(** [filepath.Rel]: a path that joined to [basepath] names [targpath].
    Both are cleaned and compared element by element; one [..] is emitted
    for each element of the base that is left over.  It fails when only
    one of the two is rooted or when the base would have to be left
    through a [..] of its own. *)
Definition Rel (basepath targpath : string) : result string :=
  let base := Clean basepath in
  let targ := Clean targpath in
  if String.eqb targ base then Ok "."
  else
    let base := if String.eqb base "." then "" else base in
    if negb (Bool.eqb (IsAbs base) (IsAbs targ)) then
      Err ("Rel: can't make " +:+ targpath +:+ " relative to " +:+ basepath)
    else
      let '(bs, ts) := strip_common (elems base) (elems targ) in
      match bs with
      | [] => Ok (GoStrings.Join ts "/")
      | b :: _ =>
          if String.eqb b ".." then
            Err ("Rel: can't make " +:+ targpath +:+ " relative to " +:+ basepath)
          else Ok (GoStrings.Join (map (fun _ => "..") bs ++ ts) "/")
      end.

End Filepath.

Global Arguments Filepath.Clean : simpl never.
Global Arguments Filepath.Join : simpl never.
Global Arguments Filepath.Dir : simpl never.
Global Arguments Filepath.Base : simpl never.
Global Arguments Filepath.Abs : simpl never.
Global Arguments Filepath.Rel : simpl never.

(* ===================================================================== *)
(** * The file system and the operations of package [os] *)
(* ===================================================================== *)

Inductive node : Type :=
| File (data : string)
| Directory.

(** What the program writes besides files, in the order it happens. *)
Record failMsg : Type := { Error : string }.

Record Cmd : Type := {
  Path : string;
  Args : list string;
  CmdDir : string;
  CmdEnv : list string
}.

Inductive event : Type :=
| Stdout (s : string)              (* bytes written to standard output *)
| StderrUsage                      (* the usage text of package flag *)
| StderrJSON (m : failMsg)         (* one JSON encoding of [m] and a newline *)
| Removed (path : string)          (* a completed [os.RemoveAll] *)
| Spawned (c : Cmd).               (* a child process was asked for *)

(** The mutable world: files keyed by cleaned absolute path, the working
    directory of the process, and the events so far (oldest first). *)
Record world : Type := {
  files : gmap string node;
  cwd : string;
  trace : list event
}.

Definition set_files (w : world) (fs : gmap string node) : world :=
  {| files := fs; cwd := cwd w; trace := trace w |}.

Definition log (w : world) (ev : event) : world :=
  {| files := files w; cwd := cwd w; trace := trace w ++ [ev] |}.

Module Os.

Definition ENOENT : string := "no such file or directory".
Definition ENOTDIR : string := "not a directory".
Definition EISDIR : string := "is a directory".
Definition EINVAL : string := "invalid argument".
Definition EACCES : string := "permission denied".

(** [&PathError{Op, Path, Err}.Error()]. *)
Definition PathError (op path errno : string) : string :=
  op +:+ " " +:+ path +:+ ": " +:+ errno.

(** The key under which [name] is stored. *)
Definition key (w : world) (name : string) : string :=
  Filepath.Abs (cwd w) name.

(** [os.Stat(name)]: [None] is the nil error. *)
Definition Stat (w : world) (name : string) : option string :=
  match files w !! key w name with
  | Some _ => None
  | None => Some (PathError "stat" name ENOENT)
  end.

(** [os.ReadFile(name)]. *)
Definition ReadFile (w : world) (name : string) : result string :=
  match files w !! key w name with
  | Some (File data) => Ok data
  | Some Directory => Err (PathError "read" name EISDIR)
  | None => Err (PathError "open" name ENOENT)
  end.

(** [os.WriteFile(name, data, perm)]: an existing file is truncated, a
    new one needs its parent directory. *)
Definition WriteFile (w : world) (name data : string)
  : world * option string :=
  let k := key w name in
  match files w !! k with
  | Some (File _) => (set_files w (<[k := File data]> (files w)), None)
  | Some Directory => (w, Some (PathError "open" name EISDIR))
  | None =>
      match files w !! Filepath.Dir k with
      | Some Directory =>
          (set_files w (<[k := File data]> (files w)), None)
      | Some (File _) => (w, Some (PathError "open" name ENOTDIR))
      | None => (w, Some (PathError "open" name ENOENT))
      end
  end.

(** [os.Create(name)]: create or truncate. *)
Definition Create (w : world) (name : string) : world * option string :=
  WriteFile w name "".

(** [os.MkdirAll(path, perm)]: an existing directory is fine, an existing
    file is an error, otherwise the parent is made first. *)
Fixpoint MkdirAll_fuel (fuel : nat) (fs : gmap string node) (k : string)
  : gmap string node * option string :=
  match fs !! k with
  | Some Directory => (fs, None)
  | Some (File _) => (fs, Some (PathError "mkdir" k ENOTDIR))
  | None =>
      match fuel with
      | 0 => (fs, Some (PathError "mkdir" k ENOENT))
      | S fuel' =>
          let parent := Filepath.Dir k in
          if String.eqb parent k then (<[k := Directory]> fs, None)
          else
            match MkdirAll_fuel fuel' fs parent with
            | (fs', None) => (<[k := Directory]> fs', None)
            | (fs', Some e) => (fs', Some e)
            end
      end
  end.

Definition MkdirAll (w : world) (path : string) : world * option string :=
  let k := key w path in
  let '(fs, err) := MkdirAll_fuel (S (S (String.length k))) (files w) k in
  (set_files w fs, err).

(** [k] is [root] or lies below it. *)
Definition within (root k : string) : bool :=
  String.eqb k root ||
  HasPrefix k (if String.eqb root "/" then "/" else root +:+ "/").

(** [endsWithDot(path)] of package [os]. *)
Definition endsWithDot (path : string) : bool :=
  String.eqb path "." || HasSuffix path "/.".

Fixpoint one_leading_sep (path : string) : string :=
  match path with
  | String "/" (String "/" _ as rest) => one_leading_sep rest
  | _ => path
  end.

Fixpoint no_trailing_sep (s : string) : string :=
  match s with
  | EmptyString => ""
  | String c s' =>
      match no_trailing_sep s' with
      | EmptyString => if Ascii.eqb c "/" then "" else String c ""
      | t => String c t
      end
  end.

(** [splitPath(path)] of package [os]: the parent directory and the base
    name.  All but one leading separator and the trailing separators
    after the first byte are dropped; the path is then cut at its last
    separator, and without one the parent is [.]. *)
Definition splitPath (path : string) : string * string :=
  let path :=
    match one_leading_sep path with
    | EmptyString => ""
    | String c rest => String c (no_trailing_sep rest)
    end in
  let upto :=
    match path with
    | String _ (String _ _) => Filepath.upto_last_sep path
    | _ => ""
    end in
  match upto with
  | EmptyString => (".", path)
  | String c EmptyString => (String c "", drop 1 path)
  | _ => (String.substring 0 (String.length upto - 1) path,
          drop (String.length upto) path)
  end.

(** The entries that a removal of [k] meets and cannot unlink: those of
    the table [held] that exist at [k] or below it. *)
Definition met (held : list (string * string)) (fs : gmap string node)
    (k : string) : list (string * string) :=
  List.filter
    (fun h => within k h.1 &&
              match fs !! h.1 with Some _ => true | None => false end)
    held.

(** [os.RemoveAll(path)]: the path and everything below it go away; a
    missing path is not an error, the empty path is left alone and a path
    that ends in a dot element is refused.  The table [held] lists the entries
    that the system refuses to unlink, each with the text of the system
    error, in the order in which a removal meets them.  Such an entry
    stays, and with it the directories above it, which are not empty;
    everything else at or below the path is removed, and the error of the
    first entry met is returned, under the path made of the parent
    directory, the base name and the names below. *)
Definition RemoveAll (held : list (string * string)) (w : world)
    (path : string) : world * option string :=
  if is_empty path then (w, None)
  else if endsWithDot path
  then (w, Some (PathError "RemoveAll" path EINVAL))
  else
    let k := key w path in
    let stuck := met held (files w) k in
    let stays (k' : string) :=
      negb (within k k') || existsb (fun h => within k' h.1) stuck in
    (set_files w (filter (fun kv => stays kv.1 = true) (files w)),
     match stuck with
     | [] => None
     | h :: _ =>
         let '(dir, base) := splitPath path in
         Some (PathError "unlinkat"
                 (dir +:+ "/" +:+ base +:+ drop (String.length k) h.1) h.2)
     end).

End Os.

(* ===================================================================== *)
(** * Tree walks *)
(* ===================================================================== *)

Module Walk.

(** Walks visit a directory before its entries and the entries of one
    directory in the byte order of their names: the order of whole paths
    in which the separator is smaller than every other byte. *)
Definition rank (c : ascii) : N :=
  if Ascii.eqb c Filepath.Separator then 0%N else N.succ (N_of_ascii c).

Fixpoint path_leb (a b : string) : bool :=
  match a, b with
  | EmptyString, _ => true
  | String _ _, EmptyString => false
  | String x a', String y b' =>
      match N.compare (rank x) (rank y) with
      | Lt => true
      | Gt => false
      | Eq => path_leb a' b'
      end
  end.

Definition visit_le (a b : string * node) : Prop := path_leb a.1 b.1 = true.

Global Instance visit_le_dec : RelDecision visit_le.
Proof. intros a b. unfold visit_le. apply _. Defined.

(** The nodes at and below [root], in visiting order. *)
Definition entries (fs : gmap string node) (root : string)
  : list (string * node) :=
  merge_sort visit_le
    (map_to_list (filter (fun kv => Os.within root kv.1 = true) fs)).

(** Calls [fn] on the entries in turn, stopping at its first error. *)
Fixpoint visit {S : Type} (fn : string -> node -> S -> S * option string)
    (l : list (string * node)) (s : S) : S * option string :=
  match l with
  | [] => (s, None)
  | (path, n) :: rest =>
      match fn path n s with
      | (s', None) => visit fn rest s'
      | (s', Some e) => (s', Some e)
      end
  end.

(** [filepath.Walk(root, fn)] for a callback that returns the error it is
    handed: a missing root is reported through the callback.  The paths
    handed to [fn] are the keys, which is what Go passes when [root] is a
    cleaned absolute path. *)
Definition Walk (w : world) (root : string)
    (fn : string -> node -> world -> world * option string)
  : world * option string :=
  let k := Os.key w root in
  match files w !! k with
  | None => (w, Some (Os.PathError "lstat" root Os.ENOENT))
  | Some _ => visit fn (entries (files w) k) w
  end.

End Walk.

(* ===================================================================== *)
(** * The program: [cmd/jsonschema-gen] *)
(* ===================================================================== *)

Definition mainTemplName : string := "main.templ".
Definition depsFileName : string := "deps.txt".
Definition tmpDirName : string := "jsonschema-gen".
Definition vendorDirName : string := "vendored".

Record importInfo : Type := {
  ModuleName : string;
  PackageName : string;
  ImportName : string;
  FileName : string;
  RelativePath : string;
  FilePath : string;
  TypeName : string
}.

(** How [cmd.Run()] ends: the child exited with a status, was ended by a
    signal, or could not be started.  The two strings are what the child
    wrote to the captured standard output and standard error. *)
Inductive run_result : Type :=
| Exited (code : N) (out err : string)
| Signaled (sig : string) (out err : string)
| NotStarted (msg : string).

(** What the program is given and does not change: the environment
    variables, the embedded snapshot (its entries below the root, keyed by
    slash path), the parsed [main.templ] as the function that executes it
    (the text written and the error, if any), the behaviour of the Go
    tool chain as a function of the command and of the files it sees, and
    the entries of the file system that the system refuses to unlink (for
    lack of permission, say), each with the text of the system error. *)
Record env : Type := {
  environ : list string;
  embedFS : gmap string node;
  execute_template : importInfo -> string * option string;
  go_run : Cmd -> gmap string node -> run_result;
  held : list (string * string)
}.

(** ** Sequencing with [os.Exit] *)

Inductive outcome (A : Type) : Type :=
| Return (a : A)
| Exit (code : nat).
Arguments Return {A} a.
Arguments Exit {A} code.

Definition M (A : Type) : Type := world -> outcome A * world.

Definition ret {A : Type} (a : A) : M A := fun w => (Return a, w).

Definition bind {A B : Type} (m : M A) (k : A -> M B) : M B :=
  fun w =>
    match m w with
    | (Return a, w') => k a w'
    | (Exit c, w') => (Exit c, w')
    end.

Notation "x <- m ;; k" := (bind m (fun x => k))
  (at level 100, m at next level, right associativity).
Notation "m ;;; k" := (bind m (fun _ => k))
  (at level 100, right associativity).

(** A call that reads the world. *)
Definition read {A : Type} (f : world -> A) : M A := fun w => (Return (f w), w).

(** A call that changes the world and returns an error value. *)
Definition effect (f : world -> world * option string) : M (option string) :=
  fun w => let '(w', err) := f w in (Return err, w').

Definition emit (ev : event) : M unit := fun w => (Return tt, log w ev).

Definition exit {A : Type} (code : nat) : M A := fun w => (Exit code, w).

(** [func fail(msg string)]. *)
Definition fail {A : Type} (msg : string) : M A :=
  emit (StderrJSON {| Error := msg |}) ;;; exit 1.

(** [func must(err error)]. *)
Definition must (err : option string) : M unit :=
  match err with
  | Some e => fail e
  | None => ret tt
  end.

(** [v, err := f(); if err != nil { fail(err.Error()) }]. *)
Definition orFail {A : Type} (r : result A) : M A :=
  match r with
  | Ok a => ret a
  | Err e => fail e
  end.

(** ** [parsePkgName] *)

Definition MaxScanTokenSize : N := 65536.

Definition too_long (line : string) : bool :=
  (MaxScanTokenSize <=? N.of_nat (String.length line))%N.

Definition dropCR (line : string) : string :=
  if HasSuffix line (String "013" "")
  then String.substring 0 (String.length line - 1) line
  else line.

(** The tokens a [bufio.Scanner] with [bufio.ScanLines] delivers, given the
    pieces between line feeds: a carriage return before the line feed is
    dropped, an empty last piece is no token, and scanning stops at a
    piece that does not fit the buffer. *)
Fixpoint scan_lines (pieces : list string) : list string :=
  match pieces with
  | [] => []
  | [last] =>
      if is_empty last || too_long last then [] else [dropCR last]
  | piece :: rest =>
      if too_long piece then [] else dropCR piece :: scan_lines rest
  end.

Fixpoint first_package (lines : list string) : option string :=
  match lines with
  | [] => None
  | line :: rest =>
      if HasPrefix line "package "
      then Some (TrimSpace (TrimPrefix line "package "))
      else first_package rest
  end.

Definition parsePkgName (w : world) (file : string) : result string :=
  match files w !! Os.key w file with
  | None => Err (Os.PathError "open" file Os.ENOENT)
  | Some n =>
      let data := match n with File data => data | Directory => "" end in
      match first_package (scan_lines (Split data (String "010" ""))) with
      | Some pkgName => Ok pkgName
      | None => Err ("package name not found in file " +:+ file)
      end
  end.

(** ** [findGoMod] *)

(** The loop of [findGoMod], run for at most [fuel] rounds. *)
Fixpoint findGoMod_fuel (fuel : nat) (w : world) (dir : string)
  : option string :=
  match fuel with
  | 0 => None
  | S fuel' =>
      match Os.Stat w (Filepath.Join [dir; "go.mod"]) with
      | None => Some dir
      | Some _ =>
          let parent := Filepath.Dir dir in
          if String.eqb parent dir then Some ""
          else findGoMod_fuel fuel' w parent
      end
  end.

(** Two rounds more than [dir] has bytes are always enough
    ([findGoMod_fuel_enough] below). *)
Definition findGoMod (w : world) (dir : string) : string :=
  match findGoMod_fuel (S (S (String.length dir))) w dir with
  | Some r => r
  | None => ""
  end.

(** ** [parseGoMod] *)

Fixpoint parseGoMod_lines (lines : list string) (modName goVer : string)
  : string * string :=
  match lines with
  | [] => (modName, goVer)
  | line :: rest =>
      let '(modName, goVer) :=
        if HasPrefix line "module "
        then (TrimSpace (TrimPrefix line "module "), goVer)
        else if HasPrefix line "go "
        then (modName, TrimSpace (TrimPrefix line "go "))
        else (modName, goVer) in
      if negb (is_empty goVer) && negb (is_empty modName)
      then (modName, goVer)
      else parseGoMod_lines rest modName goVer
  end.

Definition parseGoMod (w : world) (modDir : string)
  : result (string * string) :=
  match Os.ReadFile w (Filepath.Join [modDir; "go.mod"]) with
  | Err e => Err e
  | Ok data => Ok (parseGoMod_lines (Split data (String "010" "")) "" "")
  end.

(** ** [copyDeps] *)

Definition copyDeps_fn (e : env) (dst : string)
    (path : string) (d : node) (w : world) : world * option string :=
  let target := Filepath.Join [dst; path] in
  match d with
  | Directory => Os.MkdirAll w target
  | File _ =>
      match embedFS e !! path with
      | Some (File data) => Os.WriteFile w target data
      | Some Directory => (w, Some (Os.PathError "read" path Os.EISDIR))
      | None => (w, Some (Os.PathError "open" path Os.ENOENT))
      end
  end.

(** [fs.WalkDir(embedFS, ".", fn)]: the root first, then every entry. *)
Definition copyDeps (e : env) (w : world) (dst : string)
  : world * option string :=
  Walk.visit (copyDeps_fn e dst)
    ((".", Directory)
       :: merge_sort Walk.visit_le (map_to_list (embedFS e))) w.

(** ** [renameImports] *)

(** The loop over [depList] on the text of one file. *)
Fixpoint rewrite_imports (depList : list string) (prefix data : string)
  : string :=
  match depList with
  | [] => data
  | dep :: rest =>
      if is_empty dep then rewrite_imports rest prefix data
      else rewrite_imports rest prefix
             (ReplaceAll data dep (prefix +:+ "/" +:+ dep))
  end.

Definition renameImports_fn (depList : list string) (prefix : string)
    (path : string) (info : node) (w : world) : world * option string :=
  match info with
  | File _ =>
      if HasSuffix path ".go" then
        match Os.ReadFile w path with
        | Err e => (w, Some e)
        | Ok b => Os.WriteFile w path (rewrite_imports depList prefix b)
        end
      else (w, None)
  | Directory => (w, None)
  end.

Definition renameImports (w : world) (root prefix : string)
  : world * option string :=
  match Os.ReadFile w (Filepath.Join [root; vendorDirName; depsFileName]) with
  | Err e => (w, Some e)
  | Ok deps =>
      let depList := Split deps (String "010" "") in
      Walk.Walk w root (renameImports_fn depList prefix)
  end.

(** ** [main] *)

(** Lines 82-132: from the arguments to the descriptor and the directory
    of the target file.  Nothing is written on the way. *)
Definition describe (filePath symbolName : string)
  : M (importInfo * string) :=
  absPath <- read (fun w => Filepath.Abs (cwd w) filePath) ;;
  let fileName := Filepath.Base absPath in
  let fileDir := Filepath.Dir absPath in
  pkgName <- (r <- read (fun w => parsePkgName w absPath) ;; orFail r) ;;
  modDir <- read (fun w => findGoMod w fileDir) ;;
  (if is_empty modDir
   then fail ("go.mod not found for file " +:+ fileDir) else ret tt) ;;;
  mg <- (r <- read (fun w => parseGoMod w modDir) ;; orFail r) ;;
  let modName := mg.1 in
  let goVer := mg.2 in
  (if is_empty modName
   then fail "module name not found in go.mod" else ret tt) ;;;
  (if ltb goVer "1.18"
   then fail "go mod version must be at least 1.18" else ret tt) ;;;
  relPath <- orFail (Filepath.Rel modDir fileDir) ;;
  let relPath := if String.eqb relPath "." then "" else relPath in
  let importPath :=
    if is_empty relPath then modName else modName +:+ "/" +:+ relPath in
  ret ({| ImportName := importPath;
          FileName := fileName;
          PackageName := pkgName;
          RelativePath := relPath;
          TypeName := symbolName;
          ModuleName := modName;
          FilePath := Filepath.Join [fileDir; fileName] |}, fileDir).

(** [mainTemplate.Execute(f, i)]: the text goes to the file that
    [os.Create] opened under the name [f]. *)
Definition template_Execute (e : env) (f : string) (i : importInfo)
    (w : world) : world * option string :=
  let '(text, err) := execute_template e i in
  match files w !! Os.key w f with
  | Some (File _) =>
      (set_files w (<[Os.key w f := File text]> (files w)), err)
  | _ => (w, Some (Os.PathError "write" f "file already closed"))
  end.

(** [err.Error()] of the error of [cmd.Run()], [None] being nil. *)
Definition run_error (r : run_result) : option string :=
  match r with
  | Exited code _ _ =>
      if (code =? 0)%N then None else Some ("exit status " +:+ itoa code)
  | Signaled sig _ _ => Some ("signal: " +:+ sig)
  | NotStarted msg => Some msg
  end.

(** The contents of the buffers [stdOut] and [stdErr] after the run. *)
Definition captured (r : run_result) : string * string :=
  match r with
  | Exited _ out err => (out, err)
  | Signaled _ out err => (out, err)
  | NotStarted _ => ("", "")
  end.

Definition go_command (e : env) (tmpDir tmpMain : string) : Cmd :=
  {| Path := "go";
     Args := ["go"; "run"; tmpMain];
     CmdDir := tmpDir;
     CmdEnv := environ e ++ ["GOWORK=off"; "GO111MODULE=auto"] |}.

(** [cmd.Run()] with both output streams captured. *)
Definition Run (e : env) (c : Cmd) : M run_result :=
  emit (Spawned c) ;;; read (fun w => go_run e c (files w)).

Definition removeAll (e : env) (path : string) : M (option string) :=
  fun w =>
    let '(w', err) := Os.RemoveAll (held e) w path in
    (Return err,
     match err with None => log w' (Removed path) | Some _ => w' end).

(** Lines 152-175: the child process and what is reported of it. *)
Definition execute (e : env) (tmpDir tmpMain : string) : M unit :=
  r <- Run e (go_command e tmpDir tmpMain) ;;
  let '(stdOut, stdErr) := captured r in
  match run_error r with
  | Some msg =>
      fail (if (0 <? String.length stdErr)%nat
            then msg +:+ String "010" "" +:+ stdErr else msg)
  | None =>
      (err <- removeAll e tmpDir ;; must err) ;;;
      emit (Stdout stdOut)
  end.

(** Lines 134-150: the workspace, the entry point, the vendor tree and the
    rewriting of its imports. *)
Definition prepare (e : env) (i : importInfo) (tmpDir tmpMain : string)
  : M unit :=
  (err <- effect (fun w => Os.MkdirAll w tmpDir) ;; must err) ;;;
  (err <- effect (fun w => Os.Create w tmpMain) ;; must err) ;;;
  (err <- effect (template_Execute e tmpMain i) ;; must err) ;;;
  let prefix := Filepath.Join [ImportName i; tmpDirName; vendorDirName] in
  (err <- effect (fun w => copyDeps e w tmpDir) ;; must err) ;;;
  (err <- effect (fun w => renameImports w tmpDir prefix) ;; must err).

Definition main (e : env) (filePath symbolName : string) : M unit :=
  (if is_empty filePath || is_empty symbolName
   then emit StderrUsage ;;; exit 1 else ret tt) ;;;
  d <- describe filePath symbolName ;;
  let i := d.1 in
  let fileDir := d.2 in
  let tmpDir := Filepath.Join [fileDir; tmpDirName] in
  let tmpMain := Filepath.Join [tmpDir; "main.go"] in
  prepare e i tmpDir tmpMain ;;;
  execute e tmpDir tmpMain.

(** The exit status of the process: [0] when [main] returns. *)
Definition run_main (e : env) (filePath symbolName : string) (w : world)
  : nat * world :=
  match main e filePath symbolName w with
  | (Return _, w') => (0, w')
  | (Exit code, w') => (code, w')
  end.

(* ===================================================================== *)
(** * Notions used in the statements *)
(* ===================================================================== *)

(** [c] is one of the bytes of [s]. *)
Fixpoint has_byte (c : ascii) (s : string) : bool :=
  match s with
  | EmptyString => false
  | String x s' => Ascii.eqb x c || has_byte c s'
  end.

(** The bytes of the pieces, one separator counted after each. *)
Definition weight (l : list string) : nat :=
  fold_right (fun e n => S (String.length e + n)) 0 l.

(** Files stay files and directories stay directories. *)
Definition same_kind (n n' : node) : Prop :=
  match n, n' with
  | File _, File _ => True
  | Directory, Directory => True
  | _, _ => False
  end.

(** Every path of [fs] is still there in [fs'], with a node of its kind. *)
Definition persists (fs fs' : gmap string node) : Prop :=
  forall k n, fs !! k = Some n -> exists n', fs' !! k = Some n' /\ same_kind n n'.

(** A step that writes nothing to the output streams, keeps the working
    directory and removes nothing. *)
Definition quiet (w w' : world) : Prop :=
  cwd w' = cwd w /\ trace w' = trace w /\ persists (files w) (files w').

(** The text handed to [fail] when the child did not succeed. *)
Definition failure_text (r : run_result) (msg : string) : string :=
  if (0 <? String.length (captured r).2)%nat
  then msg +:+ String "010" "" +:+ (captured r).2 else msg.

(** Every key of the file system names itself: it is an absolute, cleaned
    path. *)
Definition wf_keys (w : world) : bool :=
  forallb (fun kv : string * node => String.eqb (Os.key w kv.1) kv.1)
          (map_to_list (files w)).

(** What the rewriter makes of the node stored at [k]. *)
Definition rename_node (depList : list string) (prefix : string)
    (k : string) (n : node) : node :=
  match n with
  | File b =>
      if HasSuffix k ".go" then File (rewrite_imports depList prefix b) else n
  | Directory => n
  end.

Definition LF : ascii := "010"%char.

(** The workspace of an invocation: the directory [jsonschema-gen] inside
    the directory of the target file. *)
Definition workspace (w : world) (filePath : string) : string :=
  Filepath.Join
    [Filepath.Dir (Filepath.Abs (cwd w) filePath); tmpDirName].

Definition entry_point (w : world) (filePath : string) : string :=
  Filepath.Join [workspace w filePath; "main.go"].

(** The descriptor that [describe] returns, or an empty one when it
    fails. *)
Definition describe_result (filePath symbolName : string) (w : world)
  : importInfo :=
  match describe filePath symbolName w with
  | (Return d, _) => d.1
  | (Exit _, _) =>
      {| ModuleName := ""; PackageName := ""; ImportName := "";
         FileName := ""; RelativePath := ""; FilePath := ""; TypeName := "" |}
  end.

Definition version_floor_message : string :=
  "go mod version must be at least 1.18".

(** No non-empty entry of the manifest occurs in [line]. *)
Definition free_of_dependencies (deps line : string) : bool :=
  forallb (fun dep => is_empty dep || negb (occursb dep line))
          (Split deps (String "010" "")).

(** Neither the first nor the last rune of [s] is white space. *)
Definition trimmed (s : string) : bool :=
  is_empty s ||
  (negb (IsSpace (DecodeRuneInString s).1) &&
   negb (IsSpace (DecodeLastRuneInString s).1)).

(** No continuation byte at offset [i]: the string ends there, or a rune
    may start there. *)
Definition boundary (s : string) (i : nat) : Prop :=
  match drop i s with
  | EmptyString => True
  | String c _ => continuation (N_of_ascii c) = false
  end.

(** ** Cleaned absolute paths *)

(** An element of a cleaned path: not empty, free of separators, and
    neither [.] nor [..]. *)
Definition valid_elem (e : string) : bool :=
  negb (is_empty e) && negb (has_byte Filepath.Separator e) &&
  negb (String.eqb e ".") && negb (String.eqb e "..").

(** The cleaned absolute path with the elements [cs]; the root for none. *)
Definition abs_path (cs : list string) : string :=
  "/" +:+ GoStrings.Join cs "/".

Abbreviation proper := (Forall (fun e : string => valid_elem e = true)).

(** An element that cleaning drops. *)
Definition skipped (e : string) : Prop := e = "" \/ e = ".".

(** [go.mod] can be stat'ed in [dir]. *)
Definition has_go_mod (w : world) (dir : string) : bool :=
  match Os.Stat w (Filepath.Join [dir; "go.mod"]) with
  | None => true
  | Some _ => false
  end.

(** The [k]-th ancestor of [dir]. *)
Definition ancestor (k : nat) (dir : string) : string :=
  Nat.iter k Filepath.Dir dir.

(** ** What a run may rely on and what it keeps *)

(** Nothing outside [root] differs between [fs] and [fs']. *)
Definition outside_same (root : string) (fs fs' : gmap string node) : Prop :=
  forall k, Os.within root k = false -> fs' !! k = fs !! k.

(** Every key is a cleaned absolute path. *)
Definition keys_abs (fs : gmap string node) : Prop :=
  forall k n, fs !! k = Some n -> exists cs, proper cs /\ k = abs_path cs.

(** Every node has a directory as parent (the root is its own parent). *)
Definition wf_tree (w : world) : bool :=
  forallb (fun kv : string * node =>
             match files w !! Filepath.Dir kv.1 with
             | Some Directory => true
             | _ => false
             end)
          (map_to_list (files w)).

(** The keys of the snapshot are slash paths of proper elements. *)
Definition snapshot_clean (e : env) : bool :=
  forallb (fun kv : string * node =>
             forallb valid_elem (split_on Filepath.Separator kv.1))
          (map_to_list (embedFS e)).

(** The snapshot holds the directory of each of its entries. *)
Definition snapshot_closed (e : env) : bool :=
  forallb (fun kv : string * node =>
             match removelast (split_on Filepath.Separator kv.1) with
             | [] => true
             | parent =>
                 match embedFS e !! GoStrings.Join parent "/" with
                 | Some Directory => true
                 | _ => false
                 end
             end)
          (map_to_list (embedFS e)).

(** What the stages of [prepare] keep while they work below the directory
    [abs_path d]: the working directory, that directory itself, and keys
    that are cleaned absolute paths. *)
Definition settled (c0 : string) (d : list string) (w : world) : Prop :=
  cwd w = c0 /\ files w !! abs_path d = Some Directory /\ keys_abs (files w).

(** An entry of the walk of [copyDeps]: the root, or an entry of the
    snapshot with its path in elements. *)
Definition copy_entry (e : env) (x : string * node) (rel : list string)
  : Prop :=
  proper rel /\
  ((x = (".", Directory) /\ rel = []) \/
   (rel <> [] /\ x.1 = GoStrings.Join rel "/" /\ embedFS e !! x.1 = Some x.2)).

Definition same_kindb (n n' : node) : bool :=
  match n, n' with
  | File _, File _ => true
  | Directory, Directory => true
  | _, _ => false
  end.

(** Where an entry of the snapshot is to go there is nothing, or a node of
    its kind. *)
Definition fits (e : env) (w : world) (dst : string) : bool :=
  forallb (fun kv : string * node =>
             match files w !! Filepath.Join [dst; kv.1] with
             | None => true
             | Some n' => same_kindb kv.2 n'
             end)
          (map_to_list (embedFS e)).

(** The same for the destination [abs_path d], entry by entry: the
    invariant of the copy. *)
Definition fitsP (e : env) (d : list string) (w : world) : Prop :=
  forall rel n n', proper rel -> rel <> [] ->
  embedFS e !! GoStrings.Join rel "/" = Some n ->
  files w !! abs_path (d ++ rel) = Some n' -> same_kind n n'.

(** The workspace can be used: its path is free or a directory, the entry
    point is free or a file, and the snapshot fits. *)
Definition workspace_usable (e : env) (w : world) (filePath : string) : bool :=
  match files w !! workspace w filePath with
  | Some (File _) => false
  | _ => true
  end &&
  match files w !! entry_point w filePath with
  | Some Directory => false
  | _ => true
  end &&
  fits e w (workspace w filePath).


(* ===================================================================== *)
(** * A sample module tree, snapshot and tool chain *)
(* ===================================================================== *)

Module Sample.

Definition nl : string := String "010" "".
Definition dq : string := String "034" "".

(** The lines, each ended by a line feed. *)
Definition text (ls : list string) : string :=
  fold_right (fun l acc => l +:+ nl +:+ acc) "" ls.

Definition quoted (s : string) : string := dq +:+ s +:+ dq.

(** [/w/app] is a module with the package [models] in [/w/app/pkg]. *)
Definition tree (gomod : string) : gmap string node :=
  list_to_map
    [("/", Directory); ("/w", Directory); ("/w/app", Directory);
     ("/w/app/go.mod", File gomod);
     ("/w/app/pkg", Directory);
     ("/w/app/pkg/models.go",
      File (text ["package models"; ""; "type User struct{}"]));
     ("/w/app/pkg/other.go",
      File (text ["package models"; ""; "type Item struct{}"]))].

Definition at_module (gomod : string) : world :=
  {| files := tree gomod; cwd := "/w"; trace := [] |}.

Definition gomod (modName goVer : string) : string :=
  text ["module " +:+ modName; ""; "go " +:+ goVer].

Definition gomod_without_go : string := text ["module example.com/app"].

Definition w0 : world := at_module (gomod "example.com/app" "1.20").

(** A snapshot with two dependencies, one importing the other. *)
Definition snapshot : gmap string node :=
  list_to_map
    [("main.templ", File "{{.ImportName}}");
     ("vendored", Directory);
     ("vendored/deps.txt", File (text ["example.org/schema"; "example.org/omap"]));
     ("vendored/example.org", Directory);
     ("vendored/example.org/schema", Directory);
     ("vendored/example.org/schema/reflect.go",
      File (text ["package schema"; "import " +:+ quoted "example.org/omap"]));
     ("vendored/example.org/schema/README.md", File "see example.org/omap");
     ("vendored/example.org/omap", Directory);
     ("vendored/example.org/omap/omap.go", File (text ["package omap"]))].

(** The entry point: it imports the schema library and the target
    package. *)
Definition template (i : importInfo) : string * option string :=
  (text ["package main";
         "import " +:+ quoted "example.org/schema";
         "import target " +:+ quoted (ImportName i);
         "func main() { schema.Reflect(&target." +:+ TypeName i +:+ "{}) }"],
   None).

(** A tool chain whose run always ends as [r]. *)
Definition env_with (r : run_result) : env :=
  {| environ := ["HOME=/root"];
     embedFS := snapshot;
     execute_template := template;
     go_run := fun _ _ => r;
     held := [] |}.

(** The sample workspace as it is when the rewriter starts: created,
    with the entry point rendered and the snapshot copied. *)
Definition materialized : world :=
  let e := env_with (Exited 0 "{}" "") in
  let tmpDir := "/w/app/pkg/jsonschema-gen" in
  let tmpMain := "/w/app/pkg/jsonschema-gen/main.go" in
  let i := describe_result "app/pkg/models.go" "User" w0 in
  let w1 := (Os.MkdirAll w0 tmpDir).1 in
  let w2 := (Os.Create w1 tmpMain).1 in
  let w3 := (template_Execute e tmpMain i w2).1 in
  (copyDeps e w3 tmpDir).1.

End Sample.

(* ===================================================================== *)
(** * Further sample worlds *)
(* ===================================================================== *)

Module Scenario.

(** [n] slashes. *)
Fixpoint filler (n : nat) : string :=
  match n with
  | 0 => ""
  | S k => String "/" (filler k)
  end.

(** A comment line that does not fit the buffer of the scanner. *)
Definition long_comment : string := filler (N.to_nat MaxScanTokenSize).

Definition with_node (w : world) (k : string) (n : node) : world :=
  set_files w (<[k := n]> (files w)).

(** A source file whose package clause follows the long comment. *)
Definition long_source : string :=
  long_comment +:+ Sample.nl +:+ "package models" +:+ Sample.nl.

Definition with_long_source : world :=
  with_node Sample.w0 "/w/app/pkg/long.go" (File long_source).

(** The workspace name is taken by a file. *)
Definition blocked : world :=
  with_node Sample.w0 "/w/app/pkg/jsonschema-gen" (File "").

(** A workspace left behind by an earlier run. *)
Definition leftover : world :=
  with_node (with_node Sample.w0 "/w/app/pkg/jsonschema-gen" Directory)
    "/w/app/pkg/jsonschema-gen/old.txt" (File "old").

Definition tool : env := Sample.env_with (Exited 0 "{}" "").

(** A workspace left behind by an earlier run, with a directory [old]
    that holds a file. *)
Definition locked : world :=
  with_node
    (with_node (with_node Sample.w0 "/w/app/pkg/jsonschema-gen" Directory)
       "/w/app/pkg/jsonschema-gen/old" Directory)
    "/w/app/pkg/jsonschema-gen/old/keep.txt" (File "old").

(** The same tool chain in surroundings where that file may not be
    unlinked (its directory cannot be written to, say). *)
Definition guarded : env :=
  {| environ := environ tool;
     embedFS := embedFS tool;
     execute_template := execute_template tool;
     go_run := go_run tool;
     held := [("/w/app/pkg/jsonschema-gen/old/keep.txt", Os.EACCES)] |}.

Definition work_dir : list string := ["w"; "app"; "pkg"; "jsonschema-gen"].

(** The sample workspace when the copy starts: created, with the entry
    point rendered. *)
Definition rendered : world :=
  let tmpDir := "/w/app/pkg/jsonschema-gen" in
  let tmpMain := "/w/app/pkg/jsonschema-gen/main.go" in
  let i := describe_result "app/pkg/models.go" "User" Sample.w0 in
  let w1 := (Os.MkdirAll Sample.w0 tmpDir).1 in
  let w2 := (Os.Create w1 tmpMain).1 in
  (template_Execute tool tmpMain i w2).1.

(** U+00A0, the no-break space, and U+3000, the ideographic space, in
    UTF-8. *)
Definition nbsp : string := String "194" (String "160" "").
Definition ideographic_space : string :=
  String "227" (String "128" (String "128" "")).

(** A source file whose package clause is padded with a tab, a no-break
    space and an ideographic space. *)
Definition padded : world :=
  with_node Sample.w0 "/w/app/pkg/padded.go"
    (File ("package " +:+ String "009" "" +:+ nbsp +:+ "models" +:+
           ideographic_space +:+ " " +:+ Sample.nl)).

(** A module file whose lines end in a carriage return and a line feed,
    with a no-break space after the version. *)
Definition with_carriage_returns : world :=
  Sample.at_module
    ("module example.com/app" +:+ String "013" "" +:+ Sample.nl +:+
     "go 1.20" +:+ nbsp +:+ String "013" "" +:+ Sample.nl).

(** A directory named [go.mod] next to the target file, inside a module. *)
Definition inner_directory : world :=
  with_node Sample.w0 "/w/app/pkg/go.mod" Directory.

(** The sample tree without its [go.mod]. *)
Definition no_module : world :=
  set_files Sample.w0 (delete "/w/app/go.mod" (files Sample.w0)).

End Scenario.

(* ===================================================================== *)
(** * The cache of the extension: [lib/cache.js]

    An in-memory cache whose entries may expire.  JavaScript numbers are
    IEEE 754 doubles ([spec_float] at precision 53); keys are strings, as
    the documentation of the class asks; cached values are of any type
    [V] with the value [undefined] among them.  An argument that the code
    inspects before use ([ttl], [defaultTTL], the intervals) is [null],
    [undefined], a number, or a value of another type.

    The object lives in a host that provides [Date.now()], timers and
    [console.error]: the clock is the sequence of the values that the
    calls of [Date.now()] return, one after the other, and of the timers
    only those that the object itself has set are recorded. *)
(* ===================================================================== *)

From Stdlib Require Import ZArith SpecFloat.

Module Cache.

Definition number : Type := spec_float.

Definition prec : Z := 53.
Definition emax : Z := 1024.

(** The double denoted by an integer literal. *)
Definition num (z : Z) : number := binary_normalize prec emax z 0 false.

Definition add (x y : number) : number := SFadd prec emax x y.
Definition mul (x y : number) : number := SFmul prec emax x y.

(** [x < y]; false when one of them is NaN. *)
Definition lt (x y : number) : bool := SFltb x y.

Definition isNaN (x : number) : bool :=
  match x with
  | S754_nan => true
  | _ => false
  end.

(** [ToBoolean] of a number: zero and NaN are falsy. *)
Definition truthy (x : number) : bool :=
  match x with
  | S754_zero _ | S754_nan => false
  | _ => true
  end.

(** A value passed for a parameter that the code inspects. *)
Inductive jsarg : Type :=
| Null
| Undefined
| Number (x : number)
| Other.                            (* a string, a boolean, an object, ... *)

(** The [throw] statements, and the [TypeError] of a property access on
    [undefined]. *)
Inductive error : Type :=
| InvalidDefaultTTL
| InvalidTTL
| InvalidInterval
| TypeError.

Inductive completion (A : Type) : Type :=
| Normal (a : A)
| Throw (err : error).
Arguments Normal {A} a.
Arguments Throw {A} err.

Section Values.

Variable V : Type.
Variable undefined : V.

Record item : Type := {
  value : V;
  expiry : option number            (* [None] is [null] *)
}.

(** The private fields of the object and, of the host, what the object can
    see or change. *)
Record state : Type := {
  cache : list (string * item);     (* [#cache], in insertion order *)
  defaultTTL : option number;       (* [#defaultTTL], [None] being [null] *)
  cleanupTimer : option nat;        (* [#cleanupTimer]: a timer or nothing *)
  clock : nat -> number;            (* what the calls of [Date.now()] return *)
  reads : nat;                      (* the calls of [Date.now()] so far *)
  intervals : list (nat * number);  (* active timers: identity and delay *)
  fresh : nat;                      (* the identity of the next timer *)
  errors : nat                      (* the calls of [console.error] so far *)
}.

Definition with_cache (s : state) (c : list (string * item)) : state :=
  {| cache := c; defaultTTL := defaultTTL s; cleanupTimer := cleanupTimer s;
     clock := clock s; reads := reads s; intervals := intervals s;
     fresh := fresh s; errors := errors s |}.

Definition M (A : Type) : Type := state -> completion A * state.

Definition ret {A : Type} (a : A) : M A := fun s => (Normal a, s).

Definition throw {A : Type} (err : error) : M A := fun s => (Throw err, s).

Definition bind {A B : Type} (m : M A) (k : A -> M B) : M B :=
  fun s =>
    match m s with
    | (Normal a, s') => k a s'
    | (Throw err, s') => (Throw err, s')
    end.

(** ** The host *)

(** [Date.now()]. *)
Definition Date_now : M number :=
  fun s =>
    (Normal (clock s (reads s)),
     {| cache := cache s; defaultTTL := defaultTTL s;
        cleanupTimer := cleanupTimer s; clock := clock s;
        reads := S (reads s); intervals := intervals s;
        fresh := fresh s; errors := errors s |}).

(** [console.error(...)]. *)
Definition console_error : M unit :=
  fun s =>
    (Normal tt,
     {| cache := cache s; defaultTTL := defaultTTL s;
        cleanupTimer := cleanupTimer s; clock := clock s;
        reads := reads s; intervals := intervals s;
        fresh := fresh s; errors := S (errors s) |}).

(** [setInterval(callback, delay)]: a new timer. *)
Definition setInterval (delay : number) : M nat :=
  fun s =>
    (Normal (fresh s),
     {| cache := cache s; defaultTTL := defaultTTL s;
        cleanupTimer := cleanupTimer s; clock := clock s;
        reads := reads s; intervals := intervals s ++ [(fresh s, delay)];
        fresh := S (fresh s); errors := errors s |}).

(** [clearInterval(timer)]. *)
Definition clearInterval (timer : nat) : M unit :=
  fun s =>
    (Normal tt,
     {| cache := cache s; defaultTTL := defaultTTL s;
        cleanupTimer := cleanupTimer s; clock := clock s;
        reads := reads s;
        intervals :=
          List.filter (fun t : nat * number => negb (Nat.eqb t.1 timer))
                      (intervals s);
        fresh := fresh s; errors := errors s |}).

Definition set_cleanupTimer (t : option nat) : M unit :=
  fun s =>
    (Normal tt,
     {| cache := cache s; defaultTTL := defaultTTL s;
        cleanupTimer := t; clock := clock s;
        reads := reads s; intervals := intervals s;
        fresh := fresh s; errors := errors s |}).

(** ** [Map] *)

Fixpoint map_get (key : string) (m : list (string * item)) : option item :=
  match m with
  | [] => None
  | (k, it) :: rest => if String.eqb k key then Some it else map_get key rest
  end.

Definition map_has (key : string) (m : list (string * item)) : bool :=
  match map_get key m with
  | Some _ => true
  | None => false
  end.

(** [Map.prototype.set]: a key that is there keeps its place. *)
Fixpoint map_set (key : string) (it : item) (m : list (string * item))
  : list (string * item) :=
  match m with
  | [] => [(key, it)]
  | (k, old) :: rest =>
      if String.eqb k key then (k, it) :: rest
      else (k, old) :: map_set key it rest
  end.

Definition map_delete (key : string) (m : list (string * item))
  : list (string * item) :=
  List.filter (fun kv : string * item => negb (String.eqb kv.1 key)) m.

(** ** The methods *)

(** [#isPositiveNumber(val)]. *)
Definition isPositiveNumber (val : jsarg) : bool :=
  match val with
  | Number x => negb (isNaN x) && lt (num 0) x
  | _ => false
  end.

(** [#isExpired(key)]. *)
Definition isExpired (key : string) : M bool :=
  fun s =>
    match map_get key (cache s) with
    | None => (Throw TypeError, s)
    | Some it =>
        match expiry it with
        | None => (Normal false, s)
        | Some e => bind Date_now (fun now => ret (lt e now)) s
        end
    end.

(** [delete(key)]. *)
Definition delete (key : string) : M bool :=
  fun s =>
    (Normal (map_has key (cache s)), with_cache s (map_delete key (cache s))).

(** The [switch] of [set]: the expiry of the new entry. *)
Definition expiry_for (ttl : jsarg) : M (option number) :=
  match ttl with
  | Null => ret None
  | Undefined =>
      fun s =>
        match defaultTTL s with
        | Some d =>
            if truthy d
            then bind Date_now
                   (fun now => ret (Some (add now (mul d (num 1000))))) s
            else (Normal None, s)
        | None => (Normal None, s)
        end
  | Number x =>
      if isPositiveNumber ttl
      then bind Date_now (fun now => ret (Some (add now (mul x (num 1000)))))
      else throw InvalidTTL
  | Other => throw InvalidTTL
  end.

(** [set(key, val, ttl)]. *)
Definition set (key : string) (val : V) (ttl : jsarg) : M bool :=
  fun s =>
    match expiry_for ttl s with
    | (Normal e, s') =>
        (Normal true,
         with_cache s' (map_set key {| value := val; expiry := e |} (cache s')))
    | (Throw _, s') => bind console_error (fun _ => ret false) s'
    end.

(** [get(key)]. *)
Definition get (key : string) : M V :=
  fun s =>
    if negb (map_has key (cache s)) then (Normal undefined, s)
    else
      bind (isExpired key)
        (fun expired =>
           if expired then bind (delete key) (fun _ => ret undefined)
           else fun s' =>
                  match map_get key (cache s') with
                  | Some it => (Normal (value it), s')
                  | None => (Throw TypeError, s')
                  end) s.

(** [clear()]. *)
Definition clear : M unit := fun s => (Normal tt, with_cache s []).

(** [stopCleanup()]. *)
Definition stopCleanup : M bool :=
  fun s =>
    match cleanupTimer s with
    | Some timer =>
        bind (clearInterval timer)
          (fun _ => bind (set_cleanupTimer None) (fun _ => ret true)) s
    | None => (Normal false, s)
    end.

(** [dispose()]. *)
Definition dispose : M unit := bind stopCleanup (fun _ => clear).

(** [size()]. *)
Definition size : M nat := fun s => (Normal (List.length (cache s)), s).

(** [has(key)]. *)
Definition has (key : string) : M bool :=
  fun s =>
    if map_has key (cache s)
    then bind (isExpired key) (fun expired => ret (negb expired)) s
    else (Normal false, s).

(** The loop of [keys]. *)
Fixpoint keys_loop (ks : list string) (acc : list string) : M (list string) :=
  match ks with
  | [] => ret acc
  | key :: rest =>
      bind (has key)
        (fun live => keys_loop rest (if live then acc ++ [key] else acc))
  end.

(** [keys()]. *)
Definition keys : M (list string) :=
  fun s => keys_loop (map fst (cache s)) [] s.

(** The loop of [#cleanExpired]: the keys are those of the map when the
    loop starts; only the key just visited is ever deleted. *)
Fixpoint cleanExpired_loop (ks : list string) (removed : nat) : M nat :=
  match ks with
  | [] => ret removed
  | key :: rest =>
      bind (isExpired key)
        (fun expired =>
           if expired
           then bind (delete key) (fun _ => cleanExpired_loop rest (S removed))
           else cleanExpired_loop rest removed)
  end.

(** [#cleanExpired()]. *)
Definition cleanExpired : M nat :=
  fun s => cleanExpired_loop (map fst (cache s)) 0 s.

(** [startCleanup(interval = 60)]. *)
Definition startCleanup (interval : jsarg) : M unit :=
  let interval :=
    match interval with
    | Undefined => Number (num 60)
    | _ => interval
    end in
  match interval with
  | Number x =>
      if isPositiveNumber interval
      then bind stopCleanup
             (fun _ => bind (setInterval (mul x (num 1000)))
                         (fun timer => set_cleanupTimer (Some timer)))
      else throw InvalidInterval
  | _ => throw InvalidInterval
  end.

(** [new Cache(defaultTTL = null, cleanupInterval = 60)] in a host whose
    clock is [now]. *)
Definition constructor (now : nat -> number)
    (defaultTTL cleanupInterval : jsarg) : completion unit * state :=
  let defaultTTL :=
    match defaultTTL with
    | Undefined => Null
    | _ => defaultTTL
    end in
  let cleanupInterval :=
    match cleanupInterval with
    | Undefined => Number (num 60)
    | _ => cleanupInterval
    end in
  let blank d :=
    {| cache := []; defaultTTL := d; cleanupTimer := None;
       clock := now; reads := 0; intervals := []; fresh := 0; errors := 0 |} in
  match defaultTTL with
  | Null =>
      if isPositiveNumber cleanupInterval
      then startCleanup cleanupInterval (blank None)
      else (Normal tt, blank None)
  | Number x =>
      if isPositiveNumber defaultTTL
      then if isPositiveNumber cleanupInterval
           then startCleanup cleanupInterval (blank (Some x))
           else (Normal tt, blank (Some x))
      else (Throw InvalidDefaultTTL, blank None)
  | _ => (Throw InvalidDefaultTTL, blank None)
  end.

(** The callback of the timer runs when a timer of the object fires. *)
Definition fire (timer : nat) : M unit :=
  fun s =>
    if existsb (Nat.eqb timer) (map fst (intervals s))
    then bind cleanExpired (fun _ => ret tt) s
    else (Normal tt, s).

(** ** Notions used in the statements *)

(** The entry has not expired when the clock reads [t]. *)
Definition live_at (t : number) (it : item) : bool :=
  match expiry it with
  | None => true
  | Some e => negb (lt e t)
  end.

(** The clock reads [t] whenever it is asked. *)
Definition frozen (t : number) (s : state) : Prop :=
  forall n, clock s n = t.

(** No key occurs twice, as in a [Map]. *)
Definition unique_keys (s : state) : Prop := NoDup (map fst (cache s)).

(** Of the timers that the object has set, the one in [#cleanupTimer] is
    active and no other. *)
Definition one_timer (s : state) : Prop :=
  map fst (intervals s)
  = match cleanupTimer s with
    | Some timer => [timer]
    | None => []
    end /\
  Forall (fun timer => timer < fresh s) (map fst (intervals s)).

Definition wf (s : state) : Prop := unique_keys s /\ one_timer s.

(** The timers are as they were. *)
Definition same_timers (s s' : state) : Prop :=
  cleanupTimer s' = cleanupTimer s /\ intervals s' = intervals s /\
  fresh s' = fresh s.

(** A call of a public method, or the firing of a timer. *)
Inductive call : Type :=
| CallSet (key : string) (val : V) (ttl : jsarg)
| CallGet (key : string)
| CallDelete (key : string)
| CallClear
| CallDispose
| CallSize
| CallHas (key : string)
| CallKeys
| CallStartCleanup (interval : jsarg)
| CallStopCleanup
| Fire (timer : nat).

Definition thrown {A : Type} (r : completion A * state) : bool :=
  match r.1 with
  | Normal _ => false
  | Throw _ => true
  end.

(** The state after the call and whether the call threw. *)
Definition perform (c : call) (s : state) : bool * state :=
  match c with
  | CallSet key val ttl => let r := set key val ttl s in (thrown r, r.2)
  | CallGet key => let r := get key s in (thrown r, r.2)
  | CallDelete key => let r := delete key s in (thrown r, r.2)
  | CallClear => let r := clear s in (thrown r, r.2)
  | CallDispose => let r := dispose s in (thrown r, r.2)
  | CallSize => let r := size s in (thrown r, r.2)
  | CallHas key => let r := has key s in (thrown r, r.2)
  | CallKeys => let r := keys s in (thrown r, r.2)
  | CallStartCleanup interval => let r := startCleanup interval s in (thrown r, r.2)
  | CallStopCleanup => let r := stopCleanup s in (thrown r, r.2)
  | Fire timer => let r := fire timer s in (thrown r, r.2)
  end.

(** The state after a sequence of calls, exceptions being caught by the
    caller. *)
Fixpoint run (calls : list call) (s : state) : state :=
  match calls with
  | [] => s
  | c :: rest => run rest (perform c s).2
  end.

End Values.

Arguments value {V} i.
Arguments expiry {V} i.
Arguments cache {V} s.
Arguments defaultTTL {V} s.
Arguments cleanupTimer {V} s.
Arguments clock {V} s.
Arguments reads {V} s.
Arguments intervals {V} s.
Arguments fresh {V} s.
Arguments errors {V} s.
Arguments with_cache {V} s c.
Arguments ret {V A} a s.
Arguments throw {V A} err s.
Arguments bind {V A B} m k s.
Arguments Date_now {V} s.
Arguments console_error {V} s.
Arguments setInterval {V} delay s.
Arguments clearInterval {V} timer s.
Arguments set_cleanupTimer {V} t s.
Arguments map_get {V} key m.
Arguments map_has {V} key m.
Arguments map_set {V} key it m.
Arguments map_delete {V} key m.
Arguments isExpired {V} key s.
Arguments delete {V} key s.
Arguments expiry_for {V} ttl s.
Arguments set {V} key val ttl s.
Arguments get {V} undefined key s.
Arguments clear {V} s.
Arguments stopCleanup {V} s.
Arguments dispose {V} s.
Arguments size {V} s.
Arguments has {V} key s.
Arguments keys_loop {V} ks acc s.
Arguments keys {V} s.
Arguments cleanExpired_loop {V} ks removed s.
Arguments cleanExpired {V} s.
Arguments startCleanup {V} interval s.
Arguments fire {V} timer s.
Arguments live_at {V} t it.
Arguments frozen {V} t s.
Arguments unique_keys {V} s.
Arguments one_timer {V} s.
Arguments wf {V} s.
Arguments same_timers {V} s s'.
Arguments CallSet {V} key val ttl.
Arguments CallGet {V} key.
Arguments CallDelete {V} key.
Arguments CallClear {V}.
Arguments CallDispose {V}.
Arguments CallSize {V}.
Arguments CallHas {V} key.
Arguments CallKeys {V}.
Arguments CallStartCleanup {V} interval.
Arguments CallStopCleanup {V}.
Arguments Fire {V} timer.
Arguments thrown {V A} r.
Arguments perform {V} undefined c s.
Arguments run {V} undefined calls s.

End Cache.

(** ** Sample caches *)

Module CacheSample.

(** A clock that reads 1000 at the first call and 10000 afterwards. *)
Definition jumping (n : nat) : Cache.number :=
  match n with
  | 0 => Cache.num 1000
  | _ => Cache.num 10000
  end.

(** A clock that stands still at 1000. *)
Definition still (n : nat) : Cache.number := Cache.num 1000.

(** [new Cache()] with strings as values. *)
Definition fresh_cache (now : nat -> Cache.number) : Cache.state string :=
  (Cache.constructor string now Cache.Undefined Cache.Undefined).2.

(** One entry that lives for five seconds. *)
Definition short_lived (now : nat -> Cache.number) : Cache.state string :=
  (Cache.set "a" "x" (Cache.Number (Cache.num 5)) (fresh_cache now)).2.

(** An entry that has expired when the clock stands at 1000, between
    two that have not. *)
Definition mixed : Cache.state string :=
  Cache.with_cache (fresh_cache still)
    [("a", {| Cache.value := "x"; Cache.expiry := None |});
     ("b", {| Cache.value := "y"; Cache.expiry := Some (Cache.num 999) |});
     ("c", {| Cache.value := "z"; Cache.expiry := Some (Cache.num 1000) |})].

End CacheSample.

(* ===================================================================== *)
(** * The library functions on the examples of their documentation *)
(* ===================================================================== *)

Section LibraryExamples.

Example Split_examples :
  Split "a,b,c" "," = ["a"; "b"; "c"] /\
  Split "a man a plan a canal panama" "a "
  = [""; "man "; "plan "; "canal panama"] /\
  Split " xyz " "" = [" "; "x"; "y"; "z"; " "] /\
  Split "" "Bernardo O'Higgins" = [""].
Proof. repeat split; reflexivity. Qed.

Example ReplaceAll_examples :
  ReplaceAll "oink oink oink" "oink" "moo" = "moo moo moo" /\
  ReplaceAll "aaaa" "aa" "b" = "bb" /\
  ReplaceAll "aaa" "aa" "b" = "ba".
Proof. repeat split; reflexivity. Qed.

Example Trim_examples :
  TrimSpace (String "032" (String "009" (String "010"
    (" Hello, Gophers " +:+ String "010" (String "009" (String "013"
       (String "010" "")))))))
  = "Hello, Gophers" /\
  TrimSpace (Scenario.nbsp +:+ " a b" +:+ Scenario.ideographic_space +:+
             String "013" "")
  = "a b" /\
  TrimSpace (String "160" "" +:+ "ab " +:+ String "194" "")
  = String "160" "" +:+ "ab " +:+ String "194" "" /\
  TrimPrefix "module example.com/app" "module " = "example.com/app" /\
  TrimPrefix "go 1.20" "module " = "go 1.20".
Proof. repeat split; reflexivity. Qed.

Example Decode_examples :
  DecodeRuneInString "a" = (97%N, 1) /\
  DecodeRuneInString (String "226" (String "130" (String "172" "!")))
  = (8364%N, 3) /\
  DecodeRuneInString (String "226" (String "130" "")) = (RuneError, 1) /\
  DecodeRuneInString (String "172" "a") = (RuneError, 1) /\
  DecodeRuneInString "" = (RuneError, 0) /\
  DecodeLastRuneInString ("a" +:+ String "226" (String "130" (String "172" "")))
  = (8364%N, 3) /\
  DecodeLastRuneInString ("a" +:+ String "130" (String "172" ""))
  = (RuneError, 1) /\
  DecodeLastRuneInString "ab" = (98%N, 1) /\
  map IsSpace [32; 160; 133; 8232; 12288; 97; 8203; 65533]%N
  = [true; true; true; true; true; false; false; false].
Proof. repeat split; reflexivity. Qed.

Example splitPath_examples :
  Os.splitPath "/w/app/pkg" = ("/w/app", "pkg") /\
  Os.splitPath "/pkg" = ("/", "pkg") /\
  Os.splitPath "pkg" = (".", "pkg") /\
  Os.splitPath "a/b//" = ("a", "b") /\
  Os.splitPath "//a" = ("/", "a") /\
  Os.splitPath "/" = (".", "/") /\
  Os.splitPath "" = (".", "").
Proof. repeat split; reflexivity. Qed.

Example HasSuffix_examples :
  HasSuffix "Amigo" "go" = true /\ HasSuffix "Amigo" "O" = false /\
  HasSuffix "Amigo" "Ami" = false /\ HasSuffix "Amigo" "" = true /\
  HasSuffix "go" ".go" = false.
Proof. repeat split; reflexivity. Qed.

Example ltb_examples :
  ltb "" "1.18" = true /\ ltb "1.17" "1.18" = true /\
  ltb "1.18" "1.18" = false /\ ltb "1.18" "1.18.1" = true /\
  ltb "1.20" "1.18" = false /\ ltb "1.9" "1.18" = false /\
  ltb "1.100" "1.18" = true.
Proof. repeat split; reflexivity. Qed.

Example Clean_examples :
  map Filepath.Clean
    ["a/c"; "a//c"; "a/c/."; "a/c/b/.."; "/../a/c"; "/../a/b/../././/c"; "";
     "abc/def/../../.."; "../../abc"; "/"; "abc/"]
  = ["a/c"; "a/c"; "a/c"; "a/c"; "/a/c"; "/a/c"; ".";
     ".."; "../../abc"; "/"; "abc"].
Proof. vm_compute. reflexivity. Qed.

Example Dir_examples :
  map Filepath.Dir
    ["/foo/bar/baz.js"; "/foo/bar/baz"; "/foo/bar/baz/"; "/dirty//path///";
     "dev.txt"; "../todo.txt"; ".."; "."; "/"; ""]
  = ["/foo/bar"; "/foo/bar"; "/foo/bar/baz"; "/dirty/path";
     "."; ".."; "."; "."; "/"; "."].
Proof. vm_compute. reflexivity. Qed.

Example Base_examples :
  map Filepath.Base
    ["/foo/bar/baz.js"; "/foo/bar/baz"; "/foo/bar/baz/"; "dev.txt";
     "../todo.txt"; ".."; "."; "/"; ""]
  = ["baz.js"; "baz"; "baz"; "dev.txt"; "todo.txt"; ".."; "."; "/"; "."].
Proof. vm_compute. reflexivity. Qed.

Example Join_examples :
  map Filepath.Join
    [["a"; "b"; "c"]; ["a"; "b/c"]; ["a/b"; "c"]; ["a/b"; "/c"];
     ["a/b"; "../../../xyz"]; [""; ""]; [""; "a"]]
  = ["a/b/c"; "a/b/c"; "a/b/c"; "a/b/c"; "../xyz"; ""; "a"].
Proof. vm_compute. reflexivity. Qed.

Example Rel_examples :
  Filepath.Rel "/a" "/a/b/c" = Ok "b/c" /\
  Filepath.Rel "/a" "/b/c" = Ok "../b/c" /\
  Filepath.Rel "/a" "./b/c"
  = Err "Rel: can't make ./b/c relative to /a" /\
  Filepath.Rel "/a/b" "/a/b" = Ok "." /\
  Filepath.Rel "a/b/c" "a/c/d" = Ok "../../c/d".
Proof. vm_compute. repeat split; reflexivity. Qed.

End LibraryExamples.

(* ===================================================================== *)
(** * Facts about byte strings *)
(* ===================================================================== *)

Section StringFacts.

Lemma str_app_nil_l (s : string) : "" +:+ s = s.
Proof. reflexivity. Qed.

Lemma str_app_cons (c : ascii) (s t : string) :
  String c s +:+ t = String c (s +:+ t).
Proof. reflexivity. Qed.

Lemma str_app_nil_r (s : string) : s +:+ "" = s.
Proof. induction s as [|c s IH]; [reflexivity|]. rewrite str_app_cons, IH. reflexivity. Qed.

Lemma str_app_assoc (a b c : string) : (a +:+ b) +:+ c = a +:+ (b +:+ c).
Proof.
  induction a as [|x a IH]; [reflexivity|].
  rewrite !str_app_cons, IH. reflexivity.
Qed.

Lemma str_length_app (a b : string) :
  String.length (a +:+ b) = String.length a + String.length b.
Proof.
  induction a as [|x a IH]; [reflexivity|].
  rewrite str_app_cons. simpl. rewrite IH. reflexivity.
Qed.

Lemma is_empty_true (s : string) : is_empty s = true <-> s = "".
Proof. destruct s; simpl; split; congruence. Qed.

Lemma is_empty_false (s : string) : is_empty s = false <-> s <> "".
Proof. destruct s; simpl; split; congruence. Qed.

Lemma HasPrefix_length (s p : string) :
  HasPrefix s p = true -> String.length p <= String.length s.
Proof.
  revert s. induction p as [|c p IH]; intros s H; simpl in *; [lia|].
  destruct s as [|x s]; [discriminate|].
  destruct (Ascii.eqb x c); [|discriminate].
  apply IH in H. simpl. lia.
Qed.

Lemma split_on_nonempty (c : ascii) (s : string) : split_on c s <> [].
Proof.
  induction s as [|x s IH]; simpl; [discriminate|].
  destruct (Ascii.eqb x c); [discriminate|].
  destruct (split_on c s); discriminate.
Qed.

(** No piece of a split contains the separator. *)
Lemma split_on_has_byte (c : ascii) (s x : string) :
  x ∈ split_on c s -> has_byte c x = false.
Proof.
  revert x. induction s as [|a s IH]; intros x Hx; simpl in Hx.
  - apply list_elem_of_singleton in Hx. subst. reflexivity.
  - destruct (Ascii.eqb a c) eqn:Hac.
    + apply elem_of_cons in Hx as [->|Hx]; [reflexivity|auto].
    + destruct (split_on c s) as [|h t] eqn:Hsp.
      * exfalso. eapply split_on_nonempty; eauto.
      * apply elem_of_cons in Hx as [->|Hx].
        -- simpl. rewrite Hac. apply IH. left.
        -- apply IH. right. exact Hx.
Qed.

Lemma split_on_app_sep (c : ascii) (s : string) :
  split_on c (s +:+ String c "") = split_on c s ++ [""].
Proof.
  induction s as [|x s IH].
  - simpl. rewrite Ascii.eqb_refl. reflexivity.
  - rewrite str_app_cons. simpl. destruct (Ascii.eqb x c).
    + rewrite IH. reflexivity.
    + rewrite IH. destruct (split_on c s) as [|h t] eqn:Hsp.
      * exfalso. eapply split_on_nonempty; eauto.
      * reflexivity.
Qed.

Lemma weight_app (l1 l2 : list string) :
  weight (l1 ++ l2) = weight l1 + weight l2.
Proof. induction l1 as [|e l1 IH]; simpl; [reflexivity|]. rewrite IH. lia. Qed.

Lemma weight_rev (l : list string) : weight (rev l) = weight l.
Proof.
  induction l as [|e l IH]; simpl; [reflexivity|].
  rewrite weight_app, IH. simpl. lia.
Qed.

Lemma weight_split_on (c : ascii) (s : string) :
  weight (split_on c s) = S (String.length s).
Proof.
  induction s as [|x s IH]; simpl; [reflexivity|].
  destruct (Ascii.eqb x c).
  - simpl. rewrite IH. reflexivity.
  - destruct (split_on c s) as [|h t] eqn:Hsp.
    + simpl in IH. discriminate.
    + simpl in *. lia.
Qed.

Lemma length_Join_sep (l : list string) (sep : string) :
  String.length sep = 1 ->
  String.length (GoStrings.Join l sep) = weight l - 1.
Proof.
  intros Hsep. induction l as [|e l IH]; [reflexivity|].
  destruct l as [|e' l'].
  - simpl. lia.
  - change (GoStrings.Join (e :: e' :: l') sep)
      with (e +:+ sep +:+ GoStrings.Join (e' :: l') sep).
    rewrite !str_length_app, IH, Hsep. simpl. lia.
Qed.

End StringFacts.

(* ===================================================================== *)
(** * Facts about paths *)
(* ===================================================================== *)

Section PathFacts.
Import Filepath.

Lemma clean_step_weight (rooted : bool) (out : list string) (elem : string) :
  weight (clean_step rooted out elem) <= weight out + S (String.length elem).
Proof.
  unfold clean_step.
  destruct (is_empty elem || String.eqb elem "."); [lia|].
  destruct (String.eqb elem "..").
  - destruct out as [|top rest].
    + destruct rooted; simpl; lia.
    + destruct (String.eqb top ".."); simpl; lia.
  - simpl. lia.
Qed.

Lemma clean_fold_weight (rooted : bool) (l out : list string) :
  weight (fold_left (clean_step rooted) l out) <= weight out + weight l.
Proof.
  revert out. induction l as [|e l IH]; intros out; simpl; [lia|].
  etransitivity; [apply IH|].
  pose proof (clean_step_weight rooted out e). lia.
Qed.

Lemma split_on_rooted (s : string) :
  IsAbs s = true ->
  exists s', s = String Separator s' /\
             split_on Separator s = "" :: split_on Separator s'.
Proof.
  unfold IsAbs. destruct s as [|c s]; simpl; [discriminate|].
  destruct (Ascii.eqb c "/") eqn:Hc; [|discriminate].
  intros _. apply Ascii.eqb_eq in Hc. subst c. exists s. split; reflexivity.
Qed.

(** Cleaning never makes a non-empty path longer. *)
Lemma Clean_length (path : string) :
  path <> "" -> String.length (Clean path) <= String.length path.
Proof.
  intros Hne. unfold Clean.
  destruct (is_empty path) eqn:He; [apply is_empty_true in He; contradiction|].
  assert (Hlen : 1 <= String.length path) by (destruct path; simpl; [congruence|lia]).
  destruct (IsAbs path) eqn:Habs.
  - destruct (split_on_rooted path Habs) as (s' & -> & Hsp).
    unfold clean_elems. rewrite Hsp. simpl fold_left.
    change (clean_step true [] "") with (@nil string).
    pose proof (clean_fold_weight true (split_on Separator s') []) as Hw.
    rewrite weight_split_on in Hw. simpl in Hw.
    rewrite str_length_app, length_Join_sep by reflexivity.
    rewrite weight_rev. simpl. lia.
  - unfold clean_elems.
    pose proof (clean_fold_weight false (split_on Separator path) []) as Hw.
    rewrite weight_split_on in Hw. simpl in Hw.
    destruct (is_empty (GoStrings.Join _ _)); [simpl; lia|].
    rewrite length_Join_sep by reflexivity.
    rewrite weight_rev. lia.
Qed.

(** A trailing separator does not change the cleaned path. *)
Lemma Clean_trailing_sep (y : string) :
  y <> "" -> Clean (y +:+ "/") = Clean y.
Proof.
  intros Hne. destruct y as [|c y]; [congruence|].
  unfold Clean, clean_elems.
  change (String c y +:+ "/") with (String c (y +:+ "/")).
  change (is_empty (String c (y +:+ "/"))) with false.
  change (is_empty (String c y)) with false. cbv iota.
  change (IsAbs (String c (y +:+ "/"))) with (IsAbs (String c y)).
  change (String c (y +:+ "/")) with (String c y +:+ String Separator "").
  rewrite split_on_app_sep, fold_left_app. simpl fold_left at 1.
  reflexivity.
Qed.

Lemma upto_last_sep_cases (s : string) :
  upto_last_sep s = "" \/
  exists y, upto_last_sep s = y +:+ "/" /\ String.length y < String.length s.
Proof.
  induction s as [|c s IH]; [left; reflexivity|].
  simpl upto_last_sep.
  destruct (Ascii.eqb c Separator || has_sep s) eqn:Hs; [|left; reflexivity].
  right. destruct IH as [IH | (y & Hy & Hlen)].
  - rewrite IH. destruct (has_sep s) eqn:Hhs.
    + exfalso. clear -IH Hhs. destruct s as [|x s]; simpl in *; [discriminate|].
      rewrite Hhs in IH. discriminate.
    + rewrite orb_false_r in Hs. apply Ascii.eqb_eq in Hs. subst c.
      exists "". split; [reflexivity | simpl; lia].
  - rewrite Hy. exists (String c y). split; [reflexivity | simpl; lia].
Qed.

Lemma upto_last_sep_rooted (s : string) :
  IsAbs s = true -> upto_last_sep s <> "".
Proof.
  intros H. destruct (split_on_rooted s H) as (s' & -> & _).
  simpl. discriminate.
Qed.

(** One step to the parent directory: the path stays, gets strictly
    shorter, or becomes [.] (when it has no separator at all). *)
Lemma Dir_cases (p : string) :
  Dir p = p \/ String.length (Dir p) < String.length p \/
  (Dir p = "." /\ upto_last_sep p = "").
Proof.
  unfold Dir. destruct (upto_last_sep_cases p) as [H | (y & Hy & Hlen)].
  - right. right. rewrite H. split; reflexivity.
  - assert (Hd : Clean (upto_last_sep p) = Clean (y +:+ "/"))
      by (rewrite Hy; reflexivity).
    rewrite Hd. clear Hd. destruct y as [|c y].
    + change (Clean ("" +:+ "/")) with "/".
      change ("" +:+ "/") with "/" in Hy.
      destruct p as [|a [|b p]].
      * simpl in Hlen. lia.
      * left. simpl in Hy. destruct (Ascii.eqb a Separator); simpl in Hy.
        -- symmetry. exact Hy.
        -- discriminate.
      * right. left. simpl. lia.
    + right. left. rewrite Clean_trailing_sep by discriminate.
      pose proof (Clean_length (String c y) ltac:(discriminate)). lia.
Qed.

Lemma Dir_dot : Dir "." = ".".
Proof. reflexivity. Qed.

(** For a rooted path the parent is strictly shorter, except at the root
    [/], which is its own parent. *)
Lemma Dir_rooted (p : string) :
  IsAbs p = true ->
  (p = "/" /\ Dir p = "/") \/ String.length (Dir p) < String.length p.
Proof.
  intros Habs. pose proof (upto_last_sep_rooted p Habs) as Hne.
  destruct (Dir_cases p) as [Heq | [Hlt | [_ He]]];
    [|right; exact Hlt|contradiction].
  unfold Dir in *.
  destruct (upto_last_sep_cases p) as [H | (y & Hy & Hlen)]; [contradiction|].
  assert (Hd : Clean (upto_last_sep p) = Clean (y +:+ "/"))
    by (rewrite Hy; reflexivity).
  rewrite Hd in *. clear Hd. destruct y as [|c y].
  - left. change (Clean ("" +:+ "/")) with "/" in *. subst p.
    split; reflexivity.
  - right. rewrite Clean_trailing_sep by discriminate.
    pose proof (Clean_length (String c y) ltac:(discriminate)). lia.
Qed.

End PathFacts.

(* ===================================================================== *)
(** * The search for the module root *)
(* ===================================================================== *)

Section FindGoMod.
Import Filepath.

Variable w : world.

Lemma findGoMod_fuel_dot (fuel : nat) :
  1 <= fuel -> exists r, findGoMod_fuel fuel w "." = Some r.
Proof.
  destruct fuel as [|n]; [lia|]. intros _. simpl.
  destruct (Os.Stat w _); eauto.
Qed.

(** Two rounds more than the path has bytes always reach an answer. *)
Lemma findGoMod_fuel_enough (fuel : nat) :
  forall dir, S (S (String.length dir)) <= fuel ->
  exists r, findGoMod_fuel fuel w dir = Some r.
Proof.
  induction fuel as [|n IH]; intros dir Hfuel; [lia|].
  simpl. destruct (Os.Stat w _); [|eauto].
  destruct (String.eqb (Dir dir) dir) eqn:Heq; [eauto|].
  apply String.eqb_neq in Heq.
  destruct (Dir_cases dir) as [Hsame | [Hlt | [Hdot _]]].
  - contradiction.
  - apply IH. lia.
  - rewrite Hdot. apply findGoMod_fuel_dot. lia.
Qed.

Lemma findGoMod_fuel_mono (n : nat) :
  forall dir r, findGoMod_fuel n w dir = Some r ->
  forall m, n <= m -> findGoMod_fuel m w dir = Some r.
Proof.
  induction n as [|n IH]; intros dir r H m Hm; [discriminate|].
  destruct m as [|m]; [lia|]. simpl in *.
  destruct (Os.Stat w _); [|exact H].
  destruct (String.eqb (Dir dir) dir); [exact H|].
  apply IH; [exact H | lia].
Qed.

(** An answer is the not-found signal or a directory whose [go.mod] can be
    stat'ed. *)
Lemma findGoMod_fuel_sound (n : nat) :
  forall dir r, findGoMod_fuel n w dir = Some r ->
  r = "" \/ Os.Stat w (Join [r; "go.mod"]) = None.
Proof.
  induction n as [|n IH]; intros dir r H; [discriminate|].
  simpl in H. destruct (Os.Stat w (Join [dir; "go.mod"])) eqn:Hst.
  - destruct (String.eqb (Dir dir) dir).
    + left. congruence.
    + eapply IH. exact H.
  - right. inversion H. subst. exact Hst.
Qed.

Lemma findGoMod_spec (dir : string) :
  findGoMod_fuel (S (S (String.length dir))) w dir = Some (findGoMod w dir).
Proof.
  unfold findGoMod.
  destruct (findGoMod_fuel_enough (S (S (String.length dir))) dir) as [r Hr];
    [lia|].
  rewrite Hr. reflexivity.
Qed.

End FindGoMod.

(* ===================================================================== *)
(** * What the file operations leave alone *)
(* ===================================================================== *)

Section Frame.

Lemma same_kind_refl (n : node) : same_kind n n.
Proof. destruct n; exact I. Qed.

Lemma same_kind_trans (a b c : node) :
  same_kind a b -> same_kind b c -> same_kind a c.
Proof. destruct a, b, c; simpl; tauto. Qed.

Lemma persists_refl (fs : gmap string node) : persists fs fs.
Proof. intros k n H. exists n. split; [exact H | apply same_kind_refl]. Qed.

Lemma persists_trans (a b c : gmap string node) :
  persists a b -> persists b c -> persists a c.
Proof.
  intros Hab Hbc k n H. destruct (Hab k n H) as (n1 & H1 & K1).
  destruct (Hbc k n1 H1) as (n2 & H2 & K2).
  exists n2. split; [exact H2 | eapply same_kind_trans; eauto].
Qed.

Lemma persists_insert_fresh (fs : gmap string node) (k : string) (n : node) :
  fs !! k = None -> persists fs (<[k := n]> fs).
Proof.
  intros Hk k' n' H. exists n'. split; [|apply same_kind_refl].
  rewrite lookup_insert_ne; [exact H | congruence].
Qed.

Lemma persists_insert_file (fs : gmap string node) (k old data : string) :
  fs !! k = Some (File old) -> persists fs (<[k := File data]> fs).
Proof.
  intros Hk k' n' H. destruct (decide (k = k')) as [<-|Hne].
  - rewrite lookup_insert_eq. exists (File data). split; [reflexivity|].
    rewrite Hk in H. inversion H. exact I.
  - rewrite lookup_insert_ne by exact Hne. exists n'.
    split; [exact H | apply same_kind_refl].
Qed.

Lemma quiet_refl (w : world) : quiet w w.
Proof. repeat split. apply persists_refl. Qed.

Lemma quiet_trans (a b c : world) : quiet a b -> quiet b c -> quiet a c.
Proof.
  intros (C1 & T1 & P1) (C2 & T2 & P2). repeat split; try congruence.
  eapply persists_trans; eauto.
Qed.

Lemma quiet_key (w w' : world) (name : string) :
  quiet w w' -> Os.key w' name = Os.key w name.
Proof. intros (C & _ & _). unfold Os.key. rewrite C. reflexivity. Qed.

Lemma quiet_directory (w w' : world) (k : string) :
  quiet w w' -> files w !! k = Some Directory -> files w' !! k = Some Directory.
Proof.
  intros (_ & _ & P) H. destruct (P k _ H) as (n' & Hn & K).
  destruct n'; [contradiction | exact Hn].
Qed.

Lemma quiet_set_files (w : world) (fs : gmap string node) :
  persists (files w) fs -> quiet w (set_files w fs).
Proof. intros P. repeat split. exact P. Qed.

Lemma WriteFile_quiet (w : world) (name data : string) :
  quiet w (Os.WriteFile w name data).1.
Proof.
  unfold Os.WriteFile.
  destruct (files w !! Os.key w name) as [[old|]|] eqn:Hk; simpl.
  - apply quiet_set_files. eapply persists_insert_file. exact Hk.
  - apply quiet_refl.
  - destruct (files w !! Filepath.Dir (Os.key w name)) as [[?|]|]; simpl;
      try apply quiet_refl.
    apply quiet_set_files. apply persists_insert_fresh. exact Hk.
Qed.

Lemma MkdirAll_fuel_persists (fuel : nat) :
  forall fs k, persists fs (Os.MkdirAll_fuel fuel fs k).1.
Proof.
  induction fuel as [|n IH]; intros fs k; simpl.
  - destruct (fs !! k) as [[?|]|]; simpl; apply persists_refl.
  - destruct (fs !! k) as [[?|]|] eqn:Hk; simpl; try apply persists_refl.
    destruct (String.eqb (Filepath.Dir k) k).
    + simpl. apply persists_insert_fresh. exact Hk.
    + specialize (IH fs (Filepath.Dir k)).
      destruct (Os.MkdirAll_fuel n fs (Filepath.Dir k)) as [fs' [e|]]; simpl in *.
      * exact IH.
      * intros k' n' H. destruct (IH k' n' H) as (n1 & H1 & K1).
        destruct (decide (k = k')) as [<-|Hne]; [congruence|].
        exists n1. rewrite lookup_insert_ne by exact Hne. split; assumption.
Qed.

(** A successful [MkdirAll] leaves a directory at its path. *)
Lemma MkdirAll_fuel_ok (fuel : nat) (fs fs' : gmap string node) (k : string) :
  Os.MkdirAll_fuel fuel fs k = (fs', None) -> fs' !! k = Some Directory.
Proof.
  destruct fuel as [|n]; simpl.
  - destruct (fs !! k) as [[?|]|] eqn:Hk; intros H; inversion H; subst; auto.
  - destruct (fs !! k) as [[?|]|] eqn:Hk; intros H; try (inversion H; subst; auto; fail).
    destruct (String.eqb (Filepath.Dir k) k).
    + inversion H. apply lookup_insert_eq.
    + destruct (Os.MkdirAll_fuel n fs (Filepath.Dir k)) as [fs1 [e|]];
        inversion H. apply lookup_insert_eq.
Qed.

Lemma MkdirAll_fuel_dot (fs : gmap string node) (n : nat) :
  Os.MkdirAll_fuel (S n) fs "." = Os.MkdirAll_fuel 1 fs ".".
Proof. simpl. destruct (fs !! ".") as [[?|]|]; reflexivity. Qed.

Lemma MkdirAll_fuel_S (fuel : nat) (fs : gmap string node) (k : string) :
  Os.MkdirAll_fuel (S fuel) fs k
  = match fs !! k with
    | Some Directory => (fs, None)
    | Some (File _) => (fs, Some (Os.PathError "mkdir" k Os.ENOTDIR))
    | None =>
        if String.eqb (Filepath.Dir k) k then (<[k := Directory]> fs, None)
        else
          match Os.MkdirAll_fuel fuel fs (Filepath.Dir k) with
          | (fs', None) => (<[k := Directory]> fs', None)
          | (fs', Some e) => (fs', Some e)
          end
    end.
Proof. reflexivity. Qed.

(** The rounds granted to [MkdirAll] are never used up: with two more
    than the path has bytes, one more changes nothing. *)
Lemma MkdirAll_fuel_stable (fuel : nat) :
  forall fs k, S (S (String.length k)) <= fuel ->
  Os.MkdirAll_fuel (S fuel) fs k = Os.MkdirAll_fuel fuel fs k.
Proof.
  induction fuel as [|n IH]; intros fs k Hfuel; [lia|].
  rewrite (MkdirAll_fuel_S (S n) fs k), (MkdirAll_fuel_S n fs k).
  destruct (fs !! k) as [[?|]|]; try reflexivity.
  destruct (String.eqb (Filepath.Dir k) k) eqn:Heq; [reflexivity|].
  apply String.eqb_neq in Heq.
  destruct (Dir_cases k) as [Hsame | [Hlt | [Hdot _]]].
  - contradiction.
  - rewrite IH by lia. reflexivity.
  - rewrite Hdot. destruct n as [|n]; [lia|].
    rewrite (MkdirAll_fuel_dot fs (S n)), (MkdirAll_fuel_dot fs n).
    reflexivity.
Qed.

(** After a successful [os.Create] the name is that of a file. *)
Lemma Create_ok (w w' : world) (name : string) :
  Os.Create w name = (w', None) ->
  files w' !! Os.key w name = Some (File "").
Proof.
  unfold Os.Create, Os.WriteFile.
  destruct (files w !! Os.key w name) as [[old|]|].
  - intros H. inversion H. simpl. apply lookup_insert_eq.
  - discriminate.
  - destruct (files w !! Filepath.Dir (Os.key w name)) as [[?|]|];
      try discriminate.
    intros H. inversion H. simpl. apply lookup_insert_eq.
Qed.

Lemma MkdirAll_quiet (w : world) (path : string) :
  quiet w (Os.MkdirAll w path).1.
Proof.
  unfold Os.MkdirAll.
  pose proof (MkdirAll_fuel_persists
    (S (S (String.length (Os.key w path)))) (files w) (Os.key w path)) as P.
  destruct (Os.MkdirAll_fuel _ _ _) as [fs err]. simpl in *.
  apply quiet_set_files. exact P.
Qed.

Lemma MkdirAll_ok (w w' : world) (path : string) :
  Os.MkdirAll w path = (w', None) ->
  files w' !! Os.key w path = Some Directory.
Proof.
  unfold Os.MkdirAll.
  destruct (Os.MkdirAll_fuel _ _ _) as [fs err] eqn:Hm.
  intros H. inversion H. subst. simpl. eapply MkdirAll_fuel_ok. exact Hm.
Qed.

Lemma visit_quiet {fn : string -> node -> world -> world * option string}
    (Hfn : forall p n w, quiet w (fn p n w).1) (l : list (string * node)) :
  forall w, quiet w (Walk.visit fn l w).1.
Proof.
  induction l as [|[p n] l IH]; intros w; simpl; [apply quiet_refl|].
  specialize (Hfn p n w). destruct (fn p n w) as [w1 [e|]]; simpl in *.
  - exact Hfn.
  - eapply quiet_trans; [exact Hfn | apply IH].
Qed.

End Frame.

Section Stages.

Lemma template_Execute_quiet (e : env) (f : string) (i : importInfo) (w : world) :
  quiet w (template_Execute e f i w).1.
Proof.
  unfold template_Execute. destruct (execute_template e i) as [text err].
  destruct (files w !! Os.key w f) as [[old|]|] eqn:Hk; simpl;
    try apply quiet_refl.
  apply quiet_set_files. eapply persists_insert_file. exact Hk.
Qed.

Lemma copyDeps_quiet (e : env) (w : world) (dst : string) :
  quiet w (copyDeps e w dst).1.
Proof.
  unfold copyDeps. apply visit_quiet. intros p nd w1. unfold copyDeps_fn.
  destruct nd as [data|].
  - destruct (embedFS e !! p) as [[d|]|]; simpl; try apply quiet_refl.
    apply WriteFile_quiet.
  - apply MkdirAll_quiet.
Qed.

Lemma renameImports_quiet (w : world) (root prefix : string) :
  quiet w (renameImports w root prefix).1.
Proof.
  unfold renameImports. destruct (Os.ReadFile w _); [|apply quiet_refl].
  unfold Walk.Walk. destruct (files w !! Os.key w root); [|apply quiet_refl].
  apply visit_quiet. intros p nd w1. unfold renameImports_fn.
  destruct nd as [data|]; [|apply quiet_refl].
  destruct (HasSuffix p ".go"); [|apply quiet_refl].
  destruct (Os.ReadFile w1 p); [|apply quiet_refl].
  apply WriteFile_quiet.
Qed.

(** [describe] changes nothing: it returns in the world it started in, with
    the directory of the target file, or fails there with one message. *)
Lemma describe_cases (filePath symbolName : string) (w : world) :
  (exists i, describe filePath symbolName w
             = (Return (i, Filepath.Dir (Filepath.Abs (cwd w) filePath)), w)) \/
  (exists msg, describe filePath symbolName w
               = (Exit 1, log w (StderrJSON {| Error := msg |}))).
Proof.
  unfold describe, bind, read, orFail, fail, emit, exit, ret. simpl.
  destruct (parsePkgName w _); [|right; eauto].
  destruct (is_empty (findGoMod w _)); [right; eauto|].
  destruct (parseGoMod w _) as [[m g]|]; [|right; eauto]. simpl.
  destruct (is_empty m); [right; eauto|].
  destruct (ltb g "1.18"); [right; eauto|].
  destruct (Filepath.Rel _ _); [|right; eauto].
  left. eauto.
Qed.

(** The preparation of the workspace is quiet up to the point where it
    fails or ends, also when counted from the world in which [MkdirAll]
    has just succeeded. *)
Lemma prepare_cases (e : env) (i : importInfo) (tmpDir tmpMain : string)
    (w : world) :
  exists w1, quiet w w1 /\
    ((Os.MkdirAll w tmpDir).2 = None -> quiet (Os.MkdirAll w tmpDir).1 w1) /\
    ((prepare e i tmpDir tmpMain w = (Return tt, w1) /\
      (Os.MkdirAll w tmpDir).2 = None) \/
     (exists msg, prepare e i tmpDir tmpMain w
                  = (Exit 1, log w1 (StderrJSON {| Error := msg |})))).
Proof.
  unfold prepare, bind, effect, must, fail, emit, exit, ret.
  pose proof (MkdirAll_quiet w tmpDir) as Q1.
  destruct (Os.MkdirAll w tmpDir) as [w1 [e1|]]; simpl in *.
  { exists w1. split; [exact Q1|]. split; [discriminate|]. right. eauto. }
  pose proof (WriteFile_quiet w1 tmpMain "") as Q2.
  fold (Os.Create w1 tmpMain) in Q2.
  destruct (Os.Create w1 tmpMain) as [w2 [e2|]]; simpl in *.
  { exists w2. split; [eapply quiet_trans; eauto|].
    split; [|right; eauto]. intros _. exact Q2. }
  pose proof (template_Execute_quiet e tmpMain i w2) as Q3.
  destruct (template_Execute e tmpMain i w2) as [w3 [e3|]]; simpl in *.
  { exists w3. split; [eauto using quiet_trans|].
    split; [|right; eauto]. intros _. eauto using quiet_trans. }
  pose proof (copyDeps_quiet e w3 tmpDir) as Q4.
  destruct (copyDeps e w3 tmpDir) as [w4 [e4|]]; simpl in *.
  { exists w4. split; [eauto using quiet_trans|].
    split; [|right; eauto]. intros _. eauto using quiet_trans. }
  pose proof (renameImports_quiet w4 tmpDir
    (Filepath.Join [ImportName i; tmpDirName; vendorDirName])) as Q5.
  destruct (renameImports w4 tmpDir _) as [w5 [e5|]]; simpl in *.
  { exists w5. split; [eauto using quiet_trans|].
    split; [|right; eauto]. intros _. eauto using quiet_trans. }
  exists w5. split; [eauto using quiet_trans|].
  split; [|left; eauto]. intros _. eauto using quiet_trans.
Qed.

(** A preparation that succeeds ends with the rewriter, called on the
    workspace with the import path joined to [jsonschema-gen] and
    [vendored] as prefix. *)
Lemma prepare_ends_with_renameImports (e : env) (i : importInfo)
    (tmpDir tmpMain : string) (w w' : world) :
  prepare e i tmpDir tmpMain w = (Return tt, w') ->
  exists w4,
    quiet w w4 /\
    renameImports w4 tmpDir
      (Filepath.Join [ImportName i; tmpDirName; vendorDirName]) = (w', None).
Proof.
  unfold prepare, bind, effect, must, fail, emit, exit, ret.
  pose proof (MkdirAll_quiet w tmpDir) as Q1.
  destruct (Os.MkdirAll w tmpDir) as [w1 [e1|]]; simpl in *; [discriminate|].
  pose proof (WriteFile_quiet w1 tmpMain "") as Q2.
  fold (Os.Create w1 tmpMain) in Q2.
  destruct (Os.Create w1 tmpMain) as [w2 [e2|]]; simpl in *; [discriminate|].
  pose proof (template_Execute_quiet e tmpMain i w2) as Q3.
  destruct (template_Execute e tmpMain i w2) as [w3 [e3|]]; simpl in *;
    [discriminate|].
  pose proof (copyDeps_quiet e w3 tmpDir) as Q4.
  destruct (copyDeps e w3 tmpDir) as [w4 [e4|]]; simpl in *; [discriminate|].
  destruct (renameImports w4 tmpDir _) as [w5 [e5|]] eqn:Hr; simpl in *;
    [discriminate|].
  intros H. inversion H. subst. exists w4. split; [|exact Hr].
  eauto using quiet_trans.
Qed.

(** What the last stage does, by the error of [cmd.Run()]. *)
Lemma execute_cases (e : env) (tmpDir tmpMain : string) (w : world) :
  let c := go_command e tmpDir tmpMain in
  let r := go_run e c (files w) in
  let rm := Os.RemoveAll (held e) (log w (Spawned c)) tmpDir in
  execute e tmpDir tmpMain w
  = match run_error r with
    | Some msg =>
        (Exit 1, log (log w (Spawned c))
                     (StderrJSON {| Error := failure_text r msg |}))
    | None =>
        match rm.2 with
        | None =>
            (Return tt,
             log (log rm.1 (Removed tmpDir)) (Stdout (captured r).1))
        | Some msg => (Exit 1, log rm.1 (StderrJSON {| Error := msg |}))
        end
    end.
Proof.
  intros c r rm. unfold execute, Run, bind, read, emit, removeAll, must, fail,
    exit, ret, failure_text. cbn [files log]. fold c. fold r.
  destruct (captured r) as [out err] eqn:Hc. cbn [fst snd].
  destruct (run_error r); [reflexivity|]. fold rm.
  destruct rm as [w' [msg|]]; reflexivity.
Qed.

(** A removal writes nothing to the output streams and stays in the
    working directory. *)
Lemma RemoveAll_trace (held : list (string * string)) (w : world)
    (path : string) :
  trace (Os.RemoveAll held w path).1 = trace w /\
  cwd (Os.RemoveAll held w path).1 = cwd w.
Proof.
  unfold Os.RemoveAll. destruct (is_empty path); [split; reflexivity|].
  destruct (Os.endsWithDot path); split; reflexivity.
Qed.

End Stages.

(* ===================================================================== *)
(** * The import rewriter, file by file *)
(* ===================================================================== *)

Section Rewriter.

Variables (depList : list string) (prefix : string).

Lemma wf_keys_spec (w : world) (k : string) (n : node) :
  wf_keys w = true -> files w !! k = Some n -> Os.key w k = k.
Proof.
  unfold wf_keys. rewrite forallb_forall. intros H Hk.
  apply String.eqb_eq. apply (H (k, n)).
  apply list_elem_of_In. apply elem_of_map_to_list. exact Hk.
Qed.

Lemma entries_elem (fs : gmap string node) (root k : string) (n : node) :
  (k, n) ∈ Walk.entries fs root <-> fs !! k = Some n /\ Os.within root k = true.
Proof.
  unfold Walk.entries. rewrite merge_sort_Permutation.
  rewrite elem_of_map_to_list, map_lookup_filter_Some. reflexivity.
Qed.

Lemma entries_NoDup (fs : gmap string node) (root : string) :
  NoDup (Walk.entries fs root).*1.
Proof.
  unfold Walk.entries. rewrite merge_sort_Permutation.
  apply NoDup_fst_map_to_list.
Qed.

Lemma renameImports_fn_step (w : world) (k : string) (n : node) :
  files w !! k = Some n -> Os.key w k = k ->
  exists w1, renameImports_fn depList prefix k n w = (w1, None) /\
             cwd w1 = cwd w /\ trace w1 = trace w /\
             files w1 = <[k := rename_node depList prefix k n]> (files w).
Proof.
  intros Hk Hkey. unfold renameImports_fn, rename_node.
  destruct n as [b|].
  - destruct (HasSuffix k ".go").
    + unfold Os.ReadFile, Os.WriteFile. rewrite Hkey, Hk. cbv iota beta.
      rewrite ?Hkey, ?Hk. eexists. split; [reflexivity|]. repeat split.
    + exists w. repeat split. symmetry. apply insert_id. exact Hk.
  - exists w. repeat split. symmetry. apply insert_id. exact Hk.
Qed.

Lemma visit_renameImports (l : list (string * node)) :
  forall w,
  NoDup l.*1 ->
  (forall k n, (k, n) ∈ l -> files w !! k = Some n /\ Os.key w k = k) ->
  exists w', Walk.visit (renameImports_fn depList prefix) l w = (w', None) /\
             cwd w' = cwd w /\ trace w' = trace w /\
             forall k, files w' !! k
                       = if decide (k ∈ l.*1)
                         then rename_node depList prefix k <$> files w !! k
                         else files w !! k.
Proof.
  induction l as [|[k0 n0] l IH]; intros w Hnd Hl.
  - exists w. do 3 (split; [reflexivity|]). intros k.
    destruct (decide (k ∈ [])) as [H|_]; [inversion H | reflexivity].
  - change (((k0, n0) :: l).*1) with (k0 :: l.*1) in Hnd.
    apply NoDup_cons in Hnd as [Hk0 Hnd].
    destruct (Hl k0 n0 ltac:(left)) as [Hlook Hkey].
    destruct (renameImports_fn_step w k0 n0 Hlook Hkey)
      as (w1 & Hstep & Hc & Ht & Hf).
    destruct (IH w1 Hnd) as (w' & Hv & Hc' & Ht' & Hf').
    { intros k n Hin. destruct (Hl k n ltac:(right; exact Hin)) as [H1 H2].
      assert (k <> k0).
      { intros ->. apply Hk0. apply list_elem_of_fmap. exists (k0, n). auto. }
      split.
      - rewrite Hf, lookup_insert_ne by congruence. exact H1.
      - unfold Os.key in *. rewrite Hc. exact H2. }
    exists w'. cbn [Walk.visit]. rewrite Hstep. split; [exact Hv|].
    split; [congruence|]. split; [congruence|].
    intros k. rewrite Hf'. rewrite Hf.
    change (((k0, n0) :: l).*1) with (k0 :: l.*1).
    destruct (decide (k = k0)) as [->|Hne].
    + destruct (decide (k0 ∈ l.*1)) as [Hin|_]; [contradiction|].
      rewrite lookup_insert_eq.
      destruct (decide (k0 ∈ k0 :: l.*1)) as [_|Hn];
        [|exfalso; apply Hn; left].
      rewrite Hlook. reflexivity.
    + rewrite lookup_insert_ne by congruence.
      destruct (decide (k ∈ l.*1)) as [Hin|Hnin];
        destruct (decide (k ∈ k0 :: l.*1)) as [Hin'|Hnin']; try reflexivity.
      * exfalso. apply Hnin'. right. exact Hin.
      * exfalso. apply elem_of_cons in Hin' as [?|?]; contradiction.
Qed.

(** The whole pass: with a readable manifest and an existing root it ends
    without error, and the file system is rewritten node by node. *)
Lemma renameImports_pointwise (w : world) (root deps : string) :
  wf_keys w = true ->
  Os.ReadFile w (Filepath.Join [root; vendorDirName; depsFileName]) = Ok deps ->
  depList = Split deps (String "010" "") ->
  is_Some (files w !! Os.key w root) ->
  exists w', renameImports w root prefix = (w', None) /\
             cwd w' = cwd w /\ trace w' = trace w /\
             forall k, files w' !! k
                       = if Os.within (Os.key w root) k
                         then rename_node depList prefix k <$> files w !! k
                         else files w !! k.
Proof.
  intros Hwf Hread Hdeps [n0 Hroot]. unfold renameImports, Walk.Walk.
  rewrite Hread, Hroot. cbv zeta. rewrite <- Hdeps.
  destruct (visit_renameImports (Walk.entries (files w) (Os.key w root)) w)
    as (w' & Hv & Hc & Ht & Hf).
  { apply entries_NoDup. }
  { intros k n Hin. apply entries_elem in Hin as [H1 _]. split; [exact H1|].
    eapply wf_keys_spec; eauto. }
  exists w'. split; [exact Hv|]. split; [exact Hc|]. split; [exact Ht|].
  intros k. rewrite Hf.
  destruct (decide (k ∈ (Walk.entries (files w) (Os.key w root)).*1)) as [Hin|Hnin].
  - apply list_elem_of_fmap in Hin as ([k' n] & Heq & Hin). simpl in Heq. subst k'.
    apply entries_elem in Hin as [_ Hw]. rewrite Hw. reflexivity.
  - destruct (Os.within (Os.key w root) k) eqn:Hw; [|reflexivity].
    destruct (files w !! k) as [n|] eqn:Hk; [|reflexivity].
    exfalso. apply Hnin. apply list_elem_of_fmap. exists (k, n).
    split; [reflexivity|]. apply entries_elem. split; assumption.
Qed.

End Rewriter.

(* ===================================================================== *)
(** * Replacement and lines *)
(* ===================================================================== *)

Section Lines.

Lemma HasPrefix_app_LF (old : string) :
  has_byte LF old = false ->
  forall a b, HasPrefix (a +:+ String LF b) old = HasPrefix a old.
Proof.
  induction old as [|c old IH]; intros Hno a b; [reflexivity|].
  cbn [has_byte] in Hno. apply orb_false_iff in Hno as [Hc Hno].
  destruct a as [|x a].
  - rewrite str_app_nil_l. cbn [HasPrefix]. rewrite Ascii.eqb_sym, Hc. reflexivity.
  - rewrite str_app_cons. cbn [HasPrefix]. destruct (Ascii.eqb x c); [|reflexivity].
    apply IH. exact Hno.
Qed.

(** A dependency name without line feed is replaced line by line. *)
Lemma replace_go_LF (old new : string) :
  has_byte LF old = false -> old <> "" ->
  forall a skip b, skip <= String.length a ->
  replace_go old new skip (a +:+ String LF b)
  = replace_go old new skip a +:+ String LF (replace_go old new 0 b).
Proof.
  intros Hno Hne. induction a as [|x a IH]; intros skip b Hskip.
  - simpl in Hskip. assert (skip = 0) by lia. subst skip.
    rewrite str_app_nil_l. simpl replace_go at 2. rewrite str_app_nil_l.
    cbn [replace_go].
    rewrite <- (str_app_nil_l (String LF b)), HasPrefix_app_LF by exact Hno.
    destruct old as [|c old]; [congruence|]. reflexivity.
  - rewrite str_app_cons. cbn [replace_go]. destruct skip as [|k].
    + rewrite <- str_app_cons, HasPrefix_app_LF by exact Hno.
      destruct (HasPrefix (String x a) old) eqn:Hp.
      * rewrite IH.
        -- rewrite str_app_assoc. reflexivity.
        -- apply HasPrefix_length in Hp. simpl in Hp. lia.
      * rewrite IH by lia. reflexivity.
    + apply IH. simpl in Hskip. lia.
Qed.

Lemma ReplaceAll_LF (old new a b : string) :
  has_byte LF old = false -> old <> "" ->
  ReplaceAll (a +:+ String LF b) old new
  = ReplaceAll a old new +:+ String LF (ReplaceAll b old new).
Proof.
  intros Hno Hne. destruct old as [|c old]; [congruence|].
  unfold ReplaceAll. apply replace_go_LF; [exact Hno | discriminate | lia].
Qed.

(** Where the old text does not occur nothing is replaced. *)
Lemma ReplaceAll_absent (old new s : string) :
  old <> "" -> occursb old s = false -> ReplaceAll s old new = s.
Proof.
  intros Hne. destruct old as [|c old]; [congruence|]. unfold ReplaceAll.
  induction s as [|x s IH]; intros Hocc; [reflexivity|].
  cbn [occursb] in Hocc. apply orb_false_iff in Hocc as [Hp Hocc].
  cbn [replace_go]. rewrite Hp. rewrite IH by exact Hocc. reflexivity.
Qed.

Lemma rewrite_imports_LF (depList : list string) (prefix : string) :
  Forall (fun dep => has_byte LF dep = false) depList ->
  forall a b,
  rewrite_imports depList prefix (a +:+ String LF b)
  = rewrite_imports depList prefix a
    +:+ String LF (rewrite_imports depList prefix b).
Proof.
  induction 1 as [|dep l Hd Hl IH]; intros a b; [reflexivity|].
  cbn [rewrite_imports]. destruct (is_empty dep) eqn:He; [apply IH|].
  apply is_empty_false in He.
  rewrite ReplaceAll_LF by assumption. apply IH.
Qed.

Lemma rewrite_imports_absent (depList : list string) (prefix line : string) :
  Forall (fun dep => dep <> "" -> occursb dep line = false) depList ->
  rewrite_imports depList prefix line = line.
Proof.
  induction 1 as [|dep l Hd Hl IH]; [reflexivity|].
  cbn [rewrite_imports]. destruct (is_empty dep) eqn:He; [exact IH|].
  apply is_empty_false in He.
  rewrite ReplaceAll_absent by auto. exact IH.
Qed.

Lemma Split_LF_has_byte (s : string) :
  Forall (fun dep => has_byte LF dep = false) (Split s (String LF "")).
Proof.
  apply Forall_forall. intros x Hx. eapply split_on_has_byte. exact Hx.
Qed.

End Lines.

(* ===================================================================== *)
(** * Whole runs *)
(* ===================================================================== *)

Section Runs.

Variable e : env.

Lemma main_unfold (filePath symbolName : string) (w : world) :
  main e filePath symbolName w
  = if is_empty filePath || is_empty symbolName
    then (Exit 1, log w StderrUsage)
    else
      match describe filePath symbolName w with
      | (Return d, w1) =>
          let tmpDir := Filepath.Join [d.2; tmpDirName] in
          let tmpMain := Filepath.Join [tmpDir; "main.go"] in
          match prepare e d.1 tmpDir tmpMain w1 with
          | (Return _, w2) => execute e tmpDir tmpMain w2
          | (Exit c, w2) => (Exit c, w2)
          end
      | (Exit c, w1) => (Exit c, w1)
      end.
Proof.
  unfold main, bind, ret, emit, exit.
  destruct (is_empty filePath || is_empty symbolName); [reflexivity|].
  destruct (describe filePath symbolName w) as [[d|c] w1]; reflexivity.
Qed.

(** How far a run gets: the usage exit, a failure of [describe], a failure
    of [prepare], or the last stage. *)
Lemma main_cases (filePath symbolName : string) (w : world) :
  let tmpDir := workspace w filePath in
  let tmpMain := entry_point w filePath in
  (is_empty filePath || is_empty symbolName = true /\
   main e filePath symbolName w = (Exit 1, log w StderrUsage)) \/
  (is_empty filePath || is_empty symbolName = false /\
   ((exists msg,
       describe filePath symbolName w
       = (Exit 1, log w (StderrJSON {| Error := msg |})) /\
       main e filePath symbolName w
       = (Exit 1, log w (StderrJSON {| Error := msg |}))) \/
    (exists i w1,
       describe filePath symbolName w
       = (Return (i, Filepath.Dir (Filepath.Abs (cwd w) filePath)), w) /\
       quiet w w1 /\
       ((Os.MkdirAll w tmpDir).2 = None ->
          quiet (Os.MkdirAll w tmpDir).1 w1) /\
       ((exists msg,
           prepare e i tmpDir tmpMain w
           = (Exit 1, log w1 (StderrJSON {| Error := msg |})) /\
           main e filePath symbolName w
           = (Exit 1, log w1 (StderrJSON {| Error := msg |}))) \/
        (prepare e i tmpDir tmpMain w = (Return tt, w1) /\
         (Os.MkdirAll w tmpDir).2 = None /\
         main e filePath symbolName w = execute e tmpDir tmpMain w1))))).
Proof.
  intros tmpDir tmpMain. rewrite main_unfold.
  destruct (is_empty filePath || is_empty symbolName) eqn:Hargs.
  { left. split; reflexivity. }
  right. split; [reflexivity|].
  destruct (describe_cases filePath symbolName w) as [[i Hd] | [msg Hd]].
  - right. rewrite Hd. cbv zeta. cbn [fst snd].
    change (Filepath.Join
              [Filepath.Dir (Filepath.Abs (cwd w) filePath); tmpDirName])
      with tmpDir.
    change (Filepath.Join [tmpDir; "main.go"]) with tmpMain.
    destruct (prepare_cases e i tmpDir tmpMain w)
      as (w1 & Q & D & [[Hp Hm] | [msg Hp]]).
    + exists i, w1. split; [reflexivity|]. split; [exact Q|]. split; [exact D|].
      right. split; [exact Hp|]. split; [exact Hm|]. rewrite Hp. reflexivity.
    + exists i, w1. split; [reflexivity|]. split; [exact Q|]. split; [exact D|].
      left. exists msg. split; [exact Hp|]. rewrite Hp. reflexivity.
  - left. exists msg. rewrite Hd. split; reflexivity.
Qed.

(** The events of a run, after those that were there before: the usage
    text; one error object; the child and one error object; or the child,
    the removal of the workspace and the relayed output. *)
Lemma main_trace (filePath symbolName : string) (w : world) :
  let tmpDir := workspace w filePath in
  let c := go_command e tmpDir (entry_point w filePath) in
  let res := main e filePath symbolName w in
  (is_empty filePath || is_empty symbolName = true /\
   res = (Exit 1, log w StderrUsage)) \/
  (is_empty filePath || is_empty symbolName = false /\
   ((exists msg, res.1 = Exit 1 /\
       trace res.2 = trace w ++ [StderrJSON {| Error := msg |}]) \/
    (exists msg, res.1 = Exit 1 /\
       trace res.2 = trace w ++ [Spawned c; StderrJSON {| Error := msg |}]) \/
    (exists out, res.1 = Return tt /\
       trace res.2 = trace w ++ [Spawned c; Removed tmpDir; Stdout out]))).
Proof.
  intros tmpDir c res. subst res.
  destruct (main_cases filePath symbolName w)
    as [[Ha Hm] | [Ha [(msg & _ & Hm) | (i & w1 & _ & Q & _ & H)]]].
  - left. split; assumption.
  - right. split; [exact Ha|]. left. exists msg. rewrite Hm. split; reflexivity.
  - right. split; [exact Ha|]. destruct Q as (_ & Ht & _).
    destruct H as [(msg & _ & Hm) | (_ & _ & Hm)].
    + left. exists msg. rewrite Hm. simpl. rewrite Ht. split; reflexivity.
    + right. rewrite Hm, execute_cases.
      fold (workspace w filePath) in *. fold tmpDir. fold c.
      destruct (run_error _) as [msg|].
      * left. eexists. simpl. rewrite Ht, <- app_assoc. split; reflexivity.
      * pose proof (RemoveAll_trace (held e) (log w1 (Spawned c)) tmpDir)
          as [Hr _].
        destruct (Os.RemoveAll _ _ _) as [w2 [msg|]]; cbn [fst snd] in *.
        -- left. exists msg. cbn [trace log]. rewrite Hr. cbn [trace log].
           rewrite Ht, <- app_assoc. split; reflexivity.
        -- right. eexists. cbn [trace log]. rewrite Hr. cbn [trace log].
           rewrite Ht, <- !app_assoc. split; reflexivity.
Qed.

End Runs.

(* ===================================================================== *)
(** * The claims *)
(* ===================================================================== *)

Section Claims.

Lemma run_error_None (r : run_result) :
  run_error r = None <-> exists out err, r = Exited 0 out err.
Proof.
  split.
  - destruct r as [code out err | sig out err | msg]; simpl; try discriminate.
    destruct (N.eqb_spec code 0) as [->|Hne]; [eauto | discriminate].
  - intros (out & err & ->). reflexivity.
Qed.

(** C1, amended.  The last stage reports success exactly when the child
    process was started and exited with status 0, whatever it wrote to
    standard error, and the workspace could then be removed: the removal
    is logged and the captured standard output is relayed.  A child that
    exited with status 0 followed by a removal that fails is a failure
    whose error object holds the error of the removal.  Otherwise one
    error object is written whose text is the error of the run, followed
    by a line feed and the captured standard error when that is not
    empty.  The exit status of a failure is 1. *)
Theorem execute_success_iff_exit_zero
    (e : env) (tmpDir tmpMain : string) (w : world) :
  let c := go_command e tmpDir tmpMain in
  let r := go_run e c (files w) in
  let rm := Os.RemoveAll (held e) (log w (Spawned c)) tmpDir in
  let res := execute e tmpDir tmpMain w in
  (res.1 = Return tt <->
   (exists out err, r = Exited 0 out err) /\ rm.2 = None) /\
  (forall out err, r = Exited 0 out err -> rm.2 = None ->
     res.1 = Return tt /\
     trace res.2 = trace w ++ [Spawned c; Removed tmpDir; Stdout out]) /\
  (forall out err msg, r = Exited 0 out err -> rm.2 = Some msg ->
     res.1 = Exit 1 /\
     trace res.2 = trace w ++ [Spawned c; StderrJSON {| Error := msg |}]) /\
  (forall msg, run_error r = Some msg ->
     res.1 = Exit 1 /\
     trace res.2
     = trace w ++
       [Spawned c;
        StderrJSON
          {| Error := if (0 <? String.length (captured r).2)%nat
                      then msg +:+ String "010" "" +:+ (captured r).2
                      else msg |}]).
Proof.
  intros c r rm res. subst res. rewrite execute_cases. cbv zeta.
  fold c. fold r. fold rm.
  pose proof (RemoveAll_trace (held e) (log w (Spawned c)) tmpDir) as [Ht _].
  fold rm in Ht. cbn [trace log] in Ht.
  split; [|split; [|split]].
  - split.
    + intros H. destruct (run_error r) eqn:E; [discriminate|].
      destruct rm.2 eqn:E2; [discriminate|].
      split; [apply run_error_None; exact E | reflexivity].
    + intros [Hr Hn]. apply run_error_None in Hr. rewrite Hr, Hn.
      reflexivity.
  - intros out err Hr Hn. rewrite Hn, Hr. cbn [run_error N.eqb].
    cbn [fst snd trace log captured]. rewrite Ht, <- !app_assoc.
    split; reflexivity.
  - intros out err msg Hr Hn. rewrite Hn, Hr. cbn [run_error N.eqb].
    cbn [fst snd trace log]. rewrite Ht, <- !app_assoc. split; reflexivity.
  - intros msg Hm. rewrite Hm. simpl. rewrite <- app_assoc.
    split; reflexivity.
Qed.

Lemma execute_success_iff_exit_zero_witness :
  let e := Sample.env_with (Exited 0 "{}" "warning") in
  let res := execute e "/w/app/pkg/jsonschema-gen"
               "/w/app/pkg/jsonschema-gen/main.go" Sample.w0 in
  let held_back := execute Scenario.guarded "/w/app/pkg/jsonschema-gen"
                     "/w/app/pkg/jsonschema-gen/main.go" Scenario.locked in
  (res.1 = Return tt /\
   trace res.2
   = trace Sample.w0 ++
     [Spawned (go_command e "/w/app/pkg/jsonschema-gen"
                 "/w/app/pkg/jsonschema-gen/main.go");
      Removed "/w/app/pkg/jsonschema-gen"; Stdout "{}"]) /\
  (held_back.1 = Exit 1 /\
   trace held_back.2
   = trace Scenario.locked ++
     [Spawned (go_command Scenario.guarded "/w/app/pkg/jsonschema-gen"
                 "/w/app/pkg/jsonschema-gen/main.go");
      StderrJSON
        {| Error := "unlinkat /w/app/pkg/jsonschema-gen/old/keep.txt: " +:+
                    "permission denied" |}]).
Proof.
  intros e res held_back. split.
  - exact (proj1 (proj2 (execute_success_iff_exit_zero e
             "/w/app/pkg/jsonschema-gen" "/w/app/pkg/jsonschema-gen/main.go"
             Sample.w0)) "{}" "warning" eq_refl eq_refl).
  - apply (proj1 (proj2 (proj2 (execute_success_iff_exit_zero
             Scenario.guarded
             "/w/app/pkg/jsonschema-gen" "/w/app/pkg/jsonschema-gen/main.go"
             Scenario.locked))) "{}" "");
      [reflexivity | vm_compute; reflexivity].
Defined.

(** C1 as stated fails: a child that exits with status 0 after writing to
    standard error is reported as a success. *)
Lemma exit_zero_with_stderr_is_success :
  let e := Sample.env_with (Exited 0 "{}" "warning: deprecated") in
  let res := run_main e "app/pkg/models.go" "User" Sample.w0 in
  res.1 = 0 /\
  trace res.2
  = [Spawned (go_command e "/w/app/pkg/jsonschema-gen"
                "/w/app/pkg/jsonschema-gen/main.go");
     Removed "/w/app/pkg/jsonschema-gen"; Stdout "{}"].
Proof. vm_compute. split; reflexivity. Qed.

(** C6 as stated fails: without the type parameter the program prints the
    usage text, not an error object, before it exits with status 1. *)
Lemma missing_parameter_prints_usage :
  run_main (Sample.env_with (Exited 0 "{}" "")) "app/pkg/models.go" ""
    Sample.w0
  = (1, log Sample.w0 StderrUsage).
Proof. vm_compute. reflexivity. Qed.

(** C6, amended.  Every run of [main] that fails exits with status 1.
    When a parameter is missing the only thing written is the usage text;
    otherwise exactly one error object is written to standard error, as
    the last event of the run, and nothing else goes to an output stream
    (the only other event possible is the launch of the child). *)
Theorem failure_is_reported_once
    (e : env) (filePath symbolName : string) (w w' : world) (code : nat) :
  main e filePath symbolName w = (Exit code, w') ->
  code = 1 /\
  ((is_empty filePath || is_empty symbolName = true /\
    w' = log w StderrUsage) \/
   (is_empty filePath || is_empty symbolName = false /\
    exists evs msg,
      trace w' = trace w ++ evs ++ [StderrJSON {| Error := msg |}] /\
      Forall (fun ev => exists c, ev = Spawned c) evs)).
Proof.
  intros Hmain.
  destruct (main_trace e filePath symbolName w)
    as [[Ha Hm] | [Ha [(msg & H1 & H2) | [(msg & H1 & H2) | (out & H1 & _)]]]];
    rewrite Hmain in *; simpl in *.
  - inversion Hm. subst. split; [reflexivity|]. left. split; [exact Ha|reflexivity].
  - inversion H1. split; [reflexivity|]. right. split; [exact Ha|].
    exists [], msg. split; [exact H2 | constructor].
  - inversion H1. split; [reflexivity|]. right. split; [exact Ha|].
    eexists [_], msg. split; [exact H2|]. repeat constructor. eauto.
  - discriminate.
Qed.

Lemma failure_is_reported_once_witness :
  let e := Sample.env_with (Exited 2 "" "undefined: Missing") in
  let w' := (main e "app/pkg/models.go" "Missing" Sample.w0).2 in
  1 = 1 /\
  ((is_empty "app/pkg/models.go" || is_empty "Missing" = true /\
    w' = log Sample.w0 StderrUsage) \/
   (is_empty "app/pkg/models.go" || is_empty "Missing" = false /\
    exists evs msg,
      trace w' = trace Sample.w0 ++ evs ++ [StderrJSON {| Error := msg |}] /\
      Forall (fun ev => exists c, ev = Spawned c) evs)).
Proof.
  intros e w'.
  apply (failure_is_reported_once e "app/pkg/models.go" "Missing" Sample.w0).
  vm_compute. reflexivity.
Defined.

(** [describe], step by step. *)
Lemma describe_unfold (filePath symbolName : string) (w : world) :
  describe filePath symbolName w
  = let absPath := Filepath.Abs (cwd w) filePath in
    let fileDir := Filepath.Dir absPath in
    let failed msg := (Exit 1, log w (StderrJSON {| Error := msg |})) in
    match parsePkgName w absPath with
    | Err msg => failed msg
    | Ok pkgName =>
        let modDir := findGoMod w fileDir in
        if is_empty modDir
        then failed ("go.mod not found for file " +:+ fileDir)
        else
          match parseGoMod w modDir with
          | Err msg => failed msg
          | Ok mg =>
              if is_empty mg.1
              then failed "module name not found in go.mod"
              else if ltb mg.2 "1.18"
              then failed "go mod version must be at least 1.18"
              else
                match Filepath.Rel modDir fileDir with
                | Err msg => failed msg
                | Ok rel =>
                    let relPath := if String.eqb rel "." then "" else rel in
                    (Return
                       ({| ImportName :=
                             if is_empty relPath then mg.1
                             else mg.1 +:+ "/" +:+ relPath;
                           FileName := Filepath.Base absPath;
                           PackageName := pkgName;
                           RelativePath := relPath;
                           TypeName := symbolName;
                           ModuleName := mg.1;
                           FilePath :=
                             Filepath.Join [fileDir; Filepath.Base absPath] |},
                        fileDir), w)
                end
          end
    end.
Proof.
  unfold describe, bind, read, orFail, fail, emit, exit, ret. cbv zeta.
  destruct (parsePkgName w _); [|reflexivity].
  destruct (is_empty (findGoMod w _)); [reflexivity|].
  destruct (parseGoMod w _) as [mg|]; [|reflexivity].
  destruct (is_empty mg.1); [reflexivity|].
  destruct (ltb mg.2 "1.18"); [reflexivity|].
  destruct (Filepath.Rel _ _); reflexivity.
Qed.

(** C5.  Whenever [describe] returns a descriptor, its import path is the
    module name when the relative path is empty and the module name, a
    slash and the relative path otherwise; the module name is the one
    parsed from the [go.mod] of the module root found above the directory
    of the target file, and the relative path is what [filepath.Rel] gives
    from that root to that directory, with [.] turned into the empty
    string. *)
Theorem import_path_composition
    (filePath symbolName : string) (w w' : world) (i : importInfo)
    (fileDir : string) :
  describe filePath symbolName w = (Return (i, fileDir), w') ->
  ImportName i
  = (if is_empty (RelativePath i) then ModuleName i
     else ModuleName i +:+ "/" +:+ RelativePath i) /\
  fileDir = Filepath.Dir (Filepath.Abs (cwd w) filePath) /\
  exists rel goVer,
    parseGoMod w (findGoMod w fileDir) = Ok (ModuleName i, goVer) /\
    Filepath.Rel (findGoMod w fileDir) fileDir = Ok rel /\
    RelativePath i = (if String.eqb rel "." then "" else rel).
Proof.
  rewrite describe_unfold. cbv zeta.
  destruct (parsePkgName w _); [|discriminate].
  destruct (is_empty (findGoMod w _)); [discriminate|].
  destruct (parseGoMod w _) as [[m g]|] eqn:Hp; [|discriminate]. cbn [fst snd].
  destruct (is_empty m); [discriminate|].
  destruct (ltb g "1.18"); [discriminate|].
  destruct (Filepath.Rel _ _) as [rel|] eqn:Hrel; [|discriminate].
  intros H. inversion H. subst. cbn [ImportName RelativePath ModuleName].
  split; [reflexivity|]. split; [reflexivity|].
  exists rel, g. split; [exact Hp|]. split; [exact Hrel | reflexivity].
Qed.

Lemma import_path_composition_witness :
  let i := describe_result "app/pkg/models.go" "User" Sample.w0 in
  ImportName i = "example.com/app/pkg" /\
  ImportName i
  = (if is_empty (RelativePath i) then ModuleName i
     else ModuleName i +:+ "/" +:+ RelativePath i).
Proof.
  intros i. split; [vm_compute; reflexivity|].
  apply (import_path_composition "app/pkg/models.go" "User" Sample.w0
           Sample.w0 i "/w/app/pkg").
  vm_compute. reflexivity.
Defined.

(** A target file at the module root: the import path is the module name
    alone. *)
Example import_path_at_module_root :
  let w := {| files := <["/w/app/root.go" := File "package app"]>
                         (files Sample.w0);
              cwd := "/w/app"; trace := [] |} in
  let i := describe_result "root.go" "T" w in
  RelativePath i = "" /\ ImportName i = "example.com/app".
Proof. vm_compute. split; reflexivity. Qed.

Lemma Rel_error_text (basepath targpath msg : string) :
  Filepath.Rel basepath targpath = Err msg ->
  exists rest, msg = String "R" rest.
Proof.
  unfold Filepath.Rel.
  destruct (String.eqb _ _); [discriminate|].
  destruct (negb _); [intros H; inversion H; eexists; reflexivity|].
  destruct (Filepath.strip_common _ _) as [bs ts].
  destruct bs as [|b bs]; [discriminate|].
  destruct (String.eqb b ".."); [|discriminate].
  intros H. inversion H. eexists. reflexivity.
Qed.

Lemma log_StderrJSON_inj (w : world) (m1 m2 : string) :
  log w (StderrJSON {| Error := m1 |}) = log w (StderrJSON {| Error := m2 |}) ->
  m1 = m2.
Proof.
  intros H. apply (f_equal trace) in H. simpl in H.
  apply app_inv_head in H. inversion H. reflexivity.
Qed.

(** C4 as stated fails: the version string 1.9 does not compare below 1.18
    byte by byte, so a module that declares it is accepted and the run
    goes through. *)
Lemma version_1_9_is_accepted :
  let e := Sample.env_with (Exited 0 "{}" "") in
  let w := Sample.at_module (Sample.gomod "example.com/app" "1.9") in
  let res := run_main e "app/pkg/models.go" "User" w in
  parseGoMod w "/w/app" = Ok ("example.com/app", "1.9") /\
  ltb "1.9" "1.18" = false /\
  res.1 = 0 /\
  trace res.2
  = [Spawned (go_command e "/w/app/pkg/jsonschema-gen"
                "/w/app/pkg/jsonschema-gen/main.go");
     Removed "/w/app/pkg/jsonschema-gen"; Stdout "{}"].
Proof. vm_compute. repeat split; reflexivity. Qed.

(** C4, amended.  Once the package name, the module root and a non-empty
    module name have been found, [describe] fails with the version message
    exactly when the version string of [go.mod] is smaller than 1.18 in
    the byte-wise order of strings.  In that order 1.18 is not below the
    floor, 1.9 is not below it either (it is accepted although Go 1.9 is
    older), and 1.100 is below it (it is rejected although it is newer). *)
Theorem version_floor_is_lexical
    (filePath symbolName : string) (w : world) (pkgName modName goVer : string) :
  let fileDir := Filepath.Dir (Filepath.Abs (cwd w) filePath) in
  parsePkgName w (Filepath.Abs (cwd w) filePath) = Ok pkgName ->
  is_empty (findGoMod w fileDir) = false ->
  parseGoMod w (findGoMod w fileDir) = Ok (modName, goVer) ->
  is_empty modName = false ->
  (describe filePath symbolName w
   = (Exit 1, log w (StderrJSON {| Error := version_floor_message |}))
   <-> ltb goVer "1.18" = true) /\
  ltb "1.18" "1.18" = false /\
  ltb "1.9" "1.18" = false /\
  ltb "1.100" "1.18" = true.
Proof.
  intros fileDir Hpkg Hdir Hmod Hname.
  split; [|repeat split; reflexivity].
  rewrite describe_unfold. cbv zeta. fold fileDir.
  rewrite Hpkg, Hdir, Hmod. cbn [fst snd]. rewrite Hname.
  destruct (ltb goVer "1.18"); [split; reflexivity|].
  split; [|discriminate].
  destruct (Filepath.Rel _ _) as [rel|msg] eqn:Hrel; [discriminate|].
  intros H. exfalso.
  assert (H' : log w (StderrJSON {| Error := msg |})
               = log w (StderrJSON {| Error := version_floor_message |}))
    by congruence.
  apply log_StderrJSON_inj in H'.
  apply Rel_error_text in Hrel as [rest ->]. discriminate.
Qed.

Lemma version_floor_is_lexical_witness :
  let w := Sample.at_module (Sample.gomod "example.com/app" "1.100") in
  (describe "app/pkg/models.go" "User" w
   = (Exit 1, log w (StderrJSON {| Error := version_floor_message |}))
   <-> ltb "1.100" "1.18" = true) /\
  ltb "1.18" "1.18" = false /\
  ltb "1.9" "1.18" = false /\
  ltb "1.100" "1.18" = true.
Proof.
  intros w.
  apply (version_floor_is_lexical "app/pkg/models.go" "User" w "models"
           "example.com/app" "1.100"); vm_compute; reflexivity.
Defined.

Lemma parseGoMod_lines_no_go (lines : list string) :
  Forall (fun line => HasPrefix line "go " = false) lines ->
  forall modName goVer, (parseGoMod_lines lines modName goVer).2 = goVer.
Proof.
  induction 1 as [|line lines Hline _ IH]; intros modName goVer;
    [reflexivity|].
  cbn [parseGoMod_lines]. rewrite Hline.
  destruct (HasPrefix line "module ").
  - destruct (negb (is_empty goVer) && negb _); [reflexivity | apply IH].
  - destruct (negb (is_empty goVer) && negb _); [reflexivity | apply IH].
Qed.

(** C9.  When the [go.mod] of the module root has no line that starts
    with the [go] keyword and a blank, but yields a module name, the
    parsed version is the empty string, the empty string is below 1.18,
    and the run fails with the version message. *)
Theorem missing_go_directive_hits_version_floor
    (e : env) (filePath symbolName : string) (w : world)
    (pkgName data : string) :
  let fileDir := Filepath.Dir (Filepath.Abs (cwd w) filePath) in
  let modDir := findGoMod w fileDir in
  let lines := Split data (String "010" "") in
  is_empty filePath || is_empty symbolName = false ->
  parsePkgName w (Filepath.Abs (cwd w) filePath) = Ok pkgName ->
  is_empty modDir = false ->
  Os.ReadFile w (Filepath.Join [modDir; "go.mod"]) = Ok data ->
  Forall (fun line => HasPrefix line "go " = false) lines ->
  is_empty (parseGoMod_lines lines "" "").1 = false ->
  parseGoMod w modDir
  = Ok ((parseGoMod_lines lines "" "").1, "") /\
  ltb "" "1.18" = true /\
  main e filePath symbolName w
  = (Exit 1, log w (StderrJSON {| Error := version_floor_message |})).
Proof.
  intros fileDir modDir lines Hargs Hpkg Hdir Hread Hnogo Hname.
  assert (Hparse : parseGoMod w modDir
                   = Ok ((parseGoMod_lines lines "" "").1, "")).
  { pose proof (parseGoMod_lines_no_go lines Hnogo "" "") as Hg.
    unfold parseGoMod. rewrite Hread. fold lines.
    destruct (parseGoMod_lines lines "" "") as [m g]. simpl in Hg.
    subst g. reflexivity. }
  split; [exact Hparse|]. split; [reflexivity|].
  rewrite main_unfold, Hargs, describe_unfold. cbv zeta.
  fold fileDir. fold modDir. rewrite Hpkg, Hdir, Hparse. cbn [fst snd].
  rewrite Hname. reflexivity.
Qed.

Lemma missing_go_directive_hits_version_floor_witness :
  let e := Sample.env_with (Exited 0 "{}" "") in
  let w := Sample.at_module Sample.gomod_without_go in
  parseGoMod w "/w/app" = Ok ("example.com/app", "") /\
  ltb "" "1.18" = true /\
  main e "app/pkg/models.go" "User" w
  = (Exit 1, log w (StderrJSON {| Error := version_floor_message |})).
Proof.
  intros e w.
  apply (missing_go_directive_hits_version_floor e "app/pkg/models.go" "User"
           w "models" Sample.gomod_without_go).
  - reflexivity.
  - vm_compute. reflexivity.
  - vm_compute. reflexivity.
  - vm_compute. reflexivity.
  - vm_compute. repeat constructor.
  - vm_compute. reflexivity.
Defined.

(** C8 as stated fails: two invocations for different files and types in
    one directory run their child in the same workspace directory, on the
    same entry-point path; and an invocation that follows a failed one
    finds the workspace of the failed one and uses it. *)
Lemma two_invocations_share_workspace :
  let e := Sample.env_with (Exited 2 "" "undefined") in
  let first := main e "app/pkg/models.go" "User" Sample.w0 in
  let second := main e "app/pkg/other.go" "Item" Sample.w0 in
  let again := main e "app/pkg/other.go" "Item"
                 (set_files Sample.w0 (files first.2)) in
  let c := go_command e "/w/app/pkg/jsonschema-gen"
             "/w/app/pkg/jsonschema-gen/main.go" in
  workspace Sample.w0 "app/pkg/models.go"
  = workspace Sample.w0 "app/pkg/other.go" /\
  head (trace first.2) = Some (Spawned c) /\
  head (trace second.2) = Some (Spawned c) /\
  files first.2 !! "/w/app/pkg/jsonschema-gen" = Some Directory /\
  head (trace again.2) = Some (Spawned c).
Proof. vm_compute. repeat split; reflexivity. Qed.

Lemma set_files_same (w : world) : set_files w (files w) = w.
Proof. destruct w. reflexivity. Qed.

(** C8, amended.  The workspace of an invocation is the directory
    [jsonschema-gen] inside the directory of its target file: any child
    it starts runs there, any removal it performs is of that directory,
    and invocations whose target files lie in one directory have the same
    workspace path.  A workspace directory that exists already is taken as
    it is: [MkdirAll] succeeds on it and changes nothing. *)
Theorem workspace_fixed_by_target_directory
    (e : env) (filePath symbolName : string) (w : world) :
  let tmpDir := workspace w filePath in
  let res := main e filePath symbolName w in
  (exists evs, trace res.2 = trace w ++ evs /\
     (forall c, Spawned c ∈ evs ->
        c = go_command e tmpDir (Filepath.Join [tmpDir; "main.go"])) /\
     (forall p, Removed p ∈ evs -> p = tmpDir)) /\
  (forall filePath2 w2,
     Filepath.Dir (Filepath.Abs (cwd w2) filePath2)
     = Filepath.Dir (Filepath.Abs (cwd w) filePath) ->
     workspace w2 filePath2 = tmpDir) /\
  (files w !! Os.key w tmpDir = Some Directory ->
   Os.MkdirAll w tmpDir = (w, None)).
Proof.
  intros tmpDir res. split; [|split].
  - subst res.
    destruct (main_trace e filePath symbolName w)
      as [[_ Hm] | [_ [(msg & _ & H) | [(msg & _ & H) | (out & _ & H)]]]].
    + rewrite Hm. exists [StderrUsage]. split; [reflexivity|].
      split; intros x Hx; apply list_elem_of_singleton in Hx; discriminate.
    + rewrite H. eexists. split; [reflexivity|].
      split; intros x Hx; apply list_elem_of_singleton in Hx; discriminate.
    + rewrite H. eexists. split; [reflexivity|]. split; intros x Hx.
      * apply elem_of_cons in Hx as [Hx|Hx]; [inversion Hx; reflexivity|].
        apply list_elem_of_singleton in Hx. discriminate.
      * apply elem_of_cons in Hx as [Hx|Hx]; [discriminate|].
        apply list_elem_of_singleton in Hx. discriminate.
    + rewrite H. eexists. split; [reflexivity|]. split; intros x Hx.
      * apply elem_of_cons in Hx as [Hx|Hx]; [inversion Hx; reflexivity|].
        apply elem_of_cons in Hx as [Hx|Hx]; [discriminate|].
        apply list_elem_of_singleton in Hx. discriminate.
      * apply elem_of_cons in Hx as [Hx|Hx]; [discriminate|].
        apply elem_of_cons in Hx as [Hx|Hx]; [inversion Hx; reflexivity|].
        apply list_elem_of_singleton in Hx. discriminate.
  - intros filePath2 w2 Hdir. unfold tmpDir, workspace. rewrite Hdir.
    reflexivity.
  - intros Hdir. unfold Os.MkdirAll. cbn [Os.MkdirAll_fuel]. rewrite Hdir.
    rewrite set_files_same. reflexivity.
Qed.

Lemma workspace_fixed_by_target_directory_witness :
  let w := set_files Sample.w0
             (<["/w/app/pkg/jsonschema-gen" := Directory]> (files Sample.w0)) in
  workspace w "/w/app/pkg/other.go" = workspace w "app/pkg/models.go" /\
  Os.MkdirAll w (workspace w "app/pkg/models.go") = (w, None).
Proof.
  intros w.
  destruct (workspace_fixed_by_target_directory
              (Sample.env_with (Exited 0 "{}" "")) "app/pkg/models.go" "User" w)
    as (_ & Hsame & Hreuse).
  split.
  - apply Hsame. vm_compute. reflexivity.
  - apply Hreuse. vm_compute. reflexivity.
Defined.

(** C10 as stated fails: the parent of the relative path [a] is [.],
    which is neither [a] nor shorter than [a]; the walk goes on to [.] and
    stops there, not at the root of the file system. *)
Lemma parent_of_relative_name_not_shorter :
  Filepath.Dir "a" = "." /\
  ~ String.length (Filepath.Dir "a") < String.length "a" /\
  findGoMod_fuel 1 Sample.w0 "a" = None /\
  findGoMod_fuel 2 Sample.w0 "a" = Some "" /\
  Filepath.Dir "." = ".".
Proof.
  split; [reflexivity|]. split; [vm_compute; lia|].
  split; [vm_compute; reflexivity|]. split; vm_compute; reflexivity.
Qed.

(** C10, amended.  The search for the module root ends for every
    directory path: two rounds more than the path has bytes are enough,
    more rounds give the same answer, and the answer is the empty
    not-found signal or a directory in which [go.mod] can be stat'ed.  A
    step to the parent leaves the path as it is (the walk stops), makes it
    strictly shorter, or leads to [.], which is its own parent.  For an
    absolute path every step makes the path strictly shorter until the
    root [/] is reached, which is its own parent. *)
Theorem findGoMod_terminates (w : world) (dir : string) :
  (exists r,
     (forall extra,
        findGoMod_fuel (S (S (String.length dir)) + extra) w dir = Some r) /\
     findGoMod w dir = r /\
     (r = "" \/ Os.Stat w (Filepath.Join [r; "go.mod"]) = None)) /\
  (Filepath.Dir dir = dir \/
   String.length (Filepath.Dir dir) < String.length dir \/
   (Filepath.Dir dir = "." /\ Filepath.Dir (Filepath.Dir dir) = Filepath.Dir dir)) /\
  (Filepath.IsAbs dir = true ->
   (dir = "/" /\ Filepath.Dir dir = dir) \/
   String.length (Filepath.Dir dir) < String.length dir).
Proof.
  split; [|split].
  - exists (findGoMod w dir). pose proof (findGoMod_spec w dir) as Hs.
    split; [|split].
    + intros extra. eapply findGoMod_fuel_mono; [exact Hs | lia].
    + reflexivity.
    + eapply findGoMod_fuel_sound. exact Hs.
  - destruct (Dir_cases dir) as [H | [H | [H _]]]; auto.
    right. right. split; [exact H|]. rewrite H. reflexivity.
  - intros Habs. destruct (Dir_rooted dir Habs) as [[H1 H2] | H]; auto.
    left. split; congruence.
Qed.

Lemma findGoMod_terminates_witness :
  findGoMod Sample.w0 "/w/app/pkg" = "/w/app" /\
  ((("/w/app/pkg" : string) = "/" /\ Filepath.Dir "/w/app/pkg" = "/w/app/pkg") \/
   String.length (Filepath.Dir "/w/app/pkg") < String.length "/w/app/pkg").
Proof.
  destruct (findGoMod_terminates Sample.w0 "/w/app/pkg") as (_ & _ & H).
  split; [vm_compute; reflexivity|]. apply H. reflexivity.
Defined.

Lemma rewrite_imports_fold (depList : list string) (prefix : string) :
  forall data,
  rewrite_imports depList prefix data
  = fold_left (fun text dep => ReplaceAll text dep (prefix +:+ "/" +:+ dep))
      (List.filter (fun dep => negb (is_empty dep)) depList) data.
Proof.
  induction depList as [|dep l IH]; intros data; [reflexivity|].
  cbn [rewrite_imports List.filter]. destruct (is_empty dep); simpl; apply IH.
Qed.

(** C2.  With a manifest that can be read and a root that exists, the
    rewriter ends without error and touches nothing but the files at and
    below the root whose path ends in [.go]: the text of each of them is
    the old text in which, for the entries of the manifest in turn, the
    empty ones being skipped, every occurrence of the entry has been
    replaced by the prefix, a slash and the entry.  [main] calls it with
    the import path joined with [jsonschema-gen] and [vendored] as the
    prefix.  Directories, files without the suffix and everything outside
    the root stay as they are. *)
Theorem renameImports_rewrites_go_files
    (w : world) (root importPath deps : string) :
  let prefix := Filepath.Join [importPath; tmpDirName; vendorDirName] in
  let depList := Split deps (String "010" "") in
  wf_keys w = true ->
  Os.ReadFile w (Filepath.Join [root; vendorDirName; depsFileName]) = Ok deps ->
  is_Some (files w !! Os.key w root) ->
  exists w',
    renameImports w root prefix = (w', None) /\
    cwd w' = cwd w /\ trace w' = trace w /\
    forall k,
      files w' !! k
      = match files w !! k with
        | Some (File data) =>
            if Os.within (Os.key w root) k && HasSuffix k ".go"
            then Some (File
                   (fold_left
                      (fun text dep =>
                         ReplaceAll text dep (prefix +:+ "/" +:+ dep))
                      (List.filter (fun dep => negb (is_empty dep)) depList)
                      data))
            else Some (File data)
        | other => other
        end.
Proof.
  intros prefix depList Hwf Hread Hroot.
  destruct (renameImports_pointwise depList prefix w root deps Hwf Hread
              eq_refl Hroot) as (w' & Hr & Hc & Ht & Hf).
  exists w'. split; [exact Hr|]. split; [exact Hc|]. split; [exact Ht|].
  intros k. rewrite Hf. unfold rename_node.
  destruct (files w !! k) as [[data|]|]; simpl;
    destruct (Os.within (Os.key w root) k); simpl; try reflexivity.
  destruct (HasSuffix k ".go"); [|reflexivity].
  rewrite rewrite_imports_fold. reflexivity.
Qed.

Lemma renameImports_rewrites_go_files_witness :
  let root := "/w/app/pkg/jsonschema-gen" in
  let prefix :=
    Filepath.Join ["example.com/app/pkg"; tmpDirName; vendorDirName] in
  exists w',
    renameImports Sample.materialized root prefix = (w', None) /\
    files w' !! "/w/app/pkg/jsonschema-gen/vendored/example.org/schema/reflect.go"
    = Some (File (Sample.text
        ["package schema";
         "import " +:+ Sample.quoted
           "example.com/app/pkg/jsonschema-gen/vendored/example.org/omap"])) /\
    files w' !! "/w/app/pkg/jsonschema-gen/vendored/example.org/schema/README.md"
    = Some (File "see example.org/omap") /\
    files w' !! "/w/app/pkg/models.go"
    = files Sample.materialized !! "/w/app/pkg/models.go".
Proof.
  intros root prefix.
  destruct (renameImports_rewrites_go_files Sample.materialized root
              "example.com/app/pkg"
              (Sample.text ["example.org/schema"; "example.org/omap"]))
    as (w' & Hr & _ & _ & Hf).
  - vm_compute. reflexivity.
  - vm_compute. reflexivity.
  - vm_compute. eexists. reflexivity.
  - exists w'. split; [exact Hr|]. rewrite !Hf.
    split; [vm_compute; reflexivity|].
    split; vm_compute; reflexivity.
Defined.

(** C3 as stated fails: when the name of a vendored dependency occurs in
    the import path of the target package, the import line of the entry
    point is rewritten with the rest.  Here the target lies in the module
    [example.org/schema/examples] and [example.org/schema] is in the
    manifest; the run is one whose child fails, so that the workspace can
    be inspected afterwards. *)
Lemma import_line_rewritten_when_it_holds_a_dependency :
  let e := Sample.env_with (Exited 2 "" "cannot find package") in
  let w := Sample.at_module (Sample.gomod "example.org/schema/examples" "1.20") in
  let i := describe_result "app/pkg/models.go" "User" w in
  let res := main e "app/pkg/models.go" "User" w in
  let line := "import target " +:+ Sample.quoted "example.org/schema/examples/pkg" in
  ImportName i = "example.org/schema/examples/pkg" /\
  occursb line (execute_template e i).1 = true /\
  files res.2 !! "/w/app/pkg/jsonschema-gen/main.go"
  = Some (File (Sample.text
      ["package main";
       "import " +:+ Sample.quoted
         ("example.org/schema/examples/pkg/jsonschema-gen/vendored/"
          +:+ "example.org/schema");
       "import target " +:+ Sample.quoted
         ("example.org/schema/examples/pkg/jsonschema-gen/vendored/"
          +:+ "example.org/schema/examples/pkg");
       "func main() { schema.Reflect(&target.User{}) }"])) /\
  (forall text,
     files res.2 !! "/w/app/pkg/jsonschema-gen/main.go" = Some (File text) ->
     occursb line text = false).
Proof.
  intros e w i res line.
  assert (Hfile : files res.2 !! "/w/app/pkg/jsonschema-gen/main.go"
    = Some (File (Sample.text
      ["package main";
       "import " +:+ Sample.quoted
         ("example.org/schema/examples/pkg/jsonschema-gen/vendored/"
          +:+ "example.org/schema");
       "import target " +:+ Sample.quoted
         ("example.org/schema/examples/pkg/jsonschema-gen/vendored/"
          +:+ "example.org/schema/examples/pkg");
       "func main() { schema.Reflect(&target.User{}) }"])))
    by (vm_compute; reflexivity).
  split; [vm_compute; reflexivity|]. split; [vm_compute; reflexivity|].
  split; [exact Hfile|].
  intros text Ht. rewrite Hfile in Ht. injection Ht as <-.
  vm_compute. reflexivity.
Qed.

Lemma free_of_dependencies_spec (deps line : string) :
  free_of_dependencies deps line = true ->
  Forall (fun dep => dep <> "" -> occursb dep line = false)
         (Split deps (String "010" "")).
Proof.
  unfold free_of_dependencies. rewrite forallb_forall. intros H.
  apply Forall_forall. intros dep Hin Hne.
  specialize (H dep (proj1 (list_elem_of_In _ _) Hin)).
  apply is_empty_false in Hne. rewrite Hne in H. simpl in H.
  destruct (occursb dep line); [discriminate | reflexivity].
Qed.

(** C3, amended.  The rewriter leaves a line of a [.go] file below the
    root as it is, byte for byte and between the same line feeds, when no
    non-empty entry of the manifest occurs in that line; the text before
    and the text after the line are rewritten on their own.  So the import
    line of the entry point keeps the import path of the target package
    unless a dependency name occurs in it. *)
Theorem line_without_dependency_is_untouched
    (w : world) (root prefix deps k pre line post : string) :
  let depList := Split deps (String "010" "") in
  wf_keys w = true ->
  Os.ReadFile w (Filepath.Join [root; vendorDirName; depsFileName]) = Ok deps ->
  Os.within (Os.key w root) k = true ->
  HasSuffix k ".go" = true ->
  files w !! k = Some (File (pre +:+ String LF (line +:+ String LF post))) ->
  is_Some (files w !! Os.key w root) ->
  free_of_dependencies deps line = true ->
  exists w',
    renameImports w root prefix = (w', None) /\
    files w' !! k
    = Some (File (rewrite_imports depList prefix pre
                  +:+ String LF (line
                  +:+ String LF (rewrite_imports depList prefix post)))).
Proof.
  intros depList Hwf Hread Hin Hgo Hk Hroot Hfree.
  destruct (renameImports_pointwise depList prefix w root deps Hwf Hread
              eq_refl Hroot) as (w' & Hr & _ & _ & Hf).
  exists w'. split; [exact Hr|].
  rewrite Hf, Hin, Hk. cbn [fmap option_fmap option_map rename_node].
  rewrite Hgo. do 2 f_equal.
  pose proof (Split_LF_has_byte deps) as Hlf. fold depList in Hlf.
  rewrite !rewrite_imports_LF by exact Hlf.
  rewrite (rewrite_imports_absent depList prefix line); [reflexivity|].
  apply free_of_dependencies_spec. exact Hfree.
Qed.

Lemma line_without_dependency_is_untouched_witness :
  let root := "/w/app/pkg/jsonschema-gen" in
  let prefix :=
    Filepath.Join ["example.com/app/pkg"; tmpDirName; vendorDirName] in
  let deps := Sample.text ["example.org/schema"; "example.org/omap"] in
  let depList := Split deps (String "010" "") in
  let pre := "package main" +:+ Sample.nl
             +:+ "import " +:+ Sample.quoted "example.org/schema" in
  let line := "import target " +:+ Sample.quoted "example.com/app/pkg" in
  let post := "func main() { schema.Reflect(&target.User{}) }" +:+ Sample.nl in
  exists w',
    renameImports Sample.materialized root prefix = (w', None) /\
    files w' !! "/w/app/pkg/jsonschema-gen/main.go"
    = Some (File (rewrite_imports depList prefix pre
                  +:+ String LF (line
                  +:+ String LF (rewrite_imports depList prefix post)))).
Proof.
  intros root prefix deps depList pre line post.
  apply (line_without_dependency_is_untouched Sample.materialized root prefix
           deps "/w/app/pkg/jsonschema-gen/main.go" pre line post).
  - vm_compute. reflexivity.
  - vm_compute. reflexivity.
  - vm_compute. reflexivity.
  - vm_compute. reflexivity.
  - vm_compute. reflexivity.
  - vm_compute. eexists. reflexivity.
  - vm_compute. reflexivity.
Defined.

End Claims.

(* ===================================================================== *)
(** * Cleaned absolute paths *)
(* ===================================================================== *)

Section CleanPaths.
Import Filepath.

Lemma valid_elem_spec (e : string) :
  valid_elem e = true ->
  e <> "" /\ has_byte Separator e = false /\ e <> "." /\ e <> "..".
Proof.
  unfold valid_elem. rewrite !andb_true_iff, !negb_true_iff.
  intros [[[H1 H2] H3] H4]. repeat split.
  - apply is_empty_false. exact H1.
  - exact H2.
  - apply String.eqb_neq. exact H3.
  - apply String.eqb_neq. exact H4.
Qed.

Lemma split_on_app_sep_gen (c : ascii) (a b : string) :
  split_on c (a +:+ String c b) = split_on c a ++ split_on c b.
Proof.
  induction a as [|x a IH].
  - rewrite str_app_nil_l. cbn [split_on]. rewrite Ascii.eqb_refl. reflexivity.
  - rewrite str_app_cons. cbn [split_on]. destruct (Ascii.eqb x c).
    + rewrite IH. reflexivity.
    + rewrite IH. destruct (split_on c a) as [|h t] eqn:Hs.
      * exfalso. eapply split_on_nonempty; eauto.
      * reflexivity.
Qed.

Lemma split_on_sep_free (c : ascii) (e : string) :
  has_byte c e = false -> split_on c e = [e].
Proof.
  induction e as [|x e IH]; intros H; [reflexivity|].
  cbn [has_byte] in H. apply orb_false_iff in H as [Hx He].
  cbn [split_on]. rewrite Hx, (IH He). reflexivity.
Qed.

Lemma Join_cons2 (e e' : string) (l : list string) (sep : string) :
  GoStrings.Join (e :: e' :: l) sep = e +:+ sep +:+ GoStrings.Join (e' :: l) sep.
Proof. reflexivity. Qed.

(** Splitting a joined list of separator-free pieces gives the pieces
    back (one empty piece for the empty list). *)
Lemma split_on_Join (l : list string) :
  Forall (fun e => has_byte Separator e = false) l ->
  split_on Separator (GoStrings.Join l "/")
  = match l with [] => [""] | _ => l end.
Proof.
  induction 1 as [|e l He Hl IH]; [reflexivity|].
  destruct l as [|e' l'].
  - apply split_on_sep_free. exact He.
  - rewrite Join_cons2.
    change (e +:+ "/" +:+ GoStrings.Join (e' :: l') "/")
      with (e +:+ String Separator (GoStrings.Join (e' :: l') "/")).
    rewrite split_on_app_sep_gen, split_on_sep_free by exact He.
    rewrite IH. reflexivity.
Qed.

(** Joining the pieces of a split gives the string back. *)
Lemma Join_split_on (c : ascii) (s : string) :
  GoStrings.Join (split_on c s) (String c "") = s.
Proof.
  induction s as [|x s IH]; [reflexivity|].
  cbn [split_on]. destruct (Ascii.eqb x c) eqn:Hx.
  - apply Ascii.eqb_eq in Hx. subst x.
    destruct (split_on c s) as [|h t] eqn:Hs.
    + exfalso. eapply split_on_nonempty; eauto.
    + rewrite Join_cons2, IH. reflexivity.
  - destruct (split_on c s) as [|h t] eqn:Hs.
    + exfalso. eapply split_on_nonempty; eauto.
    + destruct t as [|h' t'].
      * simpl in *. subst. reflexivity.
      * rewrite Join_cons2 in *. rewrite <- IH. reflexivity.
Qed.


Lemma clean_step_valid (rooted : bool) (out : list string) (e : string) :
  valid_elem e = true -> clean_step rooted out e = e :: out.
Proof.
  intros H. apply valid_elem_spec in H as (H1 & _ & H3 & H4).
  unfold clean_step.
  apply is_empty_false in H1. apply String.eqb_neq in H3, H4.
  rewrite H1, H3, H4. reflexivity.
Qed.

Lemma clean_step_skipped (rooted : bool) (out : list string) (e : string) :
  skipped e -> clean_step rooted out e = out.
Proof. intros [-> | ->]; reflexivity. Qed.

Lemma clean_fold_valid (rooted : bool) (l : list string) :
  Forall (fun e => skipped e \/ valid_elem e = true) l ->
  forall out,
  fold_left (clean_step rooted) l out = rev (List.filter valid_elem l) ++ out.
Proof.
  induction 1 as [|e l He Hl IH]; intros out; [reflexivity|].
  cbn [fold_left List.filter]. destruct He as [He | He].
  - rewrite clean_step_skipped by exact He.
    assert (valid_elem e = false) as -> by (destruct He as [-> | ->]; reflexivity).
    apply IH.
  - rewrite clean_step_valid, He by exact He. rewrite IH. cbn [rev].
    rewrite <- app_assoc. reflexivity.
Qed.

Lemma filter_valid_all (l : list string) :
  Forall (fun e => valid_elem e = true) l -> List.filter valid_elem l = l.
Proof.
  induction 1 as [|e l He Hl IH]; [reflexivity|].
  cbn [List.filter]. rewrite He, IH. reflexivity.
Qed.

Lemma valid_sep_free (l : list string) :
  Forall (fun e => valid_elem e = true) l ->
  Forall (fun e => has_byte Separator e = false) l.
Proof.
  intros H. eapply Forall_impl; [exact H|].
  intros e He. apply valid_elem_spec in He. tauto.
Qed.

Lemma pieces_clean (l : list string) :
  Forall (fun e => valid_elem e = true) l ->
  Forall (fun e => skipped e \/ valid_elem e = true)
         (match l with [] => [""] | _ => l end) /\
  List.filter valid_elem (match l with [] => [""] | _ => l end) = l.
Proof.
  intros H. destruct l as [|e l].
  - split; [|reflexivity]. repeat constructor.
  - split; [|apply filter_valid_all; exact H].
    eapply Forall_impl; [exact H|]. auto.
Qed.

(** Cleaning the concatenation of an absolute path and a relative one,
    both made of proper elements. *)
Lemma Clean_abs_rel (d p : list string) :
  Forall (fun e => valid_elem e = true) d ->
  Forall (fun e => valid_elem e = true) p ->
  Clean (abs_path d +:+ "/" +:+ GoStrings.Join p "/") = abs_path (d ++ p).
Proof.
  intros Hd Hp. unfold Clean, abs_path.
  rewrite !str_app_cons, !str_app_nil_l. cbn [is_empty].
  change (IsAbs (String "/" ?x)) with true. cbv iota.
  unfold clean_elems. cbn [split_on].
  change (Ascii.eqb "/" Separator) with true. cbv iota.
  change (GoStrings.Join d "/" +:+ "/" +:+ GoStrings.Join p "/")
    with (GoStrings.Join d "/" +:+ String Separator (GoStrings.Join p "/")).
  rewrite split_on_app_sep_gen.
  rewrite !split_on_Join by (apply valid_sep_free; assumption).
  destruct (pieces_clean d Hd) as [Hd1 Hd2].
  destruct (pieces_clean p Hp) as [Hp1 Hp2].
  cbn [fold_left]. change (clean_step true [] "") with (@nil string).
  rewrite clean_fold_valid by (apply Forall_app; split; assumption).
  rewrite List.filter_app, Hd2, Hp2, app_nil_r, rev_involutive.
  reflexivity.
Qed.



Lemma Clean_abs_path (cs : list string) :
  proper cs -> Clean (abs_path cs) = abs_path cs.
Proof.
  intros H. pose proof (Clean_abs_rel [] cs ltac:(constructor) H) as E.
  change (abs_path [] +:+ "/" +:+ GoStrings.Join cs "/")
    with (String "/" (abs_path cs)) in E.
  rewrite <- E at 2. unfold Clean. cbn [is_empty].
  change (IsAbs (String "/" ?x)) with true. cbv iota.
  unfold clean_elems. cbn [split_on].
  change (Ascii.eqb "/" Separator) with true. cbv iota.
  cbn [fold_left]. change (clean_step true [] "") with (@nil string).
  reflexivity.
Qed.

Lemma abs_path_nonempty (cs : list string) : is_empty (abs_path cs) = false.
Proof. reflexivity. Qed.

Lemma IsAbs_abs_path (cs : list string) : IsAbs (abs_path cs) = true.
Proof. reflexivity. Qed.

(** [filepath.Join] of a cleaned absolute path and a relative path of
    proper elements appends the elements. *)
Lemma Join_abs_rel (d p : list string) :
  proper d -> proper p ->
  Filepath.Join [abs_path d; GoStrings.Join p "/"] = abs_path (d ++ p).
Proof.
  intros Hd Hp. unfold Filepath.Join. rewrite abs_path_nonempty.
  change (GoStrings.Join [abs_path d; GoStrings.Join p "/"] "/")
    with (abs_path d +:+ "/" +:+ GoStrings.Join p "/").
  apply Clean_abs_rel; assumption.
Qed.

Lemma Join_abs_elem (d : list string) (x : string) :
  proper d -> valid_elem x = true ->
  Filepath.Join [abs_path d; x] = abs_path (d ++ [x]).
Proof.
  intros Hd Hx. apply (Join_abs_rel d [x] Hd). repeat constructor. exact Hx.
Qed.

Lemma Join_abs_dot (d : list string) :
  proper d -> Filepath.Join [abs_path d; "."] = abs_path d.
Proof.
  intros Hd. unfold Filepath.Join. rewrite abs_path_nonempty.
  change (GoStrings.Join [abs_path d; "."] "/")
    with (abs_path d +:+ "/" +:+ ".").
  unfold Clean, abs_path.
  rewrite !str_app_cons, !str_app_nil_l. cbn [is_empty].
  change (IsAbs (String "/" ?x)) with true. cbv iota.
  unfold clean_elems. cbn [split_on].
  change (Ascii.eqb "/" Separator) with true. cbv iota.
  change (GoStrings.Join d "/" +:+ "/" +:+ ".")
    with (GoStrings.Join d "/" +:+ String Separator ".").
  rewrite split_on_app_sep_gen.
  rewrite split_on_Join by (apply valid_sep_free; assumption).
  destruct (pieces_clean d Hd) as [Hd1 Hd2].
  cbn [fold_left]. change (clean_step true [] "") with (@nil string).
  rewrite clean_fold_valid.
  - rewrite List.filter_app, Hd2. cbn. rewrite app_nil_r, app_nil_r, rev_involutive.
    reflexivity.
  - apply Forall_app. split; [exact Hd1|].
    constructor; [left; right; reflexivity | constructor].
Qed.

Lemma Join_snoc (l : list string) (x sep : string) :
  l <> [] ->
  GoStrings.Join (l ++ [x]) sep = GoStrings.Join l sep +:+ sep +:+ x.
Proof.
  induction l as [|e l IH]; [congruence|]. intros _.
  destruct l as [|e' l'].
  - reflexivity.
  - change ((e :: e' :: l') ++ [x]) with (e :: (e' :: l') ++ [x]).
    change ((e' :: l') ++ [x]) with (e' :: l' ++ [x]).
    rewrite Join_cons2.
    change (e' :: l' ++ [x]) with ((e' :: l') ++ [x]).
    rewrite IH by discriminate. rewrite Join_cons2, !str_app_assoc.
    reflexivity.
Qed.

Lemma has_sep_has_byte (s : string) : has_sep s = has_byte Separator s.
Proof. induction s as [|c s IH]; [reflexivity|]. cbn. rewrite IH. reflexivity. Qed.

Lemma upto_last_sep_free (x : string) :
  has_byte Separator x = false -> upto_last_sep x = "".
Proof.
  intros H. destruct x as [|c x]; [reflexivity|].
  cbn [upto_last_sep]. rewrite has_sep_has_byte, H. reflexivity.
Qed.

Lemma has_sep_app_sep (s x : string) :
  has_sep (s +:+ String Separator x) = true.
Proof.
  induction s as [|c s IH].
  - rewrite str_app_nil_l. cbn. reflexivity.
  - rewrite str_app_cons. cbn [has_sep]. rewrite IH. apply orb_true_r.
Qed.

Lemma upto_last_sep_app (s x : string) :
  has_byte Separator x = false ->
  upto_last_sep (s +:+ String Separator x) = s +:+ "/".
Proof.
  intros Hx. induction s as [|c s IH].
  - rewrite str_app_nil_l. cbn [upto_last_sep has_sep].
    rewrite Ascii.eqb_refl. cbn [orb]. rewrite upto_last_sep_free by exact Hx.
    reflexivity.
  - rewrite str_app_cons.
    change (upto_last_sep (String c (s +:+ String Separator x)))
      with (if has_sep (String c (s +:+ String Separator x))
            then String c (upto_last_sep (s +:+ String Separator x)) else "").
    cbn [has_sep]. rewrite has_sep_app_sep, orb_true_r, IH. reflexivity.
Qed.

(** The parent of a cleaned absolute path drops its last element. *)
Lemma Dir_abs_snoc (cs : list string) (x : string) :
  proper cs -> valid_elem x = true ->
  Dir (abs_path (cs ++ [x])) = abs_path cs.
Proof.
  intros Hcs Hx. apply valid_elem_spec in Hx as (_ & Hx & _).
  unfold Dir. destruct cs as [|c cs].
  - change (abs_path ([] ++ [x])) with ("" +:+ String Separator x).
    rewrite upto_last_sep_app by exact Hx. reflexivity.
  - unfold abs_path at 1. rewrite Join_snoc by discriminate.
    rewrite <- str_app_assoc.
    change (("/" +:+ GoStrings.Join (c :: cs) "/") +:+ "/" +:+ x)
      with (abs_path (c :: cs) +:+ String Separator x).
    rewrite upto_last_sep_app by exact Hx.
    rewrite Clean_trailing_sep by discriminate.
    apply Clean_abs_path. exact Hcs.
Qed.

Lemma Dir_abs_root : Dir (abs_path []) = abs_path [].
Proof. reflexivity. Qed.

Lemma proper_snoc (cs : list string) (x : string) :
  proper (cs ++ [x]) <-> proper cs /\ valid_elem x = true.
Proof.
  rewrite Forall_app. split.
  - intros [H1 H2]. split; [exact H1|]. inversion H2. assumption.
  - intros [H1 H2]. split; [exact H1|]. repeat constructor. exact H2.
Qed.

Lemma Join_proper_nonempty (cs : list string) :
  proper cs -> cs <> [] -> GoStrings.Join cs "/" <> "".
Proof.
  intros H Hne. destruct cs as [|c cs]; [congruence|].
  inversion H as [|? ? Hc _]. apply valid_elem_spec in Hc as (Hc & _).
  destruct c; [congruence|]. destruct cs; discriminate.
Qed.

Lemma abs_path_inj (a b : list string) :
  proper a -> proper b -> abs_path a = abs_path b -> a = b.
Proof.
  intros Ha Hb H. unfold abs_path in H.
  rewrite !str_app_cons, !str_app_nil_l in H. injection H as H.
  pose proof (split_on_Join a (valid_sep_free a Ha)) as Sa.
  pose proof (split_on_Join b (valid_sep_free b Hb)) as Sb.
  rewrite H in Sa. rewrite Sa in Sb.
  destruct a as [|x a], b as [|y b]; try reflexivity.
  - exfalso. inversion Sb; subst. inversion Hb as [|? ? Hy _]. discriminate.
  - exfalso. inversion Sb; subst. inversion Ha as [|? ? Hx _]. discriminate.
  - exact Sb.
Qed.

Lemma clean_step_proper (out : list string) (e : string) :
  proper out -> has_byte Separator e = false ->
  proper (clean_step true out e).
Proof.
  intros Hout He. unfold clean_step.
  destruct (is_empty e) eqn:E1; [exact Hout|].
  destruct (String.eqb e ".") eqn:E2; [exact Hout|]. cbn [orb].
  destruct (String.eqb e "..") eqn:E3.
  - destruct out as [|top rest]; [constructor|].
    inversion Hout as [|? ? Ht Hr]. subst.
    destruct (String.eqb top "..") eqn:E4; [|exact Hr].
    apply valid_elem_spec in Ht as (_ & _ & _ & Ht).
    apply String.eqb_eq in E4. contradiction.
  - constructor; [|exact Hout]. unfold valid_elem.
    rewrite E1, He, E2, E3. reflexivity.
Qed.

(** Cleaning a rooted path gives a cleaned absolute path. *)
Lemma Clean_rooted (s : string) :
  IsAbs s = true -> exists cs, proper cs /\ Clean s = abs_path cs.
Proof.
  intros Habs. unfold Clean. rewrite Habs.
  destruct (is_empty s) eqn:He; [destruct s; discriminate|].
  exists (rev (clean_elems true s)). split; [|reflexivity].
  apply Forall_rev. unfold clean_elems.
  assert (Hgen : forall l out,
            Forall (fun e => has_byte Separator e = false) l ->
            proper out -> proper (fold_left (clean_step true) l out)).
  { induction l as [|e l IH]; intros out Hl Hout; [exact Hout|].
    inversion Hl. subst. cbn [fold_left]. apply IH; [assumption|].
    apply clean_step_proper; assumption. }
  apply Hgen; [|constructor].
  apply Forall_forall. intros x Hx. eapply split_on_has_byte. exact Hx.
Qed.

Lemma Abs_rooted (cwd path : string) :
  IsAbs cwd = true -> exists cs, proper cs /\ Abs cwd path = abs_path cs.
Proof.
  intros Hcwd. unfold Abs. destruct (IsAbs path) eqn:Hp.
  - apply Clean_rooted. exact Hp.
  - unfold Filepath.Join.
    destruct (is_empty cwd) eqn:He; [destruct cwd; discriminate|].
    apply Clean_rooted. destruct cwd as [|c cwd]; [discriminate|].
    destruct path; exact Hcwd.
Qed.

Lemma Abs_abs_path (cwd : string) (cs : list string) :
  proper cs -> Abs cwd (abs_path cs) = abs_path cs.
Proof. intros H. unfold Abs. rewrite IsAbs_abs_path. apply Clean_abs_path. exact H. Qed.

Lemma key_abs_path (w : world) (cs : list string) :
  proper cs -> Os.key w (abs_path cs) = abs_path cs.
Proof. apply Abs_abs_path. Qed.

Lemma key_idem (w : world) (name : string) :
  IsAbs (cwd w) = true -> Os.key w (Os.key w name) = Os.key w name.
Proof.
  intros H. unfold Os.key.
  destruct (Abs_rooted (cwd w) name H) as (cs & Hcs & E).
  rewrite E. apply Abs_abs_path. exact Hcs.
Qed.

Lemma HasPrefix_app (p s : string) : HasPrefix (p +:+ s) p = true.
Proof.
  induction p as [|c p IH]; [reflexivity|].
  rewrite str_app_cons. cbn [HasPrefix]. rewrite Ascii.eqb_refl. exact IH.
Qed.

(** A path is within each of its prefixes. *)
Lemma within_abs_path (r rel : list string) :
  proper r -> Os.within (abs_path r) (abs_path (r ++ rel)) = true.
Proof.
  intros Hr. unfold Os.within. destruct rel as [|x rel].
  - rewrite app_nil_r, String.eqb_refl. reflexivity.
  - apply orb_true_iff. right. destruct r as [|c r].
    + reflexivity.
    + assert (String.eqb (abs_path (c :: r)) "/" = false) as ->.
      { apply String.eqb_neq. unfold abs_path.
        rewrite str_app_cons, str_app_nil_l. intros H. injection H as H.
        eapply Join_proper_nonempty; [exact Hr | discriminate | exact H]. }
      assert (E : abs_path ((c :: r) ++ x :: rel)
                  = (abs_path (c :: r) +:+ "/") +:+ GoStrings.Join (x :: rel) "/").
      { unfold abs_path. rewrite !str_app_assoc. f_equal.
        clear. induction r as [|e r IH] in c |- *.
        - reflexivity.
        - change ((c :: e :: r) ++ x :: rel) with (c :: (e :: r) ++ x :: rel).
          change ((e :: r) ++ x :: rel) with (e :: r ++ x :: rel).
          rewrite !Join_cons2.
          change (e :: r ++ x :: rel) with ((e :: r) ++ x :: rel).
          rewrite IH, !str_app_assoc. reflexivity. }
      rewrite E. apply HasPrefix_app.
Qed.

End CleanPaths.

(* ===================================================================== *)
(** * What stays outside a directory *)
(* ===================================================================== *)

Section Outside.

Lemma outside_refl (root : string) (fs : gmap string node) :
  outside_same root fs fs.
Proof. intros k _. reflexivity. Qed.

Lemma outside_trans (root : string) (a b c : gmap string node) :
  outside_same root a b -> outside_same root b c -> outside_same root a c.
Proof. intros H1 H2 k Hk. rewrite (H2 k Hk). apply H1. exact Hk. Qed.

Lemma outside_insert (root k : string) (n : node) (fs : gmap string node) :
  Os.within root k = true -> outside_same root fs (<[k := n]> fs).
Proof.
  intros Hk k' Hk'. apply lookup_insert_ne. intros ->. congruence.
Qed.

Lemma keys_abs_insert (fs : gmap string node) (cs : list string) (n : node) :
  proper cs -> keys_abs fs -> keys_abs (<[abs_path cs := n]> fs).
Proof.
  intros Hcs H k n' Hk. destruct (decide (abs_path cs = k)) as [<-|Hne].
  - eauto.
  - rewrite lookup_insert_ne in Hk by exact Hne. eauto.
Qed.

Lemma wf_keys_abs (w : world) :
  Filepath.IsAbs (cwd w) = true -> wf_keys w = true -> keys_abs (files w).
Proof.
  intros Hcwd Hwf k n Hk. pose proof (wf_keys_spec w k n Hwf Hk) as E.
  unfold Os.key in E.
  destruct (Abs_rooted (cwd w) k Hcwd) as (cs & Hcs & E').
  exists cs. split; [exact Hcs | congruence].
Qed.

Lemma keys_abs_wf (w : world) : keys_abs (files w) -> wf_keys w = true.
Proof.
  intros H. unfold wf_keys. apply forallb_forall. intros [k n] Hin.
  apply list_elem_of_In, elem_of_map_to_list in Hin.
  destruct (H k n Hin) as (cs & Hcs & ->). cbn [fst].
  apply String.eqb_eq. apply key_abs_path. exact Hcs.
Qed.

Lemma wf_tree_spec (w : world) (k : string) (n : node) :
  wf_tree w = true -> files w !! k = Some n ->
  files w !! Filepath.Dir k = Some Directory.
Proof.
  unfold wf_tree. rewrite forallb_forall. intros H Hk.
  specialize (H (k, n)). cbn [fst] in H.
  destruct (files w !! Filepath.Dir k) as [[?|]|].
  - discriminate H. apply list_elem_of_In, elem_of_map_to_list. exact Hk.
  - reflexivity.
  - discriminate H. apply list_elem_of_In, elem_of_map_to_list. exact Hk.
Qed.

Lemma snapshot_clean_spec (e : env) (p : string) (n : node) :
  snapshot_clean e = true -> embedFS e !! p = Some n ->
  exists pc, proper pc /\ p = GoStrings.Join pc "/".
Proof.
  unfold snapshot_clean. rewrite forallb_forall. intros H Hp.
  specialize (H (p, n)). cbn [fst] in H.
  exists (split_on Filepath.Separator p). split.
  - apply Forall_forall. intros x Hx.
    assert (Hall : forallb valid_elem (split_on Filepath.Separator p) = true).
    { apply H. apply list_elem_of_In, elem_of_map_to_list. exact Hp. }
    rewrite forallb_forall in Hall. apply Hall. apply list_elem_of_In. exact Hx.
  - symmetry. apply (Join_split_on Filepath.Separator).
Qed.

(** [WriteFile] changes at most the node of its own key. *)
Lemma WriteFile_files (w : world) (name data : string) :
  files (Os.WriteFile w name data).1 = files w \/
  files (Os.WriteFile w name data).1
  = <[Os.key w name := File data]> (files w).
Proof.
  unfold Os.WriteFile.
  destruct (files w !! Os.key w name) as [[old|]|]; cbn; auto.
  destruct (files w !! Filepath.Dir (Os.key w name)) as [[?|]|]; cbn; auto.
Qed.

Lemma WriteFile_outside (root : string) (w : world) (name data : string) :
  Os.within root (Os.key w name) = true ->
  outside_same root (files w) (files (Os.WriteFile w name data).1).
Proof.
  intros H. destruct (WriteFile_files w name data) as [-> | ->].
  - apply outside_refl.
  - apply outside_insert. exact H.
Qed.

Lemma WriteFile_keys_abs (w : world) (name data : string) :
  Filepath.IsAbs (cwd w) = true -> keys_abs (files w) ->
  keys_abs (files (Os.WriteFile w name data).1).
Proof.
  intros Hcwd H. destruct (WriteFile_files w name data) as [-> | ->];
    [exact H|].
  unfold Os.key. destruct (Abs_rooted (cwd w) name Hcwd) as (cs & Hcs & ->).
  apply keys_abs_insert; assumption.
Qed.

(** [MkdirAll] never changes a node that is there. *)
Lemma MkdirAll_fuel_keeps (fuel : nat) :
  forall fs k k' n, fs !! k' = Some n ->
  (Os.MkdirAll_fuel fuel fs k).1 !! k' = Some n.
Proof.
  induction fuel as [|f IH]; intros fs k k' n Hk'.
  - cbn. destruct (fs !! k) as [[?|]|]; exact Hk'.
  - rewrite MkdirAll_fuel_S. destruct (fs !! k) as [[?|]|] eqn:Hk;
      try exact Hk'.
    destruct (String.eqb (Filepath.Dir k) k).
    + cbn. rewrite lookup_insert_ne; [exact Hk' | congruence].
    + specialize (IH fs (Filepath.Dir k) k' n Hk').
      destruct (Os.MkdirAll_fuel f fs (Filepath.Dir k)) as [fs' [err|]];
        cbn in *; [exact IH|].
      destruct (decide (k = k')) as [<-|Hne].
      * assert (fs !! k = Some n) by exact Hk'. congruence.
      * rewrite lookup_insert_ne by exact Hne. exact IH.
Qed.

(** Below an existing directory [MkdirAll] changes nothing outside that
    directory. *)
Lemma MkdirAll_fuel_outside (r : list string) (fuel : nat) :
  proper r ->
  forall fs rel, proper rel -> fs !! abs_path r = Some Directory ->
  outside_same (abs_path r) fs
    (Os.MkdirAll_fuel fuel fs (abs_path (r ++ rel))).1.
Proof.
  intros Hr. induction fuel as [|f IH]; intros fs rel Hrel Hroot.
  - cbn. destruct (fs !! abs_path (r ++ rel)) as [[?|]|]; apply outside_refl.
  - rewrite MkdirAll_fuel_S.
    destruct (fs !! abs_path (r ++ rel)) as [[?|]|] eqn:Hk;
      try apply outside_refl.
    assert (Hin : Os.within (abs_path r) (abs_path (r ++ rel)) = true)
      by (apply within_abs_path; exact Hr).
    destruct (String.eqb _ _); [apply outside_insert; exact Hin|].
    destruct rel as [|x rel' _] using rev_ind.
    { rewrite app_nil_r in Hk. congruence. }
    apply proper_snoc in Hrel as [Hrel' Hx].
    rewrite app_assoc, Dir_abs_snoc by (try apply Forall_app; auto).
    specialize (IH fs rel' Hrel' Hroot).
    destruct (Os.MkdirAll_fuel f fs (abs_path (r ++ rel'))) as [fs' [err|]];
      cbn in *; [exact IH|].
    eapply outside_trans; [exact IH|]. apply outside_insert.
    rewrite <- app_assoc. exact Hin.
Qed.

Lemma MkdirAll_fuel_keys_abs (fuel : nat) :
  forall fs cs, proper cs -> keys_abs fs ->
  keys_abs (Os.MkdirAll_fuel fuel fs (abs_path cs)).1.
Proof.
  induction fuel as [|f IH]; intros fs cs Hcs H.
  - cbn. destruct (fs !! _) as [[?|]|]; exact H.
  - rewrite MkdirAll_fuel_S. destruct (fs !! abs_path cs) as [[?|]|];
      try exact H.
    destruct (String.eqb _ _); [apply keys_abs_insert; assumption|].
    assert (Hparent : exists cs', proper cs' /\
              Filepath.Dir (abs_path cs) = abs_path cs').
    { destruct cs as [|x cs' _] using rev_ind.
      - exists []. split; [constructor | reflexivity].
      - apply proper_snoc in Hcs as [Hcs' Hx]. exists cs'.
        split; [exact Hcs' | apply Dir_abs_snoc; assumption]. }
    destruct Hparent as (cs' & Hcs' & ->).
    specialize (IH fs cs' Hcs' H).
    destruct (Os.MkdirAll_fuel f fs (abs_path cs')) as [fs' [err|]];
      cbn in *; [exact IH|].
    apply keys_abs_insert; assumption.
Qed.

End Outside.

(* ===================================================================== *)
(** * The stages of the preparation, below the workspace *)
(* ===================================================================== *)

Section StagesFrame.

Variables (c0 : string) (d : list string).
Hypothesis Hc0 : Filepath.IsAbs c0 = true.
Hypothesis Hd : proper d.

Lemma visit_preserves
    (fn : string -> node -> world -> world * option string)
    (I : world -> Prop) (R : world -> world -> Prop)
    (Q : string * node -> Prop) :
  (forall w, R w w) ->
  (forall a b c, R a b -> R b c -> R a c) ->
  (forall p n w, Q (p, n) -> I w -> I (fn p n w).1 /\ R w (fn p n w).1) ->
  forall l w, Forall Q l -> I w ->
  I (Walk.visit fn l w).1 /\ R w (Walk.visit fn l w).1.
Proof.
  intros Hrefl Htrans Hstep. induction l as [|[p n] l IH]; intros w Hl Hw.
  - split; [exact Hw | apply Hrefl].
  - inversion Hl as [|? ? Hq Hl']. subst. cbn [Walk.visit].
    destruct (Hstep p n w Hq Hw) as [Hi Hr].
    destruct (fn p n w) as [w1 [err|]]; cbn in *.
    + split; assumption.
    + destruct (IH w1 Hl' Hi) as [Hi' Hr']. split; [exact Hi'|].
      eapply Htrans; eauto.
Qed.

Lemma MkdirAll_settled (w : world) (rel : list string) :
  proper rel -> settled c0 d w ->
  settled c0 d (Os.MkdirAll w (abs_path (d ++ rel))).1 /\
  outside_same (abs_path d) (files w)
    (files (Os.MkdirAll w (abs_path (d ++ rel))).1).
Proof.
  intros Hrel (Hc & Hdir & Hk). unfold Os.MkdirAll.
  assert (Hp : proper (d ++ rel)) by (apply Forall_app; auto).
  rewrite (key_abs_path w _ Hp).
  pose proof (MkdirAll_fuel_outside d
    (S (S (String.length (abs_path (d ++ rel))))) Hd (files w) rel Hrel Hdir)
    as Ho.
  pose proof (MkdirAll_fuel_keys_abs
    (S (S (String.length (abs_path (d ++ rel))))) (files w) _ Hp Hk) as Hk'.
  pose proof (MkdirAll_fuel_keeps
    (S (S (String.length (abs_path (d ++ rel))))) (files w)
    (abs_path (d ++ rel)) _ _ Hdir) as Hdir'.
  destruct (Os.MkdirAll_fuel _ _ _) as [fs err]. cbn in *.
  repeat split; assumption.
Qed.

Lemma WriteFile_settled (w : world) (rel : list string) (data : string) :
  proper rel -> settled c0 d w ->
  settled c0 d (Os.WriteFile w (abs_path (d ++ rel)) data).1 /\
  outside_same (abs_path d) (files w)
    (files (Os.WriteFile w (abs_path (d ++ rel)) data).1).
Proof.
  intros Hrel (Hc & Hdir & Hk).
  assert (Hp : proper (d ++ rel)) by (apply Forall_app; auto).
  pose proof (WriteFile_quiet w (abs_path (d ++ rel)) data) as Q.
  split; [split; [|split]|].
  - destruct Q as (Q1 & _). congruence.
  - eapply quiet_directory; eauto.
  - apply WriteFile_keys_abs; [congruence | exact Hk].
  - apply WriteFile_outside. rewrite (key_abs_path w _ Hp).
    apply within_abs_path. exact Hd.
Qed.

(** A target of [copyDeps]: the destination joined with the root [.] or
    with a path of the snapshot. *)
Lemma copy_target (p : string) :
  p = "." \/ (exists pc, proper pc /\ p = GoStrings.Join pc "/") ->
  exists rel, proper rel /\ Filepath.Join [abs_path d; p] = abs_path (d ++ rel).
Proof.
  intros [-> | (pc & Hpc & ->)].
  - exists []. split; [constructor|]. rewrite app_nil_r.
    apply Join_abs_dot. exact Hd.
  - exists pc. split; [exact Hpc|]. apply Join_abs_rel; assumption.
Qed.

Lemma copyDeps_fn_settled (e : env) (p : string) (n : node) (w : world) :
  p = "." \/ (exists pc, proper pc /\ p = GoStrings.Join pc "/") ->
  settled c0 d w ->
  settled c0 d (copyDeps_fn e (abs_path d) p n w).1 /\
  outside_same (abs_path d) (files w)
    (files (copyDeps_fn e (abs_path d) p n w).1).
Proof.
  intros Hp Hw. destruct (copy_target p Hp) as (rel & Hrel & E).
  unfold copyDeps_fn. rewrite E. destruct n as [data0|].
  - destruct (embedFS e !! p) as [[data|]|]; cbn;
      try (split; [exact Hw | apply outside_refl]).
    apply WriteFile_settled; assumption.
  - apply MkdirAll_settled; assumption.
Qed.

Lemma snapshot_entries (e : env) (x : string * node) :
  x ∈ merge_sort Walk.visit_le (map_to_list (embedFS e)) <->
  embedFS e !! x.1 = Some x.2.
Proof.
  rewrite merge_sort_Permutation. destruct x as [p n].
  apply elem_of_map_to_list.
Qed.

Lemma copyDeps_settled (e : env) (w : world) :
  snapshot_clean e = true -> settled c0 d w ->
  settled c0 d (copyDeps e w (abs_path d)).1 /\
  outside_same (abs_path d) (files w) (files (copyDeps e w (abs_path d)).1).
Proof.
  intros Hsnap Hw. unfold copyDeps.
  apply (visit_preserves (copyDeps_fn e (abs_path d)) (settled c0 d)
           (fun a b => outside_same (abs_path d) (files a) (files b))
           (fun x => x.1 = "." \/
                     exists pc, proper pc /\ x.1 = GoStrings.Join pc "/")).
  - intros a. apply outside_refl.
  - intros a b c. apply outside_trans.
  - intros p n w1 Hq Hw1. apply copyDeps_fn_settled; assumption.
  - constructor; [left; reflexivity|].
    apply Forall_forall. intros [p n] Hin. right.
    apply snapshot_entries in Hin. eapply snapshot_clean_spec; eauto.
  - exact Hw.
Qed.

End StagesFrame.

(* ===================================================================== *)
(** * Runs and the workspace *)
(* ===================================================================== *)

Section WorkspaceFrame.

Local Arguments Filepath.IsAbs : simpl never.
Local Arguments abs_path : simpl never.

Lemma valid_tmpDirName : valid_elem tmpDirName = true.
Proof. reflexivity. Qed.

Lemma Dir_abs_proper (cs : list string) :
  proper cs ->
  exists cs', proper cs' /\ Filepath.Dir (abs_path cs) = abs_path cs'.
Proof.
  intros Hcs. destruct cs as [|x cs' _] using rev_ind.
  - exists []. split; [constructor | reflexivity].
  - apply proper_snoc in Hcs as [Hcs' Hx]. exists cs'.
    split; [exact Hcs' | apply Dir_abs_snoc; assumption].
Qed.

(** The directory of the target, the workspace and the entry point as
    cleaned absolute paths. *)
Lemma workspace_paths (w : world) (filePath : string) :
  Filepath.IsAbs (cwd w) = true ->
  exists d, proper d /\
    Filepath.Dir (Filepath.Abs (cwd w) filePath) = abs_path d /\
    workspace w filePath = abs_path (d ++ [tmpDirName]) /\
    entry_point w filePath = abs_path ((d ++ [tmpDirName]) ++ ["main.go"]).
Proof.
  intros Hcwd. destruct (Abs_rooted (cwd w) filePath Hcwd) as (cs & Hcs & E).
  destruct (Dir_abs_proper cs Hcs) as (d & Hd & E').
  exists d. split; [exact Hd|]. rewrite E. split; [exact E'|].
  unfold entry_point, workspace. rewrite E, E'.
  rewrite (Join_abs_elem d tmpDirName Hd valid_tmpDirName).
  split; [reflexivity|].
  apply Join_abs_elem; [|reflexivity].
  apply proper_snoc. split; [exact Hd | reflexivity].
Qed.

Lemma describe_Return_file (filePath symbolName : string) (w w' : world)
    (r : importInfo * string) :
  describe filePath symbolName w = (Return r, w') ->
  exists n, files w !! Os.key w (Filepath.Abs (cwd w) filePath) = Some n.
Proof.
  rewrite describe_unfold. cbv zeta. unfold parsePkgName.
  destruct (files w !! Os.key w (Filepath.Abs (cwd w) filePath)) as [n|];
    [eauto | discriminate].
Qed.

Lemma files_log (w : world) (ev : event) : files (log w ev) = files w.
Proof. reflexivity. Qed.

Lemma key_log (w : world) (ev : event) (p : string) :
  Os.key (log w ev) p = Os.key w p.
Proof. reflexivity. Qed.

(** The directory of a target file that [describe] accepts exists. *)
Lemma target_directory (filePath symbolName : string) (w w' : world)
    (r : importInfo * string) :
  Filepath.IsAbs (cwd w) = true -> wf_tree w = true ->
  describe filePath symbolName w = (Return r, w') ->
  files w !! Filepath.Dir (Filepath.Abs (cwd w) filePath) = Some Directory.
Proof.
  intros Hcwd Htree Hdesc.
  destruct (describe_Return_file _ _ _ _ _ Hdesc) as [n Hn].
  unfold Os.key in Hn. fold (Os.key w filePath) in Hn.
  fold (Os.key w (Os.key w filePath)) in Hn.
  rewrite (key_idem w filePath Hcwd) in Hn.
  eapply wf_tree_spec; eauto.
Qed.

(** ** The removal of the workspace *)

Lemma RemoveAll_lookup (held : list (string * string)) (w : world)
    (path k : string) :
  is_empty path = false -> Os.endsWithDot path = false ->
  files (Os.RemoveAll held w path).1 !! k
  = if Os.within (Os.key w path) k &&
       negb (existsb (fun h => Os.within k h.1)
               (Os.met held (files w) (Os.key w path)))
    then None else files w !! k.
Proof.
  intros He Hd. unfold Os.RemoveAll. rewrite He, Hd.
  cbn [fst files set_files].
  destruct (Os.within (Os.key w path) k &&
            negb (existsb (fun h => Os.within k h.1)
                    (Os.met held (files w) (Os.key w path)))) eqn:Hc.
  - apply andb_true_iff in Hc as [Hin Hfree].
    apply negb_true_iff in Hfree.
    apply map_lookup_filter_None. right. intros n _ H. cbn [fst] in H.
    rewrite Hin, Hfree in H. discriminate.
  - destruct (files w !! k) as [n|] eqn:Hk.
    + apply map_lookup_filter_Some. split; [exact Hk|]. cbn [fst].
      destruct (Os.within (Os.key w path) k); [|reflexivity].
      destruct (existsb _ _); [reflexivity | discriminate].
    + apply map_lookup_filter_None. left. exact Hk.
Qed.

(** A removal fails exactly when it meets an entry that is held. *)
Lemma RemoveAll_error (held : list (string * string)) (w : world)
    (path : string) :
  is_empty path = false -> Os.endsWithDot path = false ->
  (Os.RemoveAll held w path).2 = None
  <-> Os.met held (files w) (Os.key w path) = [].
Proof.
  intros He Hd. unfold Os.RemoveAll. rewrite He, Hd. cbn [snd].
  destruct (Os.met held (files w) (Os.key w path)) as [|h l].
  - split; reflexivity.
  - destruct (Os.splitPath path). split; discriminate.
Qed.

Lemma drop_app_length (pre x : string) (n : nat) :
  drop (String.length pre + n) (pre +:+ x) = drop n x.
Proof.
  induction pre as [|c pre IH]; [rewrite str_app_nil_l; reflexivity|].
  rewrite str_app_cons. cbn [String.length Nat.add drop]. exact IH.
Qed.

(** The workspace path ends in the name of the workspace. *)
Lemma workspace_name (d : string) :
  exists pre, Filepath.Join [d; tmpDirName] = pre +:+ tmpDirName.
Proof.
  change (Filepath.Join [d; tmpDirName])
    with (if is_empty d then Filepath.Join [tmpDirName]
          else Filepath.Clean (GoStrings.Join [d; tmpDirName] "/")).
  destruct (is_empty d) eqn:Hd.
  { exists "". vm_compute. reflexivity. }
  rewrite Join_cons2. change (GoStrings.Join [tmpDirName] "/") with tmpDirName.
  unfold Filepath.Clean.
  assert (is_empty (d +:+ "/" +:+ tmpDirName) = false) as ->.
  { destruct d; [discriminate | reflexivity]. }
  set (rooted := Filepath.IsAbs (d +:+ "/" +:+ tmpDirName)).
  unfold Filepath.clean_elems.
  change (d +:+ "/" +:+ tmpDirName)
    with (d +:+ String Filepath.Separator tmpDirName).
  rewrite split_on_app_sep_gen, fold_left_app.
  change (split_on Filepath.Separator tmpDirName) with [tmpDirName].
  cbn [fold_left].
  change (Filepath.clean_step rooted ?out tmpDirName) with (tmpDirName :: out).
  cbn [rev].
  set (out := rev (fold_left (Filepath.clean_step rooted)
                     (split_on Filepath.Separator d) [])).
  assert (Hb : exists pre, GoStrings.Join (out ++ [tmpDirName]) "/"
                           = pre +:+ tmpDirName).
  { destruct out as [|x out'].
    - exists "". reflexivity.
    - rewrite Join_snoc by discriminate. eexists.
      rewrite <- str_app_assoc. reflexivity. }
  destruct Hb as [pre Hb]. rewrite Hb.
  destruct rooted.
  - exists ("/" +:+ pre). rewrite str_app_assoc. reflexivity.
  - exists pre. destruct pre; reflexivity.
Qed.

(** It is a path that [os.RemoveAll] takes: not empty and not ending in
    a dot element. *)
Lemma workspace_removable (w : world) (filePath : string) :
  is_empty (workspace w filePath) = false /\
  Os.endsWithDot (workspace w filePath) = false.
Proof.
  unfold workspace.
  destruct (workspace_name (Filepath.Dir (Filepath.Abs (cwd w) filePath)))
    as [pre ->].
  split.
  - destruct pre; reflexivity.
  - unfold Os.endsWithDot, HasSuffix.
    assert (String.eqb (pre +:+ tmpDirName) "." = false) as ->.
    { apply String.eqb_neq. intros H. apply (f_equal String.length) in H.
      rewrite str_length_app in H. cbn in H. lia. }
    rewrite str_length_app.
    change (String.length tmpDirName) with 14.
    change (String.length "/.") with 2.
    replace (String.length pre + 14 - 2) with (String.length pre + 12) by lia.
    rewrite drop_app_length. rewrite andb_false_r. reflexivity.
Qed.

(** C7, amended.  The workspace is removed only after a child that exited
    with status 0.  Then the removal is attempted before anything is
    printed: every path at or below the workspace goes away, except the
    entries that the system refuses to unlink and the directories above
    them, and everything else is as the preparation left it.  When
    nothing was refused, the run returns and its events are the child,
    the removal and the relayed output; when something was, the run ends
    with status 1 and one error object.  [main] returns in no other way,
    and then nothing is left at or below the workspace.  On every other
    path that ends the run nothing has been removed: no removal is among
    the events, every path that was there before the run is still there,
    the files are those that the preparation left, and if the run got as
    far as creating the workspace then the workspace directory and
    everything that existed when it was created are still there. *)
Theorem workspace_removed_only_on_success
    (e : env) (filePath symbolName : string) (w : world) :
  let tmpDir := workspace w filePath in
  let tmpMain := entry_point w filePath in
  let c := go_command e tmpDir tmpMain in
  (forall i dir w1 out err,
     is_empty filePath || is_empty symbolName = false ->
     describe filePath symbolName w = (Return (i, dir), w) ->
     prepare e i tmpDir tmpMain w = (Return tt, w1) ->
     go_run e c (files w1) = Exited 0 out err ->
     let stuck := Os.met (held e) (files w1) (Os.key w tmpDir) in
     let res := main e filePath symbolName w in
     (forall k,
        files res.2 !! k
        = if Os.within (Os.key w tmpDir) k &&
             negb (existsb (fun h => Os.within k h.1) stuck)
          then None else files w1 !! k) /\
     match stuck with
     | [] =>
         res.1 = Return tt /\
         trace res.2 = trace w ++ [Spawned c; Removed tmpDir; Stdout out]
     | _ :: _ =>
         res.1 = Exit 1 /\
         exists msg,
           trace res.2
           = trace w ++ [Spawned c; StderrJSON {| Error := msg |}]
     end) /\
  (forall w', main e filePath symbolName w = (Return tt, w') ->
     exists i w1 out err,
       prepare e i tmpDir tmpMain w = (Return tt, w1) /\
       go_run e c (files w1) = Exited 0 out err /\
       Os.met (held e) (files w1) (Os.key w tmpDir) = [] /\
       forall k, Os.within (Os.key w tmpDir) k = true ->
                 files w' !! k = None) /\
  (forall code w', main e filePath symbolName w = (Exit code, w') ->
     (exists evs, trace w' = trace w ++ evs /\
                  forall p, Removed p ∉ evs) /\
     ((exists i w1 out err,
         prepare e i tmpDir tmpMain w = (Return tt, w1) /\
         go_run e c (files w1) = Exited 0 out err /\
         Os.met (held e) (files w1) (Os.key w tmpDir) <> []) \/
      (persists (files w) (files w') /\
       (is_empty filePath || is_empty symbolName = false ->
        forall i fileDir,
          describe filePath symbolName w = (Return (i, fileDir), w) ->
          files w' = files (prepare e i tmpDir tmpMain w).2 /\
          ((Os.MkdirAll w tmpDir).2 = None ->
             files w' !! Os.key w tmpDir = Some Directory /\
             persists (files (Os.MkdirAll w tmpDir).1) (files w')))))).
Proof.
  intros tmpDir tmpMain c.
  destruct (workspace_removable w filePath) as [Hne Hnd]. fold tmpDir in Hne, Hnd.
  (* what the last stage does after a preparation that returned [w1] *)
  assert (Hlast : forall w1, quiet w w1 ->
    let rm := Os.RemoveAll (held e) (log w1 (Spawned c)) tmpDir in
    (forall k,
       files rm.1 !! k
       = if Os.within (Os.key w tmpDir) k &&
            negb (existsb (fun h => Os.within k h.1)
                    (Os.met (held e) (files w1) (Os.key w tmpDir)))
         then None else files w1 !! k) /\
    (rm.2 = None <-> Os.met (held e) (files w1) (Os.key w tmpDir) = []) /\
    trace rm.1 = trace w ++ [Spawned c]).
  { intros w1 Q rm. subst rm. split; [|split].
    - intros k. rewrite (RemoveAll_lookup _ _ _ k Hne Hnd).
      rewrite key_log, files_log, (quiet_key w w1 tmpDir Q). reflexivity.
    - rewrite (RemoveAll_error _ _ _ Hne Hnd).
      rewrite key_log, files_log, (quiet_key w w1 tmpDir Q). reflexivity.
    - destruct (RemoveAll_trace (held e) (log w1 (Spawned c)) tmpDir)
        as [-> _].
      destruct Q as (_ & Ht & _). cbn [trace log]. rewrite Ht. reflexivity. }
  split; [|split].
  - intros i dir w1 out err Hargs Hdesc Hprep Hrun stuck res. subst res.
    destruct (prepare_cases e i tmpDir tmpMain w)
      as (w1' & Q & _ & [[Hp _] | [msg Hp]]); [|congruence].
    assert (w1' = w1) by congruence. subst w1'.
    destruct (describe_cases filePath symbolName w) as [[i' Hd] | [msg Hd]];
      [|congruence].
    assert (Hdir : dir = Filepath.Dir (Filepath.Abs (cwd w) filePath))
      by congruence.
    rewrite main_unfold, Hargs, Hdesc. cbv zeta. cbn [fst snd].
    rewrite Hdir. fold (workspace w filePath). fold tmpDir.
    change (Filepath.Join [tmpDir; "main.go"]) with tmpMain.
    rewrite Hprep, execute_cases. cbv zeta. fold c.
    rewrite Hrun. cbn [run_error N.eqb].
    destruct (Hlast w1 Q) as (Hfiles & Herr & Htrace). fold stuck in Hfiles, Herr.
    destruct (Os.RemoveAll (held e) (log w1 (Spawned c)) tmpDir)
      as [w2 [msg|]]; cbn [fst snd] in *.
    + split; [exact Hfiles|]. destruct stuck as [|h l].
      * destruct Herr as [_ Herr]. specialize (Herr eq_refl). discriminate.
      * split; [reflexivity|]. exists msg. cbn [trace log].
        rewrite Htrace, <- app_assoc. reflexivity.
    + split; [exact Hfiles|]. destruct Herr as [Herr _].
      rewrite (Herr eq_refl). split; [reflexivity|]. cbn [trace log captured fst].
      rewrite Htrace, <- !app_assoc. reflexivity.
  - intros w' Hmain.
    destruct (main_cases e filePath symbolName w)
      as [[_ Hm] | [_ [(msg & _ & Hm) | (i & w1 & _ & Q & _ & H)]]];
      try congruence.
    destruct H as [(msg & _ & Hm) | (Hp & _ & Hm)]; [congruence|].
    fold tmpDir tmpMain in Hm, Hp. rewrite Hm, execute_cases in Hmain.
    cbv zeta in Hmain. fold c in Hmain.
    destruct (run_error _) eqn:Hrun; [discriminate|].
    apply run_error_None in Hrun as (out & err & Hrun).
    destruct (Hlast w1 Q) as (Hfiles & Herr & _).
    destruct (Os.RemoveAll (held e) (log w1 (Spawned c)) tmpDir)
      as [w2 [msg|]]; cbn [fst snd] in *; [discriminate|].
    injection Hmain as <-. exists i, w1, out, err.
    destruct Herr as [Herr _]. specialize (Herr eq_refl).
    split; [exact Hp|]. split; [exact Hrun|]. split; [exact Herr|].
    intros k Hk. rewrite !files_log, Hfiles, Hk, Herr. reflexivity.
  - intros code w' Hmain.
    destruct (main_cases e filePath symbolName w)
      as [[Ha Hm] | [Ha [(msg & Hd & Hm) | (i & w1 & Hd & Q & D & H)]]].
    + rewrite Hm in Hmain. inversion Hmain. subst. split.
      * exists [StderrUsage]. split; [reflexivity|]. intros p Hp.
        apply list_elem_of_singleton in Hp. discriminate.
      * right. split; [apply persists_refl|]. rewrite Ha. discriminate.
    + rewrite Hm in Hmain. inversion Hmain. subst. split.
      * eexists [_]. split; [reflexivity|]. intros p Hp.
        apply list_elem_of_singleton in Hp. discriminate.
      * right. split; [apply persists_refl|].
        intros _ i fileDir Hd'. rewrite Hd in Hd'. discriminate.
    + fold tmpDir tmpMain in H, D.
      assert (Hkeep : forall evs,
                files w' = files w1 ->
                files w1 = files (prepare e i tmpDir tmpMain w).2 ->
                trace w' = trace w ++ evs -> (forall p, Removed p ∉ evs) ->
                (exists evs, trace w' = trace w ++ evs /\
                             forall p, Removed p ∉ evs) /\
                (persists (files w) (files w') /\
                 (is_empty filePath || is_empty symbolName = false ->
                  forall i0 fileDir,
                    describe filePath symbolName w = (Return (i0, fileDir), w) ->
                    files w' = files (prepare e i0 tmpDir tmpMain w).2 /\
                    ((Os.MkdirAll w tmpDir).2 = None ->
                       files w' !! Os.key w tmpDir = Some Directory /\
                       persists (files (Os.MkdirAll w tmpDir).1) (files w'))))).
      { intros evs Hf Hp Ht Hr.
        split; [exists evs; split; assumption|]. split.
        - rewrite Hf. apply Q.
        - intros _ i' fileDir Hd'. rewrite Hd in Hd'. inversion Hd'. subst i'.
          split; [congruence|]. intros Hmk. specialize (D Hmk).
          rewrite Hf. split; [|apply D].
          eapply quiet_directory; [exact D|].
          apply MkdirAll_ok. destruct (Os.MkdirAll w tmpDir) as [wm em].
          simpl in *. subst em. reflexivity. }
      destruct Q as (Qc & Ht & Qp).
      destruct H as [(msg & Hp & Hm) | (Hp & _ & Hm)].
      * rewrite Hm in Hmain. inversion Hmain. subst.
        destruct (Hkeep [StderrJSON {| Error := msg |}]) as [K1 K2].
        -- reflexivity.
        -- rewrite Hp. reflexivity.
        -- cbn [trace log]. rewrite Ht. reflexivity.
        -- intros p Hin. apply list_elem_of_singleton in Hin. discriminate.
        -- split; [exact K1 | right; exact K2].
      * rewrite Hm, execute_cases in Hmain. cbv zeta in Hmain.
        fold c in Hmain.
        destruct (run_error _) as [msg|] eqn:Hrun.
        -- inversion Hmain. subst.
           destruct (Hkeep [Spawned c; StderrJSON
                      {| Error := failure_text (go_run e c (files w1)) msg |}])
             as [K1 K2].
           ++ reflexivity.
           ++ rewrite Hp. reflexivity.
           ++ cbn [trace log]. rewrite Ht, <- app_assoc. reflexivity.
           ++ intros p Hin.
              apply elem_of_cons in Hin as [Hin|Hin]; [discriminate|].
              apply list_elem_of_singleton in Hin. discriminate.
           ++ split; [exact K1 | right; exact K2].
        -- apply run_error_None in Hrun as (out & err & Hrun).
           destruct (Hlast w1 (conj Qc (conj Ht Qp))) as (_ & Herr & Htrace).
           destruct (Os.RemoveAll (held e) (log w1 (Spawned c)) tmpDir)
             as [w2 [msg|]]; cbn [fst snd] in *; [|discriminate].
           inversion Hmain. subst. split.
           ++ exists [Spawned c; StderrJSON {| Error := msg |}].
              split.
              ** cbn [trace log]. rewrite Htrace, <- app_assoc. reflexivity.
              ** intros p Hin.
                 apply elem_of_cons in Hin as [Hin|Hin]; [discriminate|].
                 apply list_elem_of_singleton in Hin. discriminate.
           ++ left. exists i, w1, out, err.
              split; [exact Hp|]. split; [exact Hrun|].
              intros Hnone. apply Herr in Hnone. discriminate.
Qed.

Lemma workspace_removed_only_on_success_witness :
  let res := main Scenario.tool "app/pkg/models.go" "User" Scenario.leftover in
  res.1 = Return tt /\
  trace res.2
  = [Spawned (go_command Scenario.tool "/w/app/pkg/jsonschema-gen"
                "/w/app/pkg/jsonschema-gen/main.go");
     Removed "/w/app/pkg/jsonschema-gen"; Stdout "{}"] /\
  files res.2 !! "/w/app/pkg/jsonschema-gen" = None /\
  files res.2 !! "/w/app/pkg/jsonschema-gen/main.go" = None /\
  files res.2 !! "/w/app/pkg/jsonschema-gen/vendored/deps.txt" = None /\
  files res.2 !! "/w/app/pkg/jsonschema-gen/old.txt" = None /\
  files res.2 !! "/w/app/pkg/models.go"
  = files Scenario.leftover !! "/w/app/pkg/models.go".
Proof.
  intros res.
  destruct (proj1 (workspace_removed_only_on_success Scenario.tool
                     "app/pkg/models.go" "User" Scenario.leftover)
              (describe_result "app/pkg/models.go" "User" Scenario.leftover)
              "/w/app/pkg"
              (prepare Scenario.tool
                 (describe_result "app/pkg/models.go" "User"
                    Scenario.leftover)
                 "/w/app/pkg/jsonschema-gen"
                 "/w/app/pkg/jsonschema-gen/main.go" Scenario.leftover).2
              "{}" "") as [Hfiles [Hret Htrace]].
  - reflexivity.
  - vm_compute. reflexivity.
  - vm_compute. reflexivity.
  - reflexivity.
  - subst res. split; [exact Hret|]. split; [exact Htrace|].
    rewrite !Hfiles. vm_compute. repeat split; reflexivity.
Defined.

(** C7 as stated fails: the child exits with status 0, the removal of the
    workspace meets a file that may not be unlinked, and the run ends
    with status 1 after the entry point and the vendor tree have been
    removed; what is left of the workspace is the file that was held and
    the directories above it. *)
Lemma failed_removal_leaves_part_of_workspace :
  let prepared :=
    (prepare Scenario.guarded
       (describe_result "app/pkg/models.go" "User" Scenario.locked)
       "/w/app/pkg/jsonschema-gen" "/w/app/pkg/jsonschema-gen/main.go"
       Scenario.locked).2 in
  let res :=
    run_main Scenario.guarded "app/pkg/models.go" "User" Scenario.locked in
  res.1 = 1 /\
  trace res.2
  = [Spawned (go_command Scenario.guarded "/w/app/pkg/jsonschema-gen"
                "/w/app/pkg/jsonschema-gen/main.go");
     StderrJSON
       {| Error := "unlinkat /w/app/pkg/jsonschema-gen/old/keep.txt: " +:+
                   "permission denied" |}] /\
  is_Some (files prepared !! "/w/app/pkg/jsonschema-gen/main.go") /\
  is_Some (files prepared !! "/w/app/pkg/jsonschema-gen/vendored/deps.txt") /\
  files res.2 !! "/w/app/pkg/jsonschema-gen/main.go" = None /\
  files res.2 !! "/w/app/pkg/jsonschema-gen/vendored/deps.txt" = None /\
  files res.2 !! "/w/app/pkg/jsonschema-gen/vendored" = None /\
  files res.2 !! "/w/app/pkg/jsonschema-gen/old/keep.txt" = Some (File "old") /\
  files res.2 !! "/w/app/pkg/jsonschema-gen/old" = Some Directory /\
  files res.2 !! "/w/app/pkg/jsonschema-gen" = Some Directory.
Proof.
  vm_compute. repeat split; eauto.
Qed.

End WorkspaceFrame.

(* ===================================================================== *)
(** * What the copy leaves behind *)
(* ===================================================================== *)

Section CopyDeps.

Local Arguments abs_path : simpl never.

Variables (e : env) (d : list string).
Hypothesis Hd : proper d.
Hypothesis Hsnap : snapshot_clean e = true.


Lemma copy_entry_target (x : string * node) (rel : list string) :
  copy_entry e x rel -> Filepath.Join [abs_path d; x.1] = abs_path (d ++ rel).
Proof.
  intros (Hrel & [[-> ->] | (_ & E & _)]).
  - rewrite app_nil_r. apply Join_abs_dot. exact Hd.
  - rewrite E. apply Join_abs_rel; assumption.
Qed.

Lemma copy_entry_inj (x y : string * node) (rx ry : list string) :
  copy_entry e x rx -> copy_entry e y ry ->
  abs_path (d ++ rx) = abs_path (d ++ ry) -> x.1 = y.1.
Proof.
  intros (Hx & Cx) (Hy & Cy) E.
  apply abs_path_inj in E; [|apply Forall_app; auto..].
  apply app_inv_head in E. subst ry.
  destruct Cx as [[-> ->] | (Nx & Ex & _)], Cy as [[-> Ey] | (Ny & Ey & _)];
    try congruence.
Qed.

Lemma snapshot_entry (p : string) (n : node) :
  embedFS e !! p = Some n -> exists rel, copy_entry e (p, n) rel.
Proof.
  intros Hp. exists (split_on Filepath.Separator p).
  destruct (snapshot_clean_spec e p n Hsnap Hp) as (pc & Hpc & E).
  assert (Hsp : split_on Filepath.Separator p
                = match pc with [] => [""] | _ => pc end).
  { rewrite E. apply split_on_Join. apply valid_sep_free. exact Hpc. }
  assert (Hall : proper (split_on Filepath.Separator p)).
  { unfold snapshot_clean in Hsnap. rewrite forallb_forall in Hsnap.
    specialize (Hsnap (p, n)). cbn [fst] in Hsnap.
    apply Forall_forall. intros x Hx.
    assert (H : forallb valid_elem (split_on Filepath.Separator p) = true).
    { apply Hsnap. apply list_elem_of_In, elem_of_map_to_list. exact Hp. }
    rewrite forallb_forall in H. apply H, list_elem_of_In. exact Hx. }
  split; [exact Hall|]. right. split; [apply split_on_nonempty|].
  split; [|exact Hp]. cbn [fst]. symmetry.
  apply (Join_split_on Filepath.Separator).
Qed.

Lemma WriteFile_ok (w w' : world) (name data : string) :
  Os.WriteFile w name data = (w', None) ->
  files w' !! Os.key w name = Some (File data).
Proof.
  unfold Os.WriteFile.
  destruct (files w !! Os.key w name) as [[old|]|].
  - intros H. inversion H. cbn. apply lookup_insert_eq.
  - discriminate.
  - destruct (files w !! Filepath.Dir (Os.key w name)) as [[?|]|];
      try discriminate.
    intros H. inversion H. cbn. apply lookup_insert_eq.
Qed.

Lemma MkdirAll_keeps (w : world) (path k : string) (n : node) :
  files w !! k = Some n -> files (Os.MkdirAll w path).1 !! k = Some n.
Proof.
  intros Hk. unfold Os.MkdirAll.
  pose proof (MkdirAll_fuel_keeps
    (S (S (String.length (Os.key w path)))) (files w) (Os.key w path) k n Hk).
  destruct (Os.MkdirAll_fuel _ _ _) as [fs err]. exact H.
Qed.

(** A step that succeeds leaves the node of its entry at its target. *)
Lemma copyDeps_fn_ok (x : string * node) (rel : list string) (w w' : world) :
  copy_entry e x rel ->
  copyDeps_fn e (abs_path d) x.1 x.2 w = (w', None) ->
  files w' !! abs_path (d ++ rel) = Some x.2.
Proof.
  intros Hx. pose proof (copy_entry_target x rel Hx) as Et.
  assert (Hp : proper (d ++ rel)) by (apply Forall_app; split; [exact Hd|apply Hx]).
  unfold copyDeps_fn. rewrite Et. destruct x as [p [data0|]]; cbn [fst snd].
  - destruct Hx as (_ & [[Hx _] | (_ & _ & Hx)]); [discriminate|].
    cbn [fst snd] in Hx. rewrite Hx. intros H.
    apply WriteFile_ok in H. rewrite (key_abs_path w _ Hp) in H. exact H.
  - intros H. apply MkdirAll_ok in H.
    rewrite (key_abs_path w _ Hp) in H. exact H.
Qed.

(** A step for another entry leaves that node alone. *)
Lemma copyDeps_fn_keeps (x y : string * node) (rx ry : list string)
    (w : world) (n : node) :
  copy_entry e x rx -> copy_entry e y ry -> x.1 <> y.1 ->
  files w !! abs_path (d ++ rx) = Some n ->
  files (copyDeps_fn e (abs_path d) y.1 y.2 w).1 !! abs_path (d ++ rx)
  = Some n.
Proof.
  intros Hx Hy Hne Hn. pose proof (copy_entry_target y ry Hy) as Et.
  assert (Hp : proper (d ++ ry)) by (apply Forall_app; split; [exact Hd|apply Hy]).
  unfold copyDeps_fn. rewrite Et. destruct (y.2) as [data0|].
  - destruct (embedFS e !! y.1) as [[data|]|]; cbn [fst]; try exact Hn.
    destruct (WriteFile_files w (abs_path (d ++ ry)) data) as [-> | ->];
      [exact Hn|].
    rewrite (key_abs_path w _ Hp). rewrite lookup_insert_ne; [exact Hn|].
    intros E. apply Hne. symmetry. eapply copy_entry_inj; eauto.
  - apply MkdirAll_keeps. exact Hn.
Qed.

Lemma visit_copy_keeps (x : string * node) (rx : list string) (n : node)
    (l : list (string * node)) :
  copy_entry e x rx ->
  Forall (fun y => exists ry, copy_entry e y ry) l ->
  x.1 ∉ l.*1 ->
  forall w, files w !! abs_path (d ++ rx) = Some n ->
  files (Walk.visit (copyDeps_fn e (abs_path d)) l w).1 !! abs_path (d ++ rx)
  = Some n.
Proof.
  intros Hx. induction l as [|[q nq] l IH]; intros Hl Hnin w Hn; [exact Hn|].
  inversion Hl as [|? ? [ry Hy] Hl']. subst.
  change (((q, nq) :: l).*1) with (q :: l.*1) in Hnin.
  apply not_elem_of_cons in Hnin as [Hne Hnin].
  cbn [Walk.visit].
  pose proof (copyDeps_fn_keeps x (q, nq) rx ry w n Hx Hy Hne Hn) as Hk.
  cbn [fst snd] in Hk.
  destruct (copyDeps_fn e (abs_path d) q nq w) as [w1 [err|]];
    cbn [fst] in *; [exact Hk|].
  apply IH; assumption.
Qed.

Lemma visit_copy_ok (l : list (string * node)) :
  Forall (fun y => exists ry, copy_entry e y ry) l ->
  NoDup l.*1 ->
  forall w w', Walk.visit (copyDeps_fn e (abs_path d)) l w = (w', None) ->
  forall x rx, x ∈ l -> copy_entry e x rx ->
  files w' !! abs_path (d ++ rx) = Some x.2.
Proof.
  induction l as [|[q nq] l IH]; intros Hl Hnd w w' Hv x rx Hin Hx.
  - inversion Hin.
  - inversion Hl as [|? ? [ry Hy] Hl']. subst.
    change (((q, nq) :: l).*1) with (q :: l.*1) in Hnd.
    apply NoDup_cons in Hnd as [Hq Hnd].
    cbn [Walk.visit] in Hv.
    destruct (copyDeps_fn e (abs_path d) q nq w) as [w1 [err|]] eqn:Hstep;
      [discriminate|].
    apply elem_of_cons in Hin as [-> | Hin].
    + pose proof (copyDeps_fn_ok (q, nq) rx w w1 Hx Hstep) as H1.
      pose proof (visit_copy_keeps (q, nq) rx nq l Hx Hl' Hq w1 H1) as H2.
      rewrite Hv in H2. exact H2.
    + eapply IH; eauto.
Qed.

End CopyDeps.

(** After a copy that succeeded, the target of an entry holds its node. *)
Lemma copyDeps_content
    (e : env) (w w' : world) (d : list string) (p : string) (n : node)
    (rel : list string) :
  proper d ->
  snapshot_clean e = true ->
  copyDeps e w (abs_path d) = (w', None) ->
  embedFS e !! p = Some n ->
  copy_entry e (p, n) rel ->
  files w' !! abs_path (d ++ rel) = Some n.
Proof.
  intros Hd Hsnap Hcopy Hp Hrel. unfold copyDeps in Hcopy.
  change (Some n) with (Some (p, n).2).
  eapply (visit_copy_ok e d Hd); [| |exact Hcopy| |exact Hrel].
  - constructor.
    + exists []. split; [constructor|]. left. split; reflexivity.
    + apply Forall_forall. intros [q nq] Hq.
      apply snapshot_entries in Hq. eapply snapshot_entry; eauto.
  - change (((".", Directory) :: ?l).*1) with ("." :: l.*1).
    apply NoDup_cons. split.
    + intros Hin. apply list_elem_of_fmap in Hin as ([q nq] & Eq & Hq).
      cbn in Eq. subst q. apply snapshot_entries in Hq. cbn in Hq.
      destruct (snapshot_clean_spec e "." nq Hsnap Hq) as (pc & Hpc & E).
      pose proof (split_on_Join pc (valid_sep_free pc Hpc)) as Hs.
      rewrite <- E in Hs. cbn in Hs.
      destruct pc as [|c pc]; [discriminate|].
      inversion Hs. subst. inversion Hpc. discriminate.
    + rewrite merge_sort_Permutation. apply NoDup_fst_map_to_list.
  - right. apply snapshot_entries. exact Hp.
Qed.

(** X12.  A copy that succeeds reproduces the snapshot below the
    destination: every entry of the snapshot is there afterwards, a file
    with the bytes it has in the snapshot. *)
Theorem copyDeps_reproduces_snapshot
    (e : env) (w w' : world) (d : list string) (p : string) (n : node) :
  proper d ->
  snapshot_clean e = true ->
  copyDeps e w (abs_path d) = (w', None) ->
  embedFS e !! p = Some n ->
  files w' !! Filepath.Join [abs_path d; p] = Some n.
Proof.
  intros Hd Hsnap Hcopy Hp.
  destruct (snapshot_entry e Hsnap p n Hp) as [rel Hrel].
  pose proof (copy_entry_target e d Hd (p, n) rel Hrel) as Et.
  cbn [fst] in Et. rewrite Et.
  eapply copyDeps_content; eauto.
Qed.

Lemma copyDeps_reproduces_snapshot_witness :
  files (copyDeps Scenario.tool Scenario.rendered
           (abs_path Scenario.work_dir)).1
    !! Filepath.Join [abs_path Scenario.work_dir; "vendored/deps.txt"]
  = Some (File (Sample.text ["example.org/schema"; "example.org/omap"])).
Proof.
  apply (copyDeps_reproduces_snapshot Scenario.tool Scenario.rendered
           (copyDeps Scenario.tool Scenario.rendered
              (abs_path Scenario.work_dir)).1
           Scenario.work_dir "vendored/deps.txt");
    [repeat constructor | vm_compute; reflexivity | vm_compute; reflexivity
    | vm_compute; reflexivity].
Defined.



(* ===================================================================== *)
(** * The module root and relative paths *)
(* ===================================================================== *)

Section Discovery.

Local Arguments abs_path : simpl never.


Lemma ancestor_S (k : nat) (dir : string) :
  ancestor (S k) dir = ancestor k (Filepath.Dir dir).
Proof. unfold ancestor. apply Nat.iter_succ_r. Qed.

Lemma ancestor_fixed (dir : string) (k : nat) :
  Filepath.Dir dir = dir -> ancestor k dir = dir.
Proof.
  intros H. induction k as [|k IH]; [reflexivity|].
  rewrite ancestor_S, H. exact IH.
Qed.

Lemma findGoMod_fuel_walk (w : world) (n : nat) :
  forall dir r, findGoMod_fuel n w dir = Some r ->
  (exists k, r = ancestor k dir /\ has_go_mod w r = true /\
             forall j, j < k -> has_go_mod w (ancestor j dir) = false) \/
  (r = "" /\ forall j, has_go_mod w (ancestor j dir) = false).
Proof.
  induction n as [|n IH]; intros dir r H; [discriminate|].
  cbn [findGoMod_fuel] in H.
  destruct (Os.Stat w (Filepath.Join [dir; "go.mod"])) as [err|] eqn:Hst.
  - assert (Hno : has_go_mod w dir = false) by (unfold has_go_mod; rewrite Hst; reflexivity).
    destruct (String.eqb (Filepath.Dir dir) dir) eqn:Heq.
    + apply String.eqb_eq in Heq. right. split; [congruence|].
      intros j. rewrite ancestor_fixed by exact Heq. exact Hno.
    + destruct (IH _ _ H) as [(k & E & Hr & Hlt) | (E & Hall)].
      * left. exists (S k). rewrite ancestor_S. split; [exact E|].
        split; [exact Hr|]. intros [|j] Hj; [exact Hno|].
        rewrite ancestor_S. apply Hlt. lia.
      * right. split; [exact E|]. intros [|j]; [exact Hno|].
        rewrite ancestor_S. apply Hall.
  - left. exists 0. inversion H. subst r. split; [reflexivity|].
    split; [unfold has_go_mod; rewrite Hst; reflexivity|]. intros j Hj. lia.
Qed.

(** X5.  [findGoMod] returns the innermost ancestor of [dir], [dir]
    included, in which [go.mod] can be stat'ed, the directories passed on
    the way up having none; it returns the empty string when no ancestor
    has one. *)
Theorem findGoMod_innermost (w : world) (dir : string) :
  (exists k, findGoMod w dir = ancestor k dir /\
             has_go_mod w (ancestor k dir) = true /\
             forall j, j < k -> has_go_mod w (ancestor j dir) = false) \/
  (findGoMod w dir = "" /\
   forall j, has_go_mod w (ancestor j dir) = false).
Proof.
  destruct (findGoMod_fuel_walk w _ _ _ (findGoMod_spec w dir))
    as [(k & E & Hr & Hlt) | (E & Hall)].
  - left. exists k. rewrite <- E. auto.
  - right. auto.
Qed.

Lemma ancestor_abs_path (cs : list string) (k : nat) :
  proper cs ->
  ancestor k (abs_path cs) = abs_path (take (length cs - k) cs).
Proof.
  revert cs. induction k as [|k IH]; intros cs Hcs.
  - rewrite Nat.sub_0_r, firstn_all. reflexivity.
  - rewrite ancestor_S. destruct cs as [|x cs' _] using rev_ind.
    + rewrite Dir_abs_root, IH by constructor. reflexivity.
    + apply proper_snoc in Hcs as [Hcs' Hx].
      rewrite Dir_abs_snoc, IH by assumption.
      rewrite length_app. cbn [length].
      replace (length cs' + 1 - S k) with (length cs' - k) by lia.
      rewrite take_app_le by lia. reflexivity.
Qed.

Lemma elems_abs_path (cs : list string) :
  proper cs -> Filepath.elems (abs_path cs) = cs.
Proof.
  intros Hcs. unfold Filepath.elems, abs_path.
  rewrite str_app_cons, str_app_nil_l. cbn [split_on].
  change (Ascii.eqb "/" Filepath.Separator) with true. cbv iota.
  rewrite split_on_Join by (apply valid_sep_free; exact Hcs).
  rewrite filter_cons_False by (cbn; congruence).
  destruct cs as [|c cs].
  - reflexivity.
  - induction Hcs as [|x l Hx Hl IHl]; [reflexivity|].
    apply valid_elem_spec in Hx as (Hx & _). apply is_empty_false in Hx.
    rewrite filter_cons_True by exact Hx. f_equal. exact IHl.
Qed.

Lemma strip_common_prefix (pre suf : list string) :
  Filepath.strip_common pre (pre ++ suf) = ([], suf).
Proof.
  induction pre as [|x pre IH]; [destruct suf; reflexivity|].
  cbn. rewrite String.eqb_refl. exact IH.
Qed.

(** [filepath.Rel] from a directory to one below it never fails: it gives
    the elements in between, or [.] when there are none. *)
Lemma Rel_abs_path (pre suf : list string) :
  proper pre -> proper suf ->
  Filepath.Rel (abs_path pre) (abs_path (pre ++ suf))
  = Ok (match suf with [] => "." | _ => GoStrings.Join suf "/" end).
Proof.
  intros Hpre Hsuf.
  assert (Hall : proper (pre ++ suf)) by (apply Forall_app; auto).
  unfold Filepath.Rel. rewrite !Clean_abs_path by assumption.
  destruct suf as [|x suf].
  - rewrite app_nil_r, String.eqb_refl. reflexivity.
  - assert (String.eqb (abs_path (pre ++ x :: suf)) (abs_path pre) = false)
      as ->.
    { apply String.eqb_neq. intros E. apply abs_path_inj in E; try assumption.
      rewrite <- (app_nil_r pre) in E at 2. apply app_inv_head in E.
      discriminate. }
    change (String.eqb (abs_path pre) ".") with false. cbv iota.
    change (Filepath.IsAbs (abs_path ?c)) with true. cbn [Bool.eqb negb].
    rewrite !elems_abs_path by assumption.
    rewrite strip_common_prefix. reflexivity.
Qed.

End Discovery.

(* ===================================================================== *)
(** * The descriptor *)
(* ===================================================================== *)

Section Descriptor.

Local Arguments abs_path : simpl never.
Local Arguments Filepath.IsAbs : simpl never.

Lemma Join_proper_not_dot (cs : list string) :
  proper cs -> GoStrings.Join cs "/" <> ".".
Proof.
  intros H. destruct H as [|x l Hx Hl]; [discriminate|].
  apply valid_elem_spec in Hx as (Hne & _ & Hdot & _).
  destruct l as [|y l].
  - cbn. exact Hdot.
  - rewrite Join_cons2. destruct x as [|c x]; [congruence|].
    rewrite str_app_cons. destruct x; discriminate.
Qed.

(** The module root found for a directory is one of its ancestors, so the
    directory is the root followed by further elements. *)
Lemma findGoMod_above (w : world) (cs : list string) :
  proper cs -> findGoMod w (abs_path cs) <> "" ->
  exists pre suf, cs = pre ++ suf /\ findGoMod w (abs_path cs) = abs_path pre.
Proof.
  intros Hcs Hne.
  destruct (findGoMod_fuel_walk w _ _ _ (findGoMod_spec w (abs_path cs)))
    as [(k & E & _) | (E & _)];
    [|congruence].
  exists (take (List.length cs - k) cs), (skipn (List.length cs - k) cs).
  split; [symmetry; apply take_drop|].
  rewrite E. apply ancestor_abs_path. exact Hcs.
Qed.

(** X9.  With an absolute working directory [filepath.Rel] cannot fail
    in [describe]: once the package clause, the module root, the module
    name and the version are accepted, the descriptor is returned in an
    unchanged world.  Its relative path is made of the elements that lead
    from the module root to the directory of the file, and its import
    path is the module name followed by them. *)
Theorem describe_succeeds_after_checks (filePath symbolName : string)
    (w : world) (pkgName modName goVer : string) :
  let absPath := Filepath.Abs (cwd w) filePath in
  let fileDir := Filepath.Dir absPath in
  let modDir := findGoMod w fileDir in
  Filepath.IsAbs (cwd w) = true ->
  parsePkgName w absPath = Ok pkgName ->
  modDir <> "" ->
  parseGoMod w modDir = Ok (modName, goVer) ->
  modName <> "" ->
  ltb goVer "1.18" = false ->
  exists pre suf,
    proper (pre ++ suf) /\
    modDir = abs_path pre /\ fileDir = abs_path (pre ++ suf) /\
    describe filePath symbolName w
    = (Return ({| ImportName :=
                    match suf with
                    | [] => modName
                    | _ => modName +:+ "/" +:+ GoStrings.Join suf "/"
                    end;
                  FileName := Filepath.Base absPath;
                  PackageName := pkgName;
                  RelativePath := GoStrings.Join suf "/";
                  TypeName := symbolName;
                  ModuleName := modName;
                  FilePath := Filepath.Join [fileDir; Filepath.Base absPath] |},
               fileDir), w).
Proof.
  intros absPath fileDir modDir Hcwd Hpkg Hmod Hparse Hname Hver.
  destruct (Abs_rooted (cwd w) filePath Hcwd) as (cs0 & Hcs0 & E0).
  destruct (Dir_abs_proper cs0 Hcs0) as (cs & Hcs & E1).
  assert (Edir : fileDir = abs_path cs).
  { unfold fileDir, absPath. rewrite E0. exact E1. }
  subst modDir. rewrite Edir in Hmod, Hparse.
  destruct (findGoMod_above w cs Hcs Hmod) as (pre & suf & -> & Epre).
  exists pre, suf. split; [exact Hcs|].
  rewrite Edir. split; [exact Epre|]. split; [reflexivity|].
  apply Forall_app in Hcs as [Hpre Hsuf].
  rewrite describe_unfold. cbv zeta.
  fold absPath. fold fileDir. rewrite Hpkg, Edir, Epre in *.
  rewrite abs_path_nonempty, Hparse. cbn [fst snd].
  apply is_empty_false in Hname. rewrite Hname, Hver.
  rewrite (Rel_abs_path pre suf Hpre Hsuf).
  destruct suf as [|x suf]; [reflexivity|].
  pose proof (Join_proper_not_dot (x :: suf) Hsuf) as Hdot.
  pose proof (Join_proper_nonempty (x :: suf) Hsuf ltac:(discriminate)) as Hnn.
  apply String.eqb_neq in Hdot. rewrite Hdot.
  apply is_empty_false in Hnn. rewrite Hnn. reflexivity.
Qed.

Lemma describe_succeeds_after_checks_witness :
  exists pre suf,
    proper (pre ++ suf) /\
    findGoMod Sample.w0
      (Filepath.Dir (Filepath.Abs (cwd Sample.w0) "app/pkg/models.go"))
    = abs_path pre /\
    Filepath.Dir (Filepath.Abs (cwd Sample.w0) "app/pkg/models.go")
    = abs_path (pre ++ suf) /\
    describe "app/pkg/models.go" "User" Sample.w0
    = (Return ({| ImportName :=
                    match suf with
                    | [] => "example.com/app"
                    | _ => "example.com/app" +:+ "/" +:+ GoStrings.Join suf "/"
                    end;
                  FileName :=
                    Filepath.Base
                      (Filepath.Abs (cwd Sample.w0) "app/pkg/models.go");
                  PackageName := "models";
                  RelativePath := GoStrings.Join suf "/";
                  TypeName := "User";
                  ModuleName := "example.com/app";
                  FilePath :=
                    Filepath.Join
                      [Filepath.Dir
                         (Filepath.Abs (cwd Sample.w0) "app/pkg/models.go");
                       Filepath.Base
                         (Filepath.Abs (cwd Sample.w0) "app/pkg/models.go")] |},
               Filepath.Dir (Filepath.Abs (cwd Sample.w0) "app/pkg/models.go")),
       Sample.w0).
Proof.
  apply (describe_succeeds_after_checks "app/pkg/models.go" "User" Sample.w0
           "models" "example.com/app" "1.20");
    [reflexivity | vm_compute; reflexivity | vm_compute; discriminate
    | vm_compute; reflexivity | discriminate | reflexivity].
Defined.

End Descriptor.

(* ===================================================================== *)
(** * Package clauses *)
(* ===================================================================== *)

Section Trimming.

Lemma head_bytes_length (n : nat) (s : string) :
  String.length (head_bytes n s) = Nat.min n (String.length s).
Proof.
  revert s. induction n as [|n IH]; intros [|c s]; cbn; try reflexivity.
  rewrite IH. reflexivity.
Qed.

Lemma head_bytes_drop (n : nat) (s : string) : head_bytes n s +:+ drop n s = s.
Proof.
  revert s. induction n as [|n IH]; intros [|c s]; cbn; try reflexivity.
  rewrite str_app_cons, IH. reflexivity.
Qed.

Lemma head_bytes_all (n : nat) (s : string) :
  String.length s <= n -> head_bytes n s = s.
Proof.
  revert s. induction n as [|n IH]; intros [|c s] H; cbn in *;
    try reflexivity; [lia|].
  rewrite IH by lia. reflexivity.
Qed.

Lemma head_bytes_twice (n m : nat) (s : string) :
  head_bytes n (head_bytes m s) = head_bytes (Nat.min n m) s.
Proof.
  revert m s. induction n as [|n IH]; intros [|m] [|c s]; cbn;
    try reflexivity.
  rewrite IH. reflexivity.
Qed.

Lemma str_drop_length (n : nat) (s : string) :
  String.length (drop n s) = String.length s - n.
Proof.
  revert s. induction n as [|n IH]; intros [|c s]; cbn; try reflexivity.
  apply IH.
Qed.

Lemma str_drop_drop (n m : nat) (s : string) : drop n (drop m s) = drop (m + n) s.
Proof.
  revert s. induction m as [|m IH]; intros s; [reflexivity|].
  destruct s as [|c s]; cbn.
  - destruct n; reflexivity.
  - apply IH.
Qed.

Lemma str_drop_head (n m : nat) (s : string) :
  n <= m -> drop n s = drop n (head_bytes m s) +:+ drop m s.
Proof.
  revert m s. induction n as [|n IH]; intros m s H.
  - cbn [drop]. rewrite head_bytes_drop. reflexivity.
  - destruct m as [|m]; [lia|]. destruct s as [|c s]; [reflexivity|].
    cbn [drop head_bytes]. apply IH. lia.
Qed.

Lemma byte_at_head (n i : nat) (s : string) :
  i < n -> byte_at (head_bytes n s) i = byte_at s i.
Proof.
  unfold byte_at. revert i s. induction n as [|n IH]; intros i s H; [lia|].
  destruct s as [|c s]; [reflexivity|]. destruct i as [|i]; [reflexivity|].
  cbn [head_bytes String.get]. apply IH. lia.
Qed.

(** The string from a position inside it starts with the byte there. *)
Lemma str_drop_byte (i : nat) (s : string) :
  i < String.length s ->
  exists c, drop i s = String c (drop (S i) s) /\ byte_at s i = N_of_ascii c.
Proof.
  unfold byte_at. revert s. induction i as [|i IH]; intros [|c s] H;
    cbn in H; try lia.
  - exists c. split; reflexivity.
  - destruct (IH s ltac:(lia)) as (c' & E & B). exists c'.
    cbn [drop String.get]. split; assumption.
Qed.

Lemma first_ascii (b : N) : first b = as_ascii <-> (b < 128)%N.
Proof.
  unfold first. destruct (N.ltb_spec b 128); [tauto|].
  split; [|lia].
  repeat match goal with
         | |- context [if ?c then _ else _] => destruct c
         end; discriminate.
Qed.

Lemma first_leading (b : N) (sz : nat) (lo hi : N) :
  first b = leading sz lo hi ->
  (194 <= b)%N /\ (sz = 2 \/ sz = 3 \/ sz = 4) /\ (128 <= lo)%N /\ (hi <= 191)%N.
Proof.
  unfold first.
  destruct (N.ltb_spec b 128) as [|G1]; [discriminate|].
  destruct (N.ltb_spec b 194) as [|G2]; [discriminate|].
  repeat match goal with
         | |- context [if ?c then _ else _] => destruct c
         end; intros E; inversion E; subst; repeat split; auto; lia.
Qed.

Lemma not_continuation (b lo hi : N) :
  continuation b = false -> (128 <= lo)%N -> (hi <= 191)%N ->
  (b <? lo)%N || (hi <? b)%N = true.
Proof.
  unfold continuation. intros H Hlo Hhi.
  apply andb_false_iff in H as [H|H].
  - apply N.leb_gt in H. apply orb_true_iff. left. apply N.ltb_lt. lia.
  - apply N.leb_gt in H. apply orb_true_iff. right. apply N.ltb_lt. lia.
Qed.

(** The rune of an ASCII byte is the byte. *)
Lemma Decode_ascii (c : ascii) (t : string) :
  (N_of_ascii c < 128)%N ->
  DecodeRuneInString (String c t) = (N_of_ascii c, 1).
Proof.
  intros H. apply first_ascii in H. cbn [DecodeRuneInString]. rewrite H.
  reflexivity.
Qed.

(** A byte that is not ASCII and is not followed by a continuation byte
    is an error of width 1. *)
Lemma Decode_broken (c : ascii) (q : string) :
  (128 <= N_of_ascii c)%N ->
  match q with
  | EmptyString => True
  | String c' _ => continuation (N_of_ascii c') = false
  end ->
  DecodeRuneInString (String c q) = (RuneError, 1).
Proof.
  intros Hc Hq. cbn [DecodeRuneInString].
  destruct (first (N_of_ascii c)) as [| |sz lo hi] eqn:Hf.
  - apply first_ascii in Hf. lia.
  - reflexivity.
  - apply first_leading in Hf as (_ & Hsz & Hlo & Hhi).
    destruct q as [|c' q'].
    + destruct (_ <? _); reflexivity.
    + rewrite (not_continuation _ lo hi Hq Hlo Hhi).
      destruct (_ <? _); reflexivity.
Qed.

(** What a decoding can give: nothing for the empty string; one byte,
    which is the rune when it is ASCII and an error otherwise; or a
    sequence of two to four bytes that starts with a leading byte and is
    decoded alike whatever follows it. *)
Lemma Decode_cases (s : string) (r : N) (n : nat) :
  DecodeRuneInString s = (r, n) ->
  (s = "" /\ n = 0 /\ r = RuneError) \/
  (n = 1 /\ exists c t, s = String c t /\
     (((N_of_ascii c < 128)%N /\ r = N_of_ascii c) \/
      ((128 <= N_of_ascii c)%N /\ r = RuneError))) \/
  (2 <= n /\ n <= String.length s /\
   (exists c t, s = String c t /\ (194 <= N_of_ascii c)%N) /\
   forall q, DecodeRuneInString (head_bytes n s +:+ q) = (r, n)).
Proof.
  destruct s as [|c0 t0]; cbn [DecodeRuneInString].
  { intros H. inversion H. left. auto. }
  destruct (first (N_of_ascii c0)) as [| |sz lo hi] eqn:Hf.
  - intros H. inversion H. subst. right. left. split; [reflexivity|].
    exists c0, t0. split; [reflexivity|]. left. apply first_ascii in Hf. auto.
  - intros H. inversion H. subst. right. left. split; [reflexivity|].
    exists c0, t0. split; [reflexivity|]. right. split; [|reflexivity].
    destruct (N.lt_ge_cases (N_of_ascii c0) 128) as [Hlt|Hge]; [|exact Hge].
    apply first_ascii in Hlt. congruence.
  - pose proof (first_leading _ _ _ _ Hf) as (Hb & Hsz & Hlo & Hhi).
    assert (Herr : forall r n, (RuneError, 1) = (r, n) ->
      n = 1 /\ exists c t, String c0 t0 = String c t /\
        (((N_of_ascii c < 128)%N /\ r = N_of_ascii c) \/
         ((128 <= N_of_ascii c)%N /\ r = RuneError))).
    { intros r' n' H. inversion H. split; [reflexivity|].
      exists c0, t0. split; [reflexivity|]. right. split; [lia|reflexivity]. }
    destruct (Nat.ltb_spec (String.length (String c0 t0)) sz) as [Hlen|Hlen].
    { intros H. right. left. apply Herr. exact H. }
    destruct t0 as [|c1 t1].
    { intros H. right. left. apply Herr. exact H. }
    destruct ((N_of_ascii c1 <? lo)%N || (hi <? N_of_ascii c1)%N) eqn:H1.
    { intros H. right. left. apply Herr. exact H. }
    destruct Hsz as [-> | Hsz].
    { cbn [Nat.leb]. intros H. inversion H. subst. right. right.
      split; [lia|]. split; [cbn; lia|]. split; [eauto|].
      intros q. cbn [head_bytes]. rewrite !str_app_cons.
      cbn [DecodeRuneInString]. rewrite Hf, H1. reflexivity. }
    assert (Hsz2 : (sz <=? 2) = false) by (apply Nat.leb_gt; lia).
    rewrite Hsz2.
    destruct t1 as [|c2 t2].
    { intros H. right. left. apply Herr. exact H. }
    destruct (continuation (N_of_ascii c2)) eqn:H2; cbn [negb].
    2:{ intros H. right. left. apply Herr. exact H. }
    destruct Hsz as [-> | ->].
    { cbn [Nat.leb]. intros H. inversion H. subst. right. right.
      split; [lia|]. split; [cbn; lia|]. split; [eauto|].
      intros q. cbn [head_bytes]. rewrite !str_app_cons.
      cbn [DecodeRuneInString]. rewrite Hf, H1, H2. reflexivity. }
    cbn [Nat.leb].
    destruct t2 as [|c3 t3].
    { intros H. right. left. apply Herr. exact H. }
    destruct (continuation (N_of_ascii c3)) eqn:H3; cbn [negb].
    2:{ intros H. right. left. apply Herr. exact H. }
    intros H. inversion H. subst. right. right.
    split; [lia|]. split; [cbn; lia|]. split; [eauto|].
    intros q. cbn [head_bytes]. rewrite !str_app_cons.
    cbn [DecodeRuneInString]. rewrite Hf, H1, H2, H3. reflexivity.
Qed.

Lemma str_drop_all (s : string) : drop (String.length s) s = "".
Proof. induction s as [|c s IH]; [reflexivity | exact IH]. Qed.

Lemma Decode_size (s : string) :
  s <> "" -> 1 <= (DecodeRuneInString s).2.
Proof.
  intros Hs. destruct (DecodeRuneInString s) as [r n] eqn:E.
  destruct (Decode_cases s r n E) as [(H & _) | [(-> & _) | (H & _)]];
    cbn; [contradiction | lia | lia].
Qed.

Lemma last_start_le (s : string) (lim n : nat) :
  last_start s lim n <= lim + n.
Proof.
  induction n as [|n IH]; cbn [last_start]; [lia|].
  destruct (RuneStart _); lia.
Qed.

(** What decoding from the end can give: the last byte when it is ASCII;
    otherwise an error of width 1, or a rune that decoding gives at the
    place where its width says that it starts. *)
Lemma DecodeLast_cases (s : string) (r : N) (size : nat) :
  s <> "" ->
  DecodeLastRuneInString s = (r, size) ->
  1 <= size <= String.length s /\
  (((byte_at s (String.length s - 1) < 128)%N /\ size = 1 /\
    r = byte_at s (String.length s - 1)) \/
   ((128 <= byte_at s (String.length s - 1))%N /\
    ((size = 1 /\ r = RuneError) \/
     DecodeRuneInString (drop (String.length s - size) s) = (r, size)))).
Proof.
  intros Hs. unfold DecodeLastRuneInString.
  destruct (String.length s) as [|last] eqn:Hlen.
  { destruct s; [contradiction | discriminate]. }
  replace (S last - 1) with last by lia.
  destruct (N.ltb_spec (byte_at s last) RuneSelf) as [Hlt|Hge].
  { intros H. inversion H. subst. split; [lia|]. left. auto. }
  set (start := last_start s (S last - UTFMax) (last - (S last - UTFMax))).
  assert (Hstart : start <= last).
  { subst start. pose proof (last_start_le s (S last - UTFMax)
                               (last - (S last - UTFMax))).
    unfold UTFMax in *. lia. }
  destruct (DecodeRuneInString (drop start s)) as [r0 size0] eqn:Hdec.
  assert (Hpos : 1 <= size0).
  { pose proof (Decode_size (drop start s)) as Hp. rewrite Hdec in Hp.
    apply Hp. intros E. apply (f_equal String.length) in E.
    rewrite str_drop_length, Hlen in E. cbn in E. lia. }
  destruct (Nat.eqb_spec (start + size0) (S last)) as [Heq|Hne].
  - intros H. inversion H. subst r0 size0. split; [lia|]. right.
    split; [exact Hge|]. right.
    replace (S last - size) with start by lia. exact Hdec.
  - intros H. inversion H. subst. split; [lia|]. right.
    split; [exact Hge|]. left. auto.
Qed.

(** Below [RuneSelf] the white space of Unicode is that of the table. *)
Lemma IsSpace_ascii (b : N) : (b < 128)%N -> IsSpace b = asciiSpace b.
Proof.
  intros H. unfold IsSpace, asciiSpace.
  assert ((b <=? 255)%N = true) as -> by (apply N.leb_le; lia).
  cbn [existsb].
  assert ((b =? 133)%N = false) as -> by (apply N.eqb_neq; lia).
  assert ((b =? 160)%N = false) as -> by (apply N.eqb_neq; lia).
  reflexivity.
Qed.

(** The first rune of a prefix is the first rune of the string, or an
    error: a prefix does not start with white space when the string does
    not. *)
Lemma Decode_prefix (m : nat) (v : string) :
  IsSpace (DecodeRuneInString v).1 = false ->
  IsSpace (DecodeRuneInString (head_bytes m v)).1 = false.
Proof.
  intros Hv.
  destruct (DecodeRuneInString (head_bytes m v)) as [r' n'] eqn:E'. cbn [fst].
  destruct (Decode_cases _ _ _ E')
    as [(_ & _ & ->) | [(_ & c & t & Hc & [[Hlt ->] | [_ ->]]) |
                        (Hn & Hlen & _ & Happ)]].
  - reflexivity.
  - destruct m as [|m]; [discriminate|]. destruct v as [|c0 t0]; [discriminate|].
    cbn [head_bytes] in Hc. inversion Hc. subst c.
    rewrite (Decode_ascii c0 t0 Hlt) in Hv. exact Hv.
  - reflexivity.
  - specialize (Happ (drop n' v)).
    rewrite head_bytes_twice in Happ. rewrite head_bytes_length in Hlen.
    replace (Nat.min n' m) with n' in Happ by lia.
    rewrite head_bytes_drop in Happ. rewrite Happ in Hv. exact Hv.
Qed.

Lemma continuation_false_ascii (b : N) :
  (b < 128)%N -> continuation b = false.
Proof.
  intros H. unfold continuation. apply andb_false_iff. left.
  apply N.leb_gt. exact H.
Qed.

Lemma continuation_false_leading (b : N) :
  (194 <= b)%N -> continuation b = false.
Proof.
  intros H. unfold continuation. apply andb_false_iff. right.
  apply N.leb_gt. lia.
Qed.

(** The search from the end stops at a rune that is not white space, and
    the width that [TrimRightFunc] then decodes forwards is the width that
    was found backwards. *)
Lemma lastIndexFunc_spec (fuel : nat) (s : string) :
  forall i, i <= String.length s -> i <= fuel -> boundary s i ->
  match lastIndexFunc_fuel fuel s i IsSpace false with
  | None => True
  | Some j =>
      exists r size,
        1 <= size /\ j + size <= String.length s /\
        DecodeLastRuneInString (head_bytes (j + size) s) = (r, size) /\
        IsSpace r = false /\
        (if (RuneSelf <=? byte_at s j)%N
         then (DecodeRuneInString (drop j s)).2 = size
         else size = 1)
  end.
Proof.
  induction fuel as [|fuel IH]; intros i Hi Hf Hb; [exact I|].
  cbn [lastIndexFunc_fuel]. destruct i as [|i']; [exact I|].
  remember (S i') as i eqn:Ei.
  destruct (DecodeLastRuneInString (head_bytes i s)) as [r size] eqn:Hlast.
  assert (Hne : head_bytes i s <> "").
  { intros E. apply (f_equal String.length) in E. rewrite head_bytes_length in E.
    cbn in E. lia. }
  destruct (DecodeLast_cases _ _ _ Hne Hlast) as [[Hs1 Hs2] Hcases].
  rewrite head_bytes_length in Hs2, Hcases.
  replace (Nat.min i (String.length s)) with i in Hs2, Hcases by lia.
  replace (i - 1) with i' in Hcases by lia.
  rewrite byte_at_head in Hcases by lia.
  destruct (str_drop_byte i' s ltac:(lia)) as (c & Hdrop & Hbyte).
  rewrite <- Ei in Hdrop.
  (* the rune found starts at a boundary, and decoding forwards from
     there gives its width *)
  assert (Hfwd : IsSpace r = false ->
            if (RuneSelf <=? byte_at s (i - size))%N
            then (DecodeRuneInString (drop (i - size) s)).2 = size
            else size = 1).
  { intros Hr.
    destruct Hcases as [(Hlt & -> & _) | (Hge & [[-> _] | Hdec])].
    - replace (i - 1) with i' by lia.
      destruct (N.leb_spec RuneSelf (byte_at s i')); [unfold RuneSelf in *; lia|].
      reflexivity.
    - replace (i - 1) with i' by lia.
      destruct (N.leb_spec RuneSelf (byte_at s i')); [|unfold RuneSelf in *; lia].
      rewrite Hdrop, Decode_broken; [reflexivity | lia | exact Hb].
    - destruct (Decode_cases _ _ _ Hdec)
        as [(_ & Hz & _) | [(-> & _) | (Hn & _ & (c0 & t0 & Hc0 & Hlead) & Happ)]].
      + lia.
      + replace (i - 1) with i' by lia.
        destruct (N.leb_spec RuneSelf (byte_at s i'));
          [|unfold RuneSelf in *; lia].
        rewrite Hdrop, Decode_broken; [reflexivity | lia | exact Hb].
      + assert (Hj : i - size < String.length s) by lia.
        destruct (str_drop_byte (i - size) s Hj) as (cj & Hdj & Hbj).
        assert (cj = c0).
        { rewrite (str_drop_head (i - size) i s) in Hdj by lia.
          rewrite Hc0 in Hdj. rewrite str_app_cons in Hdj. congruence. }
        subst cj.
        destruct (N.leb_spec RuneSelf (byte_at s (i - size)));
          [|unfold RuneSelf in *; lia].
        specialize (Happ (drop i s)).
        replace (head_bytes size (drop (i - size) (head_bytes i s)))
          with (drop (i - size) (head_bytes i s)) in Happ.
        2:{ symmetry. apply head_bytes_all. rewrite str_drop_length, head_bytes_length. lia. }
        rewrite <- (str_drop_head (i - size) i s) in Happ by lia.
        rewrite Happ. reflexivity. }
  destruct (IsSpace r) eqn:Hr; cbn [Bool.eqb].
  - (* white space: the search goes on from a boundary *)
    apply IH; [lia | lia |].
    unfold boundary.
    destruct Hcases as [(Hlt & -> & _) | (Hge & [[_ ->] | Hdec])].
    + replace (i - 1) with i' by lia. rewrite Hdrop.
      apply continuation_false_ascii. lia.
    + discriminate.
    + destruct (Decode_cases _ _ _ Hdec)
        as [(_ & Hz & _) | [(_ & c0 & t0 & Hc0 & [[Hlt _] | [_ ->]]) |
                            (Hn & _ & (c0 & t0 & Hc0 & Hlead) & _)]].
      * lia.
      * (* one byte, ASCII: it is the last byte, which is not ASCII *)
        exfalso.
        assert (Hsz : size = 1).
        { destruct (Decode_cases _ _ _ Hdec)
            as [(E & _) | [(E & _) | (E & _ & _ & Happ)]]; [|exact E|].
          - rewrite Hc0 in E. discriminate.
          - specialize (Happ ""). rewrite Hc0 in Happ.
            destruct size as [|[|size]]; [lia | reflexivity |].
            cbn [head_bytes] in Happ. rewrite str_app_cons in Happ.
            rewrite (Decode_ascii c0 _ Hlt) in Happ. inversion Happ. }
        subst size. replace (i - 1) with i' in Hc0 by lia.
        rewrite (str_drop_head i' i s) in Hdrop by lia. rewrite Hc0 in Hdrop.
        rewrite str_app_cons in Hdrop. inversion Hdrop. subst c0. lia.
      * discriminate.
      * assert (Hj : i - size < String.length s) by lia.
        destruct (str_drop_byte (i - size) s Hj) as (cj & Hdj & _).
        rewrite Hdj.
        rewrite (str_drop_head (i - size) i s) in Hdj by lia.
        rewrite Hc0, str_app_cons in Hdj. inversion Hdj. subst cj.
        apply continuation_false_leading. exact Hlead.
  - exists r, size. split; [exact Hs1|].
    replace (i - size + size) with i by lia.
    split; [exact Hi|]. split; [exact Hlast|]. split; [exact Hr|].
    apply Hfwd. reflexivity.
Qed.

(** [TrimRightFunc] for white space gives a prefix that is empty or whose
    last rune is not white space. *)
Lemma TrimRightFunc_spec (v : string) :
  exists m,
    TrimRightFunc v IsSpace = head_bytes m v /\ m <= String.length v /\
    (m = 0 \/ IsSpace (DecodeLastRuneInString (head_bytes m v)).1 = false).
Proof.
  unfold TrimRightFunc, lastIndexFunc.
  pose proof (lastIndexFunc_spec (String.length v) v (String.length v)
                (le_n _) (le_n _)) as H.
  unfold boundary in H. rewrite str_drop_all in H. specialize (H I).
  destruct (lastIndexFunc_fuel _ _ _ _ _) as [j|].
  - destruct H as (r & size & H1 & H2 & H3 & H4 & H5).
    exists (j + size). split; [|split; [exact H2|]].
    + destruct (RuneSelf <=? byte_at v j)%N.
      * rewrite H5. reflexivity.
      * subst size. rewrite Nat.add_1_r. reflexivity.
    + right. rewrite H3. exact H4.
  - exists 0. split; [destruct v; reflexivity|]. split; [lia | left; reflexivity].
Qed.

Lemma indexFunc_spec (fuel : nat) :
  forall s i,
  match indexFunc_fuel fuel s i IsSpace false with
  | None => True
  | Some j =>
      i <= j /\ IsSpace (DecodeRuneInString (drop (j - i) s)).1 = false
  end.
Proof.
  induction fuel as [|fuel IH]; intros s i; [exact I|].
  cbn [indexFunc_fuel]. destruct s as [|c t]; [exact I|].
  destruct (DecodeRuneInString (String c t)) as [r size] eqn:Hdec.
  destruct (IsSpace r) eqn:Hr; cbn [Bool.eqb].
  - specialize (IH (drop size (String c t)) (i + size)).
    destruct (indexFunc_fuel _ _ _ _ _) as [j|]; [|exact I].
    destruct IH as [Hj Hs]. split; [lia|].
    rewrite str_drop_drop in Hs.
    replace (size + (j - (i + size))) with (j - i) in Hs by lia. exact Hs.
  - split; [lia|]. rewrite Nat.sub_diag. cbn [drop]. rewrite Hdec. exact Hr.
Qed.

(** [TrimLeftFunc] for white space gives a string that is empty or whose
    first rune is not white space. *)
Lemma TrimLeftFunc_spec (s : string) :
  IsSpace (DecodeRuneInString (TrimLeftFunc s IsSpace)).1 = false.
Proof.
  unfold TrimLeftFunc, indexFunc.
  pose proof (indexFunc_spec (String.length s) s 0) as H.
  destruct (indexFunc_fuel _ _ _ _ _) as [j|]; [|reflexivity].
  destruct H as [_ H]. rewrite Nat.sub_0_r in H. exact H.
Qed.

Lemma DecodeLast_ascii (u : string) (k : nat) :
  k < String.length u -> (byte_at u k < 128)%N ->
  DecodeLastRuneInString (head_bytes (S k) u) = (byte_at u k, 1).
Proof.
  intros Hk Hlt. unfold DecodeLastRuneInString.
  rewrite head_bytes_length. replace (Nat.min (S k) (String.length u)) with (S k) by lia.
  rewrite byte_at_head by lia.
  destruct (N.ltb_spec (byte_at u k) RuneSelf); [reflexivity|].
  unfold RuneSelf in *. lia.
Qed.

Lemma trim_stop_spec (u : string) (n : nat) :
  n <= String.length u ->
  exists m,
    trim_stop u n = head_bytes m u /\ m <= String.length u /\
    (m = 0 \/ IsSpace (DecodeLastRuneInString (head_bytes m u)).1 = false).
Proof.
  induction n as [|k IH]; intros Hn.
  { exists 0. split; [destruct u; reflexivity|]. split; [lia | left; reflexivity]. }
  cbn [trim_stop].
  destruct (N.leb_spec RuneSelf (byte_at u k)) as [Hge|Hlt].
  - destruct (TrimRightFunc_spec (head_bytes (S k) u)) as (m & E & Hm & Hlast).
    rewrite head_bytes_length in Hm. exists m.
    rewrite head_bytes_twice in E, Hlast.
    replace (Nat.min m (S k)) with m in E, Hlast by lia.
    split; [exact E|]. split; [lia | exact Hlast].
  - destruct (asciiSpace (byte_at u k)) eqn:Hsp; [apply IH; lia|].
    exists (S k). split; [reflexivity|]. split; [exact Hn|]. right.
    rewrite DecodeLast_ascii by (unfold RuneSelf in *; lia). cbn [fst].
    rewrite IsSpace_ascii by (unfold RuneSelf in *; lia). exact Hsp.
Qed.

Lemma trimmed_prefix (m : nat) (v : string) :
  IsSpace (DecodeRuneInString v).1 = false ->
  (m = 0 \/ IsSpace (DecodeLastRuneInString (head_bytes m v)).1 = false) ->
  trimmed (head_bytes m v) = true.
Proof.
  intros Hfirst [-> | Hlast].
  - destruct v; reflexivity.
  - unfold trimmed. rewrite (Decode_prefix m v Hfirst), Hlast.
    apply orb_true_r.
Qed.

(** What [strings.TrimSpace] returns has no white space at either end. *)
Lemma TrimSpace_trimmed (s : string) : trimmed (TrimSpace s) = true.
Proof.
  induction s as [|c s IH]; [reflexivity|].
  cbn [TrimSpace].
  destruct (N.leb_spec RuneSelf (N_of_ascii c)) as [Hge|Hlt].
  - unfold TrimFunc.
    destruct (TrimRightFunc_spec (TrimLeftFunc (String c s) IsSpace))
      as (m & -> & _ & Hlast).
    apply trimmed_prefix; [apply TrimLeftFunc_spec | exact Hlast].
  - destruct (asciiSpace (N_of_ascii c)) eqn:Hsp; [exact IH|].
    destruct (trim_stop_spec (String c s) (String.length (String c s))
                (le_n _)) as (m & -> & _ & Hlast).
    apply trimmed_prefix; [|exact Hlast].
    rewrite Decode_ascii by (unfold RuneSelf in *; lia). cbn [fst].
    rewrite IsSpace_ascii by (unfold RuneSelf in *; lia). exact Hsp.
Qed.

End Trimming.

Section PackageClause.

Lemma first_package_app (before rest : list string) :
  Forall (fun l => HasPrefix l "package " = false) before ->
  first_package (before ++ rest) = first_package rest.
Proof.
  induction 1 as [|l before Hl _ IH]; [reflexivity|].
  cbn [app first_package]. rewrite Hl. exact IH.
Qed.

Lemma first_package_None (lines : list string) :
  first_package lines = None <->
  Forall (fun l => HasPrefix l "package " = false) lines.
Proof.
  induction lines as [|l lines IH]; [split; [constructor | reflexivity]|].
  cbn [first_package]. destruct (HasPrefix l "package ") eqn:Hl.
  - split; [discriminate|]. intros H. inversion H. congruence.
  - rewrite IH. split.
    + intros H. constructor; assumption.
    + intros H. inversion H. assumption.
Qed.

Lemma first_package_trimmed (lines : list string) (name : string) :
  first_package lines = Some name -> trimmed name = true.
Proof.
  induction lines as [|l lines IH]; [discriminate|].
  cbn [first_package]. destruct (HasPrefix l "package "); [|exact IH].
  intros H. inversion H. apply TrimSpace_trimmed.
Qed.

(** X1.  The package name comes from the first scanned line that starts
    with [package] and a space: it is what follows that prefix, without
    the white space around it, and no later line is looked at. *)
Theorem parsePkgName_first_clause_wins (w : world) (file data : string)
    (before after : list string) (line : string) :
  files w !! Os.key w file = Some (File data) ->
  scan_lines (Split data (String LF "")) = before ++ line :: after ->
  Forall (fun l => HasPrefix l "package " = false) before ->
  HasPrefix line "package " = true ->
  parsePkgName w file = Ok (TrimSpace (TrimPrefix line "package ")).
Proof.
  intros Hfile Hlines Hbefore Hline. unfold parsePkgName.
  rewrite Hfile. change (String "010" "") with (String LF "").
  rewrite Hlines, (first_package_app before _ Hbefore).
  cbn [first_package]. rewrite Hline. reflexivity.
Qed.

Lemma parsePkgName_first_clause_wins_witness :
  parsePkgName Sample.w0 "app/pkg/models.go"
  = Ok (TrimSpace (TrimPrefix "package models" "package ")).
Proof.
  apply (parsePkgName_first_clause_wins Sample.w0 "app/pkg/models.go"
           (Sample.text ["package models"; ""; "type User struct{}"])
           [] [""; "type User struct{}"] "package models");
    [vm_compute; reflexivity | vm_compute; reflexivity | constructor
    | vm_compute; reflexivity].
Defined.

Lemma parsePkgName_not_found (w : world) (file data : string) :
  files w !! Os.key w file = Some (File data) ->
  Forall (fun l => HasPrefix l "package " = false)
         (scan_lines (Split data (String LF ""))) ->
  parsePkgName w file = Err ("package name not found in file " +:+ file).
Proof.
  intros Hfile Hall. unfold parsePkgName. rewrite Hfile.
  change (String "010" "") with (String LF "").
  apply first_package_None in Hall. rewrite Hall. reflexivity.
Qed.

(** X2.  For a file that can be opened, [parsePkgName] fails with
    [package name not found in file] and the name of the file exactly
    when no scanned line starts with [package] and a space. *)
Theorem parsePkgName_not_found_iff (w : world) (file data : string) :
  files w !! Os.key w file = Some (File data) ->
  parsePkgName w file = Err ("package name not found in file " +:+ file) <->
  Forall (fun l => HasPrefix l "package " = false)
         (scan_lines (Split data (String LF ""))).
Proof.
  intros Hfile. unfold parsePkgName. rewrite Hfile.
  change (String "010" "") with (String LF "").
  rewrite <- first_package_None.
  destruct (first_package _); split; congruence.
Qed.

Lemma parsePkgName_not_found_iff_witness :
  parsePkgName Sample.w0 "app/go.mod"
  = Err ("package name not found in file " +:+ "app/go.mod") <->
  Forall (fun l => HasPrefix l "package " = false)
         (scan_lines (Split (Sample.gomod "example.com/app" "1.20")
                            (String LF ""))).
Proof.
  apply (parsePkgName_not_found_iff Sample.w0 "app/go.mod"
           (Sample.gomod "example.com/app" "1.20")).
  vm_compute; reflexivity.
Defined.

(** X3.  A package name that [parsePkgName] returns has no white space
    at either end: it is empty, or neither its first nor its last rune
    is white space in the sense of [unicode.IsSpace], be it a byte of
    ASCII or a character encoded in several bytes. *)
Theorem parsePkgName_trimmed (w : world) (file name : string) :
  parsePkgName w file = Ok name -> trimmed name = true.
Proof.
  unfold parsePkgName. destruct (files w !! Os.key w file); [|discriminate].
  destruct (first_package _) as [p|] eqn:Hp; [|discriminate].
  intros H. inversion H. subst. eapply first_package_trimmed. exact Hp.
Qed.

Lemma parsePkgName_trimmed_witness :
  parsePkgName Scenario.padded "app/pkg/padded.go" = Ok "models" /\
  trimmed "models" = true.
Proof.
  split; [vm_compute; reflexivity|].
  apply (parsePkgName_trimmed Scenario.padded "app/pkg/padded.go" "models").
  vm_compute; reflexivity.
Defined.

Lemma scan_lines_cut (before after : list string) (long : string) :
  too_long long = true ->
  Forall (fun p => HasPrefix (dropCR p) "package " = false) before ->
  Forall (fun l => HasPrefix l "package " = false)
         (scan_lines (before ++ long :: after)).
Proof.
  intros Hlong. induction 1 as [|p before Hp _ IH].
  - cbn [app scan_lines]. rewrite Hlong, orb_true_r. destruct after; constructor.
  - cbn [app]. destruct (before ++ long :: after) as [|q rest] eqn:E.
    { destruct before; discriminate. }
    cbn [scan_lines]. destruct (too_long p); constructor; assumption.
Qed.

(** X4.  A line of [MaxScanTokenSize] bytes or more ends the scan: when
    no package clause precedes such a line the name is not found, whatever
    follows the line. *)
Theorem parsePkgName_stops_at_long_line (w : world) (file data : string)
    (before after : list string) (long : string) :
  files w !! Os.key w file = Some (File data) ->
  Split data (String LF "") = before ++ long :: after ->
  too_long long = true ->
  Forall (fun p => HasPrefix (dropCR p) "package " = false) before ->
  parsePkgName w file = Err ("package name not found in file " +:+ file).
Proof.
  intros Hfile Hsplit Hlong Hbefore.
  apply (parsePkgName_not_found w file data Hfile).
  rewrite Hsplit. apply scan_lines_cut; assumption.
Qed.

Lemma filler_length (n : nat) : String.length (Scenario.filler n) = n.
Proof. induction n as [|n IH]; [reflexivity|]. cbn. rewrite IH. reflexivity. Qed.

Lemma filler_one_line (n : nat) : has_byte LF (Scenario.filler n) = false.
Proof. induction n as [|n IH]; [reflexivity|]. exact IH. Qed.

Lemma parsePkgName_stops_at_long_line_witness :
  parsePkgName Scenario.with_long_source "app/pkg/long.go"
  = Err ("package name not found in file " +:+ "app/pkg/long.go").
Proof.
  apply (parsePkgName_stops_at_long_line Scenario.with_long_source
           "app/pkg/long.go" Scenario.long_source
           [] ["package models"; ""] Scenario.long_comment).
  - reflexivity.
  - change (Split Scenario.long_source (String LF ""))
      with (split_on LF (Scenario.long_comment
                         +:+ String LF ("package models" +:+ Sample.nl))).
    rewrite split_on_app_sep_gen.
    rewrite (split_on_sep_free LF Scenario.long_comment)
      by exact (filler_one_line (N.to_nat MaxScanTokenSize)).
    reflexivity.
  - unfold too_long, Scenario.long_comment.
    rewrite filler_length. vm_compute. reflexivity.
  - constructor.
Defined.

End PackageClause.

(* ===================================================================== *)
(** * The module file and the lines of the rewriter *)
(* ===================================================================== *)

Section ModuleFile.

(** Once both values are known the loop has ended: further lines change
    nothing. *)
Lemma parseGoMod_lines_app (before after : list string) :
  forall m0 g0 m g,
  parseGoMod_lines before m0 g0 = (m, g) ->
  m <> "" -> g <> "" -> m0 = "" \/ g0 = "" ->
  parseGoMod_lines (before ++ after) m0 g0 = (m, g).
Proof.
  induction before as [|line before IH]; intros m0 g0 m g H Hm Hg H0.
  - cbn in H. inversion H. subst. destruct H0; congruence.
  - cbn [app parseGoMod_lines] in *.
    destruct (if HasPrefix line "module "
              then (TrimSpace (TrimPrefix line "module "), g0)
              else if HasPrefix line "go "
                   then (m0, TrimSpace (TrimPrefix line "go "))
                   else (m0, g0)) as [m1 g1].
    destruct (negb (is_empty g1) && negb (is_empty m1)) eqn:Hboth;
      [exact H|].
    apply (IH m1 g1 m g H Hm Hg).
    apply andb_false_iff in Hboth as [Hb|Hb]; apply negb_false_iff in Hb;
      apply is_empty_true in Hb; auto.
Qed.

Lemma parseGoMod_lines_trimmed (lines : list string) :
  forall m0 g0 m g,
  parseGoMod_lines lines m0 g0 = (m, g) ->
  trimmed m0 = true -> trimmed g0 = true ->
  trimmed m = true /\ trimmed g = true.
Proof.
  induction lines as [|line lines IH]; intros m0 g0 m g H Hm Hg.
  - cbn in H. inversion H. subst. auto.
  - cbn [parseGoMod_lines] in H.
    destruct (HasPrefix line "module ").
    + destruct (negb (is_empty g0) &&
                negb (is_empty (TrimSpace (TrimPrefix line "module ")))).
      * inversion H. subst. split; [apply TrimSpace_trimmed | exact Hg].
      * eapply IH; [exact H | apply TrimSpace_trimmed | exact Hg].
    + destruct (HasPrefix line "go ").
      * destruct (negb (is_empty (TrimSpace (TrimPrefix line "go "))) &&
                  negb (is_empty m0)).
        -- inversion H. subst. split; [exact Hm | apply TrimSpace_trimmed].
        -- eapply IH; [exact H | exact Hm | apply TrimSpace_trimmed].
      * destruct (negb (is_empty g0) && negb (is_empty m0)).
        -- inversion H. subst. auto.
        -- eapply IH; eauto.
Qed.

Lemma parseGoMod_lines_no_module (lines : list string) :
  Forall (fun l => HasPrefix l "module " = false) lines ->
  forall g0, (parseGoMod_lines lines "" g0).1 = "".
Proof.
  induction 1 as [|line lines Hl _ IH]; intros g0; [reflexivity|].
  cbn [parseGoMod_lines]. rewrite Hl.
  destruct (HasPrefix line "go ").
  - rewrite andb_false_r. apply IH.
  - rewrite andb_false_r. apply IH.
Qed.

(** X6.  The module file is read up to the line at which both the module
    name and the version are known: what the lines before give is the
    result, and the lines that follow are ignored. *)
Theorem parseGoMod_ignores_the_rest (w : world) (modDir data : string)
    (before after : list string) (m g : string) :
  Os.ReadFile w (Filepath.Join [modDir; "go.mod"]) = Ok data ->
  Split data (String LF "") = before ++ after ->
  parseGoMod_lines before "" "" = (m, g) ->
  m <> "" -> g <> "" ->
  parseGoMod w modDir = Ok (m, g).
Proof.
  intros Hread Hsplit Hbefore Hm Hg. unfold parseGoMod. rewrite Hread.
  change (String "010" "") with (String LF ""). rewrite Hsplit.
  rewrite (parseGoMod_lines_app before after "" "" m g Hbefore Hm Hg);
    [reflexivity | left; reflexivity].
Qed.

Lemma parseGoMod_ignores_the_rest_witness :
  parseGoMod
    (Sample.at_module
       (Sample.text ["module example.com/app"; "go 1.20"; "go 1.0";
                     "module example.com/other"]))
    "/w/app"
  = Ok ("example.com/app", "1.20").
Proof.
  apply (parseGoMod_ignores_the_rest _ "/w/app"
           (Sample.text ["module example.com/app"; "go 1.20"; "go 1.0";
                         "module example.com/other"])
           ["module example.com/app"; "go 1.20"]
           ["go 1.0"; "module example.com/other"; ""]);
    [vm_compute; reflexivity | vm_compute; reflexivity
    | vm_compute; reflexivity | discriminate | discriminate].
Defined.

(** X7.  The module name and the version read from the module file have
    no white space at either end: each is empty, or neither its first
    nor its last rune is white space in the sense of [unicode.IsSpace].
    So the carriage return of a line that ends in one, which the
    splitting at line feeds leaves in place, is not part of either. *)
Theorem parseGoMod_trimmed (w : world) (modDir m g : string) :
  parseGoMod w modDir = Ok (m, g) -> trimmed m = true /\ trimmed g = true.
Proof.
  unfold parseGoMod. destruct (Os.ReadFile w _) as [data|]; [|discriminate].
  intros H. inversion H as [H'].
  eapply parseGoMod_lines_trimmed; [exact H' | reflexivity | reflexivity].
Qed.

Lemma parseGoMod_trimmed_witness :
  parseGoMod Scenario.with_carriage_returns "/w/app"
  = Ok ("example.com/app", "1.20") /\
  trimmed "example.com/app" = true /\ trimmed "1.20" = true.
Proof.
  split; [vm_compute; reflexivity|].
  apply (parseGoMod_trimmed Scenario.with_carriage_returns "/w/app"
           "example.com/app" "1.20").
  vm_compute; reflexivity.
Defined.

(** X8.  A module file in which no line starts with [module] and a space
    makes the run end with status 1 and the message [module name not found
    in go.mod], whatever its version line says; nothing is written. *)
Theorem missing_module_line_is_reported (e : env)
    (filePath symbolName : string) (w : world) (pkgName data : string) :
  let absPath := Filepath.Abs (cwd w) filePath in
  let modDir := findGoMod w (Filepath.Dir absPath) in
  filePath <> "" -> symbolName <> "" ->
  parsePkgName w absPath = Ok pkgName ->
  modDir <> "" ->
  Os.ReadFile w (Filepath.Join [modDir; "go.mod"]) = Ok data ->
  Forall (fun l => HasPrefix l "module " = false) (Split data (String LF "")) ->
  main e filePath symbolName w
  = (Exit 1, log w (StderrJSON {| Error := "module name not found in go.mod" |})).
Proof.
  intros absPath modDir Hf Hs Hpkg Hmod Hread Hlines.
  rewrite main_unfold.
  apply is_empty_false in Hf, Hs. rewrite Hf, Hs. cbn [orb].
  rewrite describe_unfold. cbv zeta. fold absPath. rewrite Hpkg. fold modDir.
  apply is_empty_false in Hmod. rewrite Hmod.
  unfold parseGoMod. rewrite Hread.
  change (String "010" "") with (String LF "").
  rewrite (parseGoMod_lines_no_module _ Hlines ""). reflexivity.
Qed.

Lemma missing_module_line_is_reported_witness :
  main Scenario.tool "app/pkg/models.go" "User"
    (Sample.at_module (Sample.text ["go 1.20"]))
  = (Exit 1,
     log (Sample.at_module (Sample.text ["go 1.20"]))
         (StderrJSON {| Error := "module name not found in go.mod" |})).
Proof.
  apply (missing_module_line_is_reported Scenario.tool "app/pkg/models.go"
           "User" (Sample.at_module (Sample.text ["go 1.20"])) "models"
           (Sample.text ["go 1.20"]));
    [discriminate | discriminate | vm_compute; reflexivity
    | vm_compute; discriminate | vm_compute; reflexivity
    | repeat constructor].
Defined.

End ModuleFile.

Section RewriterLines.

Lemma rewrite_imports_empty (depList : list string) (prefix : string) :
  rewrite_imports depList prefix "" = "".
Proof.
  induction depList as [|dep l IH]; [reflexivity|].
  cbn [rewrite_imports]. destruct (is_empty dep) eqn:He; [exact IH|].
  destruct dep; [discriminate|]. exact IH.
Qed.

(** X13.  An entry of the manifest holds no line feed, so the rewriter
    works line by line: rewriting a text gives the rewritten lines, joined
    by line feeds as before. *)
Theorem rewrite_imports_by_line (deps prefix : string) (lines : list string) :
  let depList := Split deps (String LF "") in
  rewrite_imports depList prefix (GoStrings.Join lines (String LF ""))
  = GoStrings.Join (map (rewrite_imports depList prefix) lines) (String LF "").
Proof.
  intros depList. induction lines as [|l lines IH].
  - apply rewrite_imports_empty.
  - destruct lines as [|l' lines]; [reflexivity|].
    change (map ?f (l :: l' :: lines)) with (f l :: map f (l' :: lines)).
    rewrite !Join_cons2, !str_app_cons, !str_app_nil_l.
    rewrite rewrite_imports_LF by apply Split_LF_has_byte.
    rewrite IH. reflexivity.
Qed.



End RewriterLines.

(* ===================================================================== *)
(** * The copy succeeds *)
(* ===================================================================== *)

Section VisitOrder.

Lemma path_leb_total (a b : string) :
  Walk.path_leb a b = true \/ Walk.path_leb b a = true.
Proof.
  revert b. induction a as [|x a IH]; intros b; [left; reflexivity|].
  destruct b as [|y b]; [right; reflexivity|].
  cbn [Walk.path_leb].
  destruct (N.compare_spec (Walk.rank x) (Walk.rank y)) as [E|L|G].
  - rewrite E, N.compare_refl. apply IH.
  - left. reflexivity.
  - right. apply N.compare_lt_iff in G. rewrite G. reflexivity.
Qed.

Lemma path_leb_trans (a b c : string) :
  Walk.path_leb a b = true -> Walk.path_leb b c = true ->
  Walk.path_leb a c = true.
Proof.
  revert b c. induction a as [|x a IH]; intros b c Hab Hbc; [reflexivity|].
  destruct b as [|y b]; [discriminate|].
  destruct c as [|z c]; [discriminate|].
  cbn [Walk.path_leb] in *.
  destruct (N.compare_spec (Walk.rank x) (Walk.rank y)) as [E1|L1|G1];
    destruct (N.compare_spec (Walk.rank y) (Walk.rank z)) as [E2|L2|G2];
    try discriminate;
    destruct (N.compare_spec (Walk.rank x) (Walk.rank z)) as [E3|L3|G3];
    try reflexivity; try lia.
  eapply IH; eauto.
Qed.

Lemma path_leb_extension (a : string) (c : ascii) (s : string) :
  Walk.path_leb (a +:+ String c s) a = false.
Proof.
  induction a as [|x a IH]; [reflexivity|].
  rewrite str_app_cons. cbn [Walk.path_leb]. rewrite N.compare_refl. exact IH.
Qed.

Lemma visit_le_total : Total Walk.visit_le.
Proof. intros x y. apply path_leb_total. Qed.

Lemma visit_le_trans : Transitive Walk.visit_le.
Proof. intros x y z. apply path_leb_trans. Qed.

End VisitOrder.

Section CopySucceeds.

Local Arguments abs_path : simpl never.

Variables (e : env) (c0 : string) (d : list string).
Hypothesis Hc0 : Filepath.IsAbs c0 = true.
Hypothesis Hd : proper d.
Hypothesis Hsnap : snapshot_clean e = true.
Hypothesis Hclosed : snapshot_closed e = true.

Lemma Join_inj (a b : list string) :
  proper a -> proper b -> GoStrings.Join a "/" = GoStrings.Join b "/" -> a = b.
Proof.
  intros Ha Hb E. apply abs_path_inj; try assumption.
  unfold abs_path. rewrite E. reflexivity.
Qed.

Lemma target_inj (a b : list string) :
  proper a -> proper b -> abs_path (d ++ a) = abs_path (d ++ b) -> a = b.
Proof.
  intros Ha Hb E. apply abs_path_inj in E; [|apply Forall_app; auto..].
  eapply app_inv_head. exact E.
Qed.

Lemma length_Join (cs : list string) :
  List.length cs <= S (String.length (GoStrings.Join cs "/")).
Proof.
  induction cs as [|x cs IH]; [cbn; lia|].
  destruct cs as [|y cs]; [cbn; lia|].
  rewrite Join_cons2, !str_length_app. cbn [List.length] in *.
  change (String.length "/") with 1. lia.
Qed.

Lemma length_abs_path (cs : list string) :
  List.length cs <= String.length (abs_path cs).
Proof.
  unfold abs_path. rewrite str_length_app. change (String.length "/") with 1.
  pose proof (length_Join cs). lia.
Qed.

Lemma snapshot_path (p : string) (n : node) :
  embedFS e !! p = Some n ->
  exists rel, proper rel /\ rel <> [] /\ p = GoStrings.Join rel "/".
Proof.
  intros Hp. destruct (snapshot_clean_spec e p n Hsnap Hp) as (pc & Hpc & E).
  exists pc. split; [exact Hpc|]. split; [|exact E].
  intros ->. cbn in E. subst p.
  unfold snapshot_clean in Hsnap. rewrite forallb_forall in Hsnap.
  specialize (Hsnap ("", n)). cbn in Hsnap. discriminate Hsnap.
  apply list_elem_of_In, elem_of_map_to_list. exact Hp.
Qed.

Lemma snapshot_parent (rel : list string) (n : node) :
  proper rel -> embedFS e !! GoStrings.Join rel "/" = Some n ->
  removelast rel <> [] ->
  embedFS e !! GoStrings.Join (removelast rel) "/" = Some Directory.
Proof.
  intros Hrel Hp Hne. unfold snapshot_closed in Hclosed.
  rewrite forallb_forall in Hclosed.
  specialize (Hclosed (GoStrings.Join rel "/", n)). cbn [fst] in Hclosed.
  rewrite split_on_Join in Hclosed by (apply valid_sep_free; exact Hrel).
  destruct rel as [|x rel']; [contradiction|].
  destruct (removelast (x :: rel')) as [|y l] eqn:E; [contradiction|].
  destruct (embedFS e !! GoStrings.Join (y :: l) "/") as [[?|]|];
    try reflexivity;
    discriminate Hclosed;
    apply list_elem_of_In, elem_of_map_to_list; exact Hp.
Qed.

Lemma take_snoc_cases (j : nat) (l : list string) (x : string) :
  exists j', take j l = take j' (l ++ [x]).
Proof.
  destruct (le_lt_dec j (List.length l)) as [Hle|Hgt].
  - exists j. rewrite take_app_le by exact Hle. reflexivity.
  - exists (List.length l). rewrite take_app_le by lia.
    rewrite !take_ge by lia. reflexivity.
Qed.

(** Every proper prefix of the path of an entry is a directory of the
    snapshot. *)
Lemma prefix_dirs (rel : list string) :
  forall n, proper rel -> embedFS e !! GoStrings.Join rel "/" = Some n ->
  forall j, 0 < j < List.length rel ->
  embedFS e !! GoStrings.Join (take j rel) "/" = Some Directory.
Proof.
  induction rel as [|x rel IH] using rev_ind; intros n Hrel Hp j Hj.
  - cbn in Hj. lia.
  - rewrite length_app in Hj. cbn [List.length] in Hj.
    pose proof Hrel as Hrel0. apply proper_snoc in Hrel as [Hrel' Hx].
    assert (Hpar : embedFS e !! GoStrings.Join rel "/" = Some Directory).
    { pose proof (snapshot_parent (rel ++ [x]) n Hrel0 Hp) as H.
      rewrite removelast_last in H. apply H.
      destruct rel; [cbn in Hj; lia | discriminate]. }
    rewrite take_app_le by lia.
    destruct (decide (j = List.length rel)) as [->|Hne].
    + rewrite firstn_all. exact Hpar.
    + apply (IH Directory Hrel' Hpar). lia.
Qed.

(** With enough rounds [MkdirAll] succeeds below an existing directory
    unless a file is in the way. *)
Lemma MkdirAll_fuel_below (fuel : nat) :
  forall fs rel, proper rel -> fs !! abs_path d = Some Directory ->
  (forall j data, fs !! abs_path (d ++ take j rel) <> Some (File data)) ->
  List.length rel < fuel ->
  (Os.MkdirAll_fuel fuel fs (abs_path (d ++ rel))).2 = None.
Proof.
  induction fuel as [|f IH]; intros fs rel Hrel Hroot Hfree Hlen; [lia|].
  rewrite MkdirAll_fuel_S.
  destruct (fs !! abs_path (d ++ rel)) as [[data|]|] eqn:Hk.
  - exfalso. apply (Hfree (List.length rel) data).
    rewrite firstn_all. exact Hk.
  - reflexivity.
  - destruct (String.eqb _ _); [reflexivity|].
    destruct rel as [|x rel' _] using rev_ind.
    { rewrite app_nil_r in Hk. congruence. }
    apply proper_snoc in Hrel as [Hrel' Hx].
    rewrite app_assoc, Dir_abs_snoc by (try apply Forall_app; auto).
    rewrite length_app in Hlen. cbn [List.length] in Hlen.
    assert (H : (Os.MkdirAll_fuel f fs (abs_path (d ++ rel'))).2 = None).
    { apply IH; [exact Hrel' | exact Hroot | | lia].
      intros j data. destruct (take_snoc_cases j rel' x) as [j' ->].
      apply Hfree. }
    destruct (Os.MkdirAll_fuel f fs (abs_path (d ++ rel'))) as [fs' [err|]];
      [discriminate | reflexivity].
Qed.

(** What [MkdirAll] adds are directories on the way to its path. *)
Lemma MkdirAll_fuel_lookup (fuel : nat) :
  forall fs rel k n, proper rel -> fs !! abs_path d = Some Directory ->
  (Os.MkdirAll_fuel fuel fs (abs_path (d ++ rel))).1 !! k = Some n ->
  fs !! k = Some n \/
  (n = Directory /\ exists j, k = abs_path (d ++ take j rel)).
Proof.
  induction fuel as [|f IH]; intros fs rel k n Hrel Hroot Hk.
  - cbn in Hk. destruct (fs !! abs_path (d ++ rel)) as [[?|]|]; left; exact Hk.
  - rewrite MkdirAll_fuel_S in Hk.
    destruct (fs !! abs_path (d ++ rel)) as [[data|]|] eqn:Hl;
      try (left; exact Hk).
    assert (Hself : forall fs0 : gmap string node,
              <[abs_path (d ++ rel) := Directory]> fs0 !! k = Some n ->
              fs0 !! k = Some n \/
              (n = Directory /\ exists j, k = abs_path (d ++ take j rel))).
    { intros fs0 H. destruct (decide (abs_path (d ++ rel) = k)) as [<-|Hne].
      - rewrite lookup_insert_eq in H. inversion H. right.
        split; [reflexivity|]. exists (List.length rel).
        rewrite firstn_all. reflexivity.
      - rewrite lookup_insert_ne in H by exact Hne. left. exact H. }
    destruct (String.eqb _ _); [apply Hself; exact Hk|].
    destruct rel as [|x rel' _] using rev_ind.
    { rewrite app_nil_r in Hl. congruence. }
    apply proper_snoc in Hrel as [Hrel' Hx].
    rewrite (app_assoc d rel' [x]), Dir_abs_snoc in Hk
      by (try apply Forall_app; auto).
    rewrite <- (app_assoc d rel' [x]) in Hk.
    assert (Hrec : forall n0,
              (Os.MkdirAll_fuel f fs (abs_path (d ++ rel'))).1 !! k = Some n0 ->
              fs !! k = Some n0 \/
              (n0 = Directory /\
               exists j, k = abs_path (d ++ take j (rel' ++ [x])))).
    { intros n0 H. destruct (IH fs rel' k n0 Hrel' Hroot H) as [H1|(H1 & j & H2)].
      - left. exact H1.
      - right. split; [exact H1|].
        destruct (take_snoc_cases j rel' x) as [j' E]. exists j'.
        rewrite <- E. exact H2. }
    destruct (Os.MkdirAll_fuel f fs (abs_path (d ++ rel'))) as [fs' [err|]];
      cbn [fst] in *.
    + apply Hrec. exact Hk.
    + destruct (Hself fs' Hk) as [H|H]; [apply Hrec; exact H | right; exact H].
Qed.


Lemma fits_spec (w : world) : fits e w (abs_path d) = true -> fitsP e d w.
Proof.
  unfold fits. rewrite forallb_forall. intros H rel n n' Hrel Hne Hp Hk.
  specialize (H (GoStrings.Join rel "/", n)). cbn [fst snd] in H.
  rewrite (Join_abs_rel d rel Hd Hrel), Hk in H.
  assert (Hb : same_kindb n n' = true).
  { apply H. apply list_elem_of_In, elem_of_map_to_list. exact Hp. }
  destruct n, n'; try discriminate; exact I.
Qed.

Lemma MkdirAll_step (w : world) (rel : list string) :
  settled c0 d w -> fitsP e d w -> proper rel -> rel <> [] ->
  embedFS e !! GoStrings.Join rel "/" = Some Directory ->
  exists w1, Os.MkdirAll w (abs_path (d ++ rel)) = (w1, None) /\
             settled c0 d w1 /\ fitsP e d w1 /\ quiet w w1.
Proof.
  intros Hw Hfit Hrel Hne Hp.
  destruct (MkdirAll_settled c0 d Hd w rel Hrel Hw) as [Hw1 _].
  pose proof (MkdirAll_quiet w (abs_path (d ++ rel))) as Q.
  assert (Hall : proper (d ++ rel)) by (apply Forall_app; auto).
  destruct Hw as (Hc & Hroot & Hk).
  assert (Hfree : forall j data,
            files w !! abs_path (d ++ take j rel) <> Some (File data)).
  { intros j data Hj.
    destruct j as [|j].
    { cbn [take] in Hj. rewrite app_nil_r in Hj. congruence. }
    assert (Hpre : proper (take (S j) rel)) by (apply Forall_take; exact Hrel).
    assert (Hnn : take (S j) rel <> []) by (destruct rel; [congruence | discriminate]).
    assert (Hdir : embedFS e !! GoStrings.Join (take (S j) rel) "/"
                   = Some Directory).
    { destruct (le_lt_dec (List.length rel) (S j)) as [Hge|Hlt].
      - rewrite take_ge by exact Hge. exact Hp.
      - eapply prefix_dirs; [exact Hrel | exact Hp | lia]. }
    exact (Hfit _ _ _ Hpre Hnn Hdir Hj). }
  assert (Hfuel : List.length rel
                  < S (S (String.length (abs_path (d ++ rel))))).
  { pose proof (length_abs_path (d ++ rel)) as H.
    rewrite length_app in H. lia. }
  pose proof (MkdirAll_fuel_below _ (files w) rel Hrel Hroot Hfree Hfuel) as Hok.
  pose proof (fun k n => MkdirAll_fuel_lookup
                (S (S (String.length (abs_path (d ++ rel)))))
                (files w) rel k n Hrel Hroot) as Hlook.
  unfold Os.MkdirAll in *. rewrite (key_abs_path w _ Hall) in *.
  destruct (Os.MkdirAll_fuel _ (files w) (abs_path (d ++ rel))) as [fs err].
  cbn [fst snd] in *. subst err.
  eexists. split; [reflexivity|]. split; [exact Hw1|]. split; [|exact Q].
  intros rel2 n n' Hrel2 Hne2 Hp2 Hk2. cbn [files set_files] in Hk2.
  destruct (Hlook _ _ Hk2) as [Hold | (-> & j & Ej)].
  - eapply Hfit; eauto.
  - apply target_inj in Ej; [|exact Hrel2 | apply Forall_take; exact Hrel].
    subst rel2.
    assert (Hdir : embedFS e !! GoStrings.Join (take j rel) "/"
                   = Some Directory).
    { destruct (le_lt_dec (List.length rel) j) as [Hge|Hlt].
      - rewrite take_ge by exact Hge. exact Hp.
      - eapply prefix_dirs; [exact Hrel | exact Hp |].
        destruct j; [exfalso; apply Hne2; reflexivity | lia]. }
    rewrite Hdir in Hp2. inversion Hp2. exact I.
Qed.

Lemma WriteFile_step (w : world) (rel : list string) (data : string) :
  settled c0 d w -> fitsP e d w -> proper rel -> rel <> [] ->
  embedFS e !! GoStrings.Join rel "/" = Some (File data) ->
  files w !! abs_path (d ++ removelast rel) = Some Directory ->
  exists w1, Os.WriteFile w (abs_path (d ++ rel)) data = (w1, None) /\
             settled c0 d w1 /\ fitsP e d w1 /\ quiet w w1.
Proof.
  intros Hw Hfit Hrel Hne Hp Hparent.
  destruct (WriteFile_settled c0 d Hc0 Hd w rel data Hrel Hw) as [Hw1 _].
  pose proof (WriteFile_quiet w (abs_path (d ++ rel)) data) as Q.
  assert (Hall : proper (d ++ rel)) by (apply Forall_app; auto).
  assert (Hnew : forall w1,
            files w1 = <[abs_path (d ++ rel) := File data]> (files w) ->
            fitsP e d w1).
  { intros w1 E rel2 n n' Hrel2 Hne2 Hp2 Hk2. rewrite E in Hk2.
    destruct (decide (abs_path (d ++ rel) = abs_path (d ++ rel2))) as [Eq|Hneq].
    - rewrite Eq, lookup_insert_eq in Hk2. inversion Hk2. subst n'.
      apply target_inj in Eq; try assumption. subst rel2.
      rewrite Hp in Hp2. inversion Hp2. exact I.
    - rewrite lookup_insert_ne in Hk2 by exact Hneq. eapply Hfit; eauto. }
  unfold Os.WriteFile in *. rewrite (key_abs_path w _ Hall) in *.
  destruct (files w !! abs_path (d ++ rel)) as [[old|]|] eqn:Hk.
  - eexists. split; [reflexivity|]. split; [exact Hw1|].
    split; [apply Hnew; reflexivity | exact Q].
  - exfalso. exact (Hfit _ _ _ Hrel Hne Hp Hk).
  - destruct rel as [|x rel' _] using rev_ind; [congruence|].
    rewrite removelast_last in Hparent.
    apply proper_snoc in Hrel as [Hrel' Hx].
    rewrite (app_assoc d rel' [x]), Dir_abs_snoc in *
      by (try apply Forall_app; auto).
    rewrite Hparent in *.
    eexists. split; [reflexivity|]. split; [exact Hw1|].
    split; [apply Hnew; reflexivity | exact Q].
Qed.

Lemma copy_step (x : string * node) (rel : list string) (w : world) :
  settled c0 d w -> fitsP e d w -> copy_entry e x rel -> rel <> [] ->
  files w !! abs_path (d ++ removelast rel) = Some Directory ->
  exists w1, copyDeps_fn e (abs_path d) x.1 x.2 w = (w1, None) /\
             settled c0 d w1 /\ fitsP e d w1 /\ quiet w w1.
Proof.
  intros Hw Hfit Hx Hne Hparent.
  pose proof (copy_entry_target e d Hd x rel Hx) as Et.
  destruct Hx as (Hrel & [[_ ->] | (_ & Ex & Hp)]); [congruence|].
  unfold copyDeps_fn. rewrite Et. destruct x as [p [data0|]];
    cbn [fst snd] in *.
  - rewrite Hp. subst p. apply WriteFile_step; assumption.
  - subst p. apply MkdirAll_step; assumption.
Qed.

Lemma visit_copy_succeeds (l : list (string * node)) :
  StronglySorted Walk.visit_le l ->
  Forall (fun x => exists rel, rel <> [] /\ copy_entry e x rel) l ->
  forall w, settled c0 d w -> fitsP e d w ->
  (forall x rel, x ∈ l -> copy_entry e x rel -> removelast rel <> [] ->
     files w !! abs_path (d ++ removelast rel) = Some Directory \/
     (GoStrings.Join (removelast rel) "/", Directory) ∈ l) ->
  exists w', Walk.visit (copyDeps_fn e (abs_path d)) l w = (w', None).
Proof.
  induction l as [|x l IH]; intros Hsorted Hl w Hw Hfit Hpar.
  - exists w. reflexivity.
  - apply StronglySorted_inv in Hsorted as [Hsorted Hle].
    inversion Hl as [|? ? (rel & Hne & Hx) Hl']. subst.
    assert (Hparent : files w !! abs_path (d ++ removelast rel)
                      = Some Directory).
    { destruct (removelast rel) as [|y r] eqn:Er.
      { rewrite app_nil_r. apply Hw. }
      destruct (Hpar x rel ltac:(left) Hx) as [H|H];
        [rewrite Er; discriminate | rewrite Er in H; exact H |].
      exfalso. rewrite Er in H.
      destruct rel as [|z rel' _] using rev_ind; [discriminate|].
      rewrite removelast_last in Er. subst rel'.
      destruct Hx as (Hrel & [[_ E] | (_ & Ex & _)]);
        [destruct r; discriminate|].
      apply elem_of_cons in H as [H|H].
      - rewrite <- H in Ex. cbn [fst] in Ex.
        apply Join_inj in Ex; [|apply proper_snoc in Hrel; tauto | exact Hrel].
        apply (f_equal (@List.length string)) in Ex.
        rewrite length_app in Ex. cbn in Ex. lia.
      - rewrite Forall_forall in Hle. specialize (Hle _ H).
        unfold Walk.visit_le in Hle. cbn [fst] in Hle.
        rewrite Ex, (Join_snoc (y :: r) z "/") in Hle by discriminate.
        change ("/" +:+ z) with (String "/" z) in Hle.
        rewrite path_leb_extension in Hle. discriminate. }
    destruct (copy_step x rel w Hw Hfit Hx Hne Hparent)
      as (w1 & Hstep & Hw1 & Hfit1 & Q).
    destruct x as [p n]. cbn [fst snd] in Hstep.
    cbn [Walk.visit]. rewrite Hstep.
    apply (IH Hsorted Hl' w1 Hw1 Hfit1).
    intros y ry Hy Hcy Hney.
    destruct (Hpar y ry ltac:(right; exact Hy) Hcy Hney) as [H|H].
    + left. eapply quiet_directory; eauto.
    + apply elem_of_cons in H as [H|H]; [|right; exact H].
      left. inversion H. subst p n.
      assert (rel = removelast ry) as ->.
      { destruct Hx as (Hrel & [[_ E] | (_ & Ex & _)]); [congruence|].
        cbn [fst] in Ex. apply Join_inj in Ex; auto.
        destruct Hcy as (Hry & _).
        destruct ry as [|z ry' _] using rev_ind; [constructor|].
        rewrite removelast_last. apply proper_snoc in Hry. tauto. }
      change (Some Directory)
        with (Some (GoStrings.Join (removelast ry) "/", Directory).2).
      eapply (copyDeps_fn_ok e d Hd); [exact Hx | exact Hstep].
Qed.

End CopySucceeds.

(** The copy succeeds from any world that satisfies its invariant. *)
Lemma copyDeps_total (e : env) (w : world) (d : list string) :
  proper d ->
  Filepath.IsAbs (cwd w) = true ->
  settled (cwd w) d w ->
  snapshot_clean e = true ->
  snapshot_closed e = true ->
  fitsP e d w ->
  exists w', copyDeps e w (abs_path d) = (w', None).
Proof.
  intros Hd Hcwd Hw Hsnap Hclosed Hfits.
  unfold copyDeps. cbn [Walk.visit].
  assert (Hfirst : copyDeps_fn e (abs_path d) "." Directory w = (w, None)).
  { unfold copyDeps_fn, Os.MkdirAll. rewrite (Join_abs_dot d Hd).
    destruct Hw as (_ & Hroot & _).
    rewrite (key_abs_path w d Hd), MkdirAll_fuel_S, Hroot.
    rewrite set_files_same. reflexivity. }
  rewrite Hfirst.
  apply (visit_copy_succeeds e (cwd w) d Hcwd Hd Hclosed).
  - apply StronglySorted_merge_sort;
      [apply visit_le_trans | apply visit_le_total].
  - apply Forall_forall. intros [p n] Hin. apply snapshot_entries in Hin.
    cbn [fst snd] in Hin.
    destruct (snapshot_path e Hsnap p n Hin) as (rel & Hrel & Hne & E).
    exists rel. split; [exact Hne|]. split; [exact Hrel|]. right.
    split; [exact Hne|]. split; [exact E | exact Hin].
  - exact Hw.
  - exact Hfits.
  - intros x rel Hin Hx Hne. right. apply snapshot_entries. cbn [fst snd].
    destruct Hx as (Hrel & [[_ ->] | (_ & Ex & Hp)]); [contradiction|].
    rewrite Ex in Hp. eapply snapshot_parent; eauto.
Qed.

(** X11.  Into an existing destination in which nothing of another kind
    is in the way, the copy of a snapshot that holds the directory of each
    of its entries succeeds: no step of the walk fails. *)
Theorem copyDeps_succeeds (e : env) (w : world) (d : list string) :
  proper d ->
  Filepath.IsAbs (cwd w) = true ->
  wf_keys w = true ->
  files w !! abs_path d = Some Directory ->
  snapshot_clean e = true ->
  snapshot_closed e = true ->
  fits e w (abs_path d) = true ->
  exists w', copyDeps e w (abs_path d) = (w', None).
Proof.
  intros Hd Hcwd Hwf Hroot Hsnap Hclosed Hfits.
  apply copyDeps_total; try assumption.
  - split; [reflexivity|]. split; [exact Hroot|]. apply wf_keys_abs; assumption.
  - apply fits_spec; assumption.
Qed.

Lemma copyDeps_succeeds_witness :
  exists w',
    copyDeps Scenario.tool Scenario.rendered (abs_path Scenario.work_dir)
    = (w', None).
Proof.
  apply (copyDeps_succeeds Scenario.tool Scenario.rendered Scenario.work_dir);
    [repeat constructor | reflexivity | vm_compute; reflexivity
    | vm_compute; reflexivity | vm_compute; reflexivity
    | vm_compute; reflexivity | vm_compute; reflexivity].
Defined.



(* ===================================================================== *)
(** * A run that succeeds *)
(* ===================================================================== *)

Section Success.

Local Arguments Filepath.IsAbs : simpl never.
Local Arguments abs_path : simpl never.

(** With its parent in place and no file in the way, [MkdirAll] puts a
    directory at its path and changes nothing else. *)
Lemma MkdirAll_fuel_parent (fuel : nat) (fs : gmap string node) (k : string) :
  fs !! Filepath.Dir k = Some Directory ->
  (forall data, fs !! k <> Some (File data)) ->
  Os.MkdirAll_fuel (S fuel) fs k = (<[k := Directory]> fs, None).
Proof.
  intros Hp Hfree. rewrite MkdirAll_fuel_S.
  destruct (fs !! k) as [[data|]|] eqn:Hk.
  - exfalso. exact (Hfree data eq_refl).
  - rewrite insert_id by exact Hk. reflexivity.
  - destruct (String.eqb _ _); [reflexivity|].
    assert (Os.MkdirAll_fuel fuel fs (Filepath.Dir k) = (fs, None)) as ->.
    { destruct fuel; cbn; rewrite Hp; reflexivity. }
    reflexivity.
Qed.

Lemma Filepath_Join_cons (x : string) (rest : list string) :
  Filepath.Join (x :: rest)
  = if is_empty x then Filepath.Join rest
    else Filepath.Clean (GoStrings.Join (x :: rest) "/").
Proof. reflexivity. Qed.

Variables (e : env) (d : list string).
Hypothesis Hd : proper d.
Hypothesis Hsnap : snapshot_clean e = true.
Hypothesis Hclosed : snapshot_closed e = true.
Hypothesis Hnomain : embedFS e !! "main.go" = None.

Lemma below_neq (a rel : list string) :
  proper a -> proper rel -> rel <> [] -> abs_path a <> abs_path (a ++ rel).
Proof.
  intros Ha Hrel Hne E. apply abs_path_inj in E;
    [|exact Ha | apply Forall_app; auto].
  rewrite <- (app_nil_r a) in E at 1. apply app_inv_head in E. congruence.
Qed.

Lemma entry_point_free (a rel : list string) (n : node) :
  proper a -> proper rel -> embedFS e !! GoStrings.Join rel "/" = Some n ->
  abs_path (a ++ ["main.go"]) <> abs_path (a ++ rel).
Proof.
  intros Ha Hrel Hp E. apply abs_path_inj in E;
    [|apply Forall_app; split; [exact Ha | repeat constructor]
     |apply Forall_app; auto].
  apply app_inv_head in E. subst rel. cbn in Hp. congruence.
Qed.

(** The preparation succeeds in a usable workspace. *)
Lemma prepare_total (i : importInfo) (w : world) (deps : string) :
  let t := d ++ [tmpDirName] in
  Filepath.IsAbs (cwd w) = true ->
  keys_abs (files w) ->
  files w !! abs_path d = Some Directory ->
  embedFS e !! "vendored/deps.txt" = Some (File deps) ->
  (execute_template e i).2 = None ->
  (forall data, files w !! abs_path t <> Some (File data)) ->
  files w !! abs_path (t ++ ["main.go"]) <> Some Directory ->
  fitsP e t w ->
  exists w', prepare e i (abs_path t) (abs_path (t ++ ["main.go"])) w
             = (Return tt, w') /\ trace w' = trace w.
Proof.
  intros t Hcwd Hk Hdir Hdeps Htempl Hfree Hmain Hfit.
  assert (Ht : proper t)
    by (apply proper_snoc; split; [exact Hd | reflexivity]).
  assert (Hep : proper (t ++ ["main.go"]))
    by (apply proper_snoc; split; [exact Ht | reflexivity]).
  assert (Hnet : abs_path t <> abs_path (t ++ ["main.go"]))
    by (apply below_neq; [exact Ht | repeat constructor | discriminate]).
  (* the workspace directory *)
  assert (E1 : Os.MkdirAll w (abs_path t)
               = (set_files w (<[abs_path t := Directory]> (files w)), None)).
  { unfold Os.MkdirAll. rewrite (key_abs_path w t Ht).
    rewrite MkdirAll_fuel_parent; [reflexivity | | exact Hfree].
    unfold t. rewrite Dir_abs_snoc by (auto; reflexivity). exact Hdir. }
  set (w1 := set_files w (<[abs_path t := Directory]> (files w))) in *.
  assert (S1 : settled (cwd w) t w1).
  { split; [reflexivity|]. split; [apply lookup_insert_eq|].
    apply keys_abs_insert; assumption. }
  (* the entry point *)
  assert (E2 : Os.Create w1 (abs_path (t ++ ["main.go"]))
               = (set_files w1 (<[abs_path (t ++ ["main.go"]) := File ""]>
                                  (files w1)), None)).
  { unfold Os.Create, Os.WriteFile. rewrite (key_abs_path w1 _ Hep).
    assert (Hl : files w1 !! abs_path (t ++ ["main.go"])
                 = files w !! abs_path (t ++ ["main.go"]))
      by (apply lookup_insert_ne; exact Hnet).
    rewrite Hl.
    destruct (files w !! abs_path (t ++ ["main.go"])) as [[old|]|];
      [reflexivity | congruence |].
    rewrite Dir_abs_snoc by (auto; reflexivity).
    destruct S1 as (_ & -> & _). reflexivity. }
  set (w2 := set_files w1 (<[abs_path (t ++ ["main.go"]) := File ""]>
                             (files w1))) in *.
  assert (E3 : template_Execute e (abs_path (t ++ ["main.go"])) i w2
               = (set_files w2 (<[abs_path (t ++ ["main.go"])
                                  := File (execute_template e i).1]>
                                  (files w2)), None)).
  { unfold template_Execute. destruct (execute_template e i) as [text err].
    cbn [fst snd] in *. subst err. rewrite (key_abs_path w2 _ Hep).
    assert (files w2 !! abs_path (t ++ ["main.go"]) = Some (File "")) as ->
      by apply lookup_insert_eq.
    reflexivity. }
  set (w3 := set_files w2 (<[abs_path (t ++ ["main.go"])
                             := File (execute_template e i).1]> (files w2)))
    in *.
  assert (L3 : forall k, k <> abs_path t -> k <> abs_path (t ++ ["main.go"]) ->
                 files w3 !! k = files w !! k).
  { intros k H1 H2. unfold w3, w2, w1. cbn [files set_files].
    rewrite !lookup_insert_ne by congruence. reflexivity. }
  assert (S3 : settled (cwd w) t w3).
  { split; [reflexivity|]. split.
    - unfold w3, w2. cbn [files set_files].
      rewrite !lookup_insert_ne by congruence. apply S1.
    - unfold w3, w2. cbn [files set_files].
      repeat (apply keys_abs_insert; [assumption|]).
      first [exact Hk | apply S1]. }
  assert (F3 : fitsP e t w3).
  { intros rel n n' Hrel Hne Hp Hl. rewrite L3 in Hl.
    - eapply Hfit; eauto.
    - intros E. symmetry in E. revert E. apply below_neq; assumption.
    - intros E. symmetry in E. revert E. eapply entry_point_free; eauto. }
  (* the snapshot *)
  destruct (copyDeps_total e w3 t Ht Hcwd S3 Hsnap Hclosed F3) as [w4 E4].
  pose proof (copyDeps_settled (cwd w) t Hcwd Ht e w3 Hsnap S3) as [S4 _].
  pose proof (copyDeps_quiet e w3 (abs_path t)) as Q4.
  assert (C4 : files w4 !! abs_path (t ++ ["vendored"; "deps.txt"])
               = Some (File deps)).
  { apply (copyDeps_content e w3 w4 t "vendored/deps.txt" (File deps)
             ["vendored"; "deps.txt"] Ht Hsnap E4 Hdeps).
    split; [repeat constructor|]. right.
    split; [discriminate|]. split; [reflexivity | exact Hdeps]. }
  rewrite E4 in S4, Q4. cbn [fst] in S4, Q4.
  (* the rewriter *)
  assert (Hm : Filepath.Join [abs_path t; vendorDirName; depsFileName]
               = Filepath.Join [abs_path t; "vendored/deps.txt"]).
  { rewrite !Filepath_Join_cons, abs_path_nonempty. reflexivity. }
  assert (R4 : Os.ReadFile w4
                 (Filepath.Join [abs_path t; vendorDirName; depsFileName])
               = Ok deps).
  { rewrite Hm.
    pose proof (Join_abs_rel t ["vendored"; "deps.txt"] Ht
                  ltac:(repeat constructor)) as Ej.
    change (GoStrings.Join ["vendored"; "deps.txt"] "/")
      with "vendored/deps.txt" in Ej.
    rewrite Ej.
    unfold Os.ReadFile. rewrite key_abs_path, C4; [reflexivity|].
    apply Forall_app. split; [exact Ht | repeat constructor]. }
  destruct (renameImports_pointwise (Split deps (String "010" ""))
              (Filepath.Join [ImportName i; tmpDirName; vendorDirName])
              w4 (abs_path t) deps
              (keys_abs_wf w4 ltac:(apply S4)) R4 eq_refl)
    as (w5 & E5 & _ & T5 & _).
  { rewrite (key_abs_path w4 t Ht). destruct S4 as (_ & -> & _). eauto. }
  exists w5. split.
  - unfold prepare, bind, effect, must, fail, emit, exit, ret.
    rewrite E1, E2, E3, E4, E5. reflexivity.
  - rewrite T5. destruct Q4 as (_ & -> & _). reflexivity.
Qed.

End Success.

Section WholeRun.

Local Arguments Filepath.IsAbs : simpl never.
Local Arguments abs_path : simpl never.

(** X17.  A run succeeds when nothing stands in its way: with both
    arguments given, a descriptor that [describe] returns, a snapshot that
    holds the manifest and the directory of each of its entries but no
    [main.go], a template that renders without error, a workspace that can
    be used (also one left behind by an earlier run), a child that exits
    with status 0 and a workspace in which, when the child has ended, the
    system holds nothing back from removal, [main] returns, and what it
    does besides writing files is to start that child, to remove the
    workspace and to print the standard output of the child. *)
Theorem main_succeeds (e : env) (filePath symbolName : string) (w : world)
    (i : importInfo) (dir deps out err : string) :
  let tmpDir := workspace w filePath in
  let tmpMain := entry_point w filePath in
  filePath <> "" -> symbolName <> "" ->
  Filepath.IsAbs (cwd w) = true ->
  wf_keys w = true ->
  wf_tree w = true ->
  (describe filePath symbolName w).1 = Return (i, dir) ->
  snapshot_clean e = true ->
  snapshot_closed e = true ->
  embedFS e !! "main.go" = None ->
  embedFS e !! "vendored/deps.txt" = Some (File deps) ->
  (execute_template e i).2 = None ->
  workspace_usable e w filePath = true ->
  go_run e (go_command e tmpDir tmpMain)
    (files (prepare e i tmpDir tmpMain w).2) = Exited 0 out err ->
  Os.met (held e) (files (prepare e i tmpDir tmpMain w).2) tmpDir = [] ->
  exists w',
    main e filePath symbolName w = (Return tt, w') /\
    trace w' = trace w ++ [Spawned (go_command e tmpDir tmpMain);
                           Removed tmpDir; Stdout out].
Proof.
  intros tmpDir tmpMain Hf Hs Hcwd Hwf Htree Hdesc Hsnap Hclosed Hnomain
    Hdeps Htempl Huse Hrun Hheld.
  destruct (workspace_removable w filePath) as [_ Hnd].
  destruct (workspace_paths w filePath Hcwd) as (d & Hd & Edir & Ews & Eep).
  pose proof (wf_keys_abs w Hcwd Hwf) as Hk.
  rewrite main_unfold.
  apply is_empty_false in Hf, Hs. rewrite Hf, Hs. cbn [orb].
  destruct (describe_cases filePath symbolName w) as [[i' Hd'] | [msg Hd']];
    rewrite Hd' in Hdesc; cbn [fst] in Hdesc; [|discriminate].
  assert (i' = i) by congruence. subst i'.
  rewrite Hd'. cbv zeta. cbn [fst snd].
  fold (workspace w filePath). fold (entry_point w filePath).
  fold tmpDir. fold tmpMain.
  assert (Hdir : files w !! abs_path d = Some Directory)
    by (rewrite <- Edir; eapply target_directory; eauto).
  unfold workspace_usable in Huse.
  apply andb_true_iff in Huse as [Huse Hfits].
  apply andb_true_iff in Huse as [Hfree Hmain].
  subst tmpDir tmpMain. rewrite Ews, Eep in *.
  destruct (prepare_total e d Hd Hsnap Hclosed Hnomain i w deps Hcwd Hk Hdir
              Hdeps Htempl) as (w2 & Hprep & Htrace).
  { intros data E. rewrite E in Hfree. discriminate. }
  { intros E. rewrite E in Hmain. discriminate. }
  { apply fits_spec; [|exact Hfits].
    apply proper_snoc. split; [exact Hd | reflexivity]. }
  rewrite Hprep in *. cbn [snd] in Hrun, Hheld.
  rewrite execute_cases. cbv zeta. rewrite Hrun. cbn [run_error N.eqb].
  set (c := go_command e _ _).
  pose proof (RemoveAll_trace (held e) (log w2 (Spawned c))
                (abs_path (d ++ [tmpDirName]))) as [Hrt _].
  assert (Hrm : (Os.RemoveAll (held e) (log w2 (Spawned c))
                   (abs_path (d ++ [tmpDirName]))).2 = None).
  { apply RemoveAll_error; [apply abs_path_nonempty | exact Hnd |].
    rewrite key_log, files_log, key_abs_path; [exact Hheld|].
    apply proper_snoc. split; [exact Hd | reflexivity]. }
  destruct (Os.RemoveAll _ _ _) as [w3 [m|]]; cbn [fst snd] in *;
    [discriminate|].
  eexists. split; [reflexivity|].
  cbn [trace log captured fst]. rewrite Hrt. cbn [trace log].
  rewrite Htrace, <- !app_assoc. reflexivity.
Qed.

Lemma main_succeeds_witness :
  exists w',
    main Scenario.guarded "app/pkg/models.go" "User" Sample.w0
    = (Return tt, w') /\
    trace w'
    = trace Sample.w0
      ++ [Spawned (go_command Scenario.guarded
                     (workspace Sample.w0 "app/pkg/models.go")
                     (entry_point Sample.w0 "app/pkg/models.go"));
          Removed (workspace Sample.w0 "app/pkg/models.go");
          Stdout "{}"].
Proof.
  apply (main_succeeds Scenario.guarded "app/pkg/models.go" "User"
           Sample.w0
           (describe_result "app/pkg/models.go" "User" Sample.w0)
           "/w/app/pkg"
           (Sample.text ["example.org/schema"; "example.org/omap"]) "{}" "");
    [discriminate | discriminate | reflexivity | vm_compute; reflexivity
    | vm_compute; reflexivity | vm_compute; reflexivity
    | vm_compute; reflexivity | vm_compute; reflexivity
    | vm_compute; reflexivity | vm_compute; reflexivity
    | vm_compute; reflexivity | vm_compute; reflexivity | reflexivity
    | reflexivity].
Defined.

End WholeRun.

(* ===================================================================== *)
(** * A workspace that cannot be made *)
(* ===================================================================== *)

Section Blocked.

(** X10.  A file that has the name of the workspace stops the run before
    anything is written: [main] ends with status 1 and the message of
    [MkdirAll], in a file system that is as it was. *)
Theorem workspace_blocked_by_file (e : env) (filePath symbolName : string)
    (w : world) (i : importInfo) (dir data : string) :
  let tmpDir := Os.key w (workspace w filePath) in
  filePath <> "" -> symbolName <> "" ->
  (describe filePath symbolName w).1 = Return (i, dir) ->
  files w !! tmpDir = Some (File data) ->
  main e filePath symbolName w
  = (Exit 1,
     log w (StderrJSON {| Error := Os.PathError "mkdir" tmpDir Os.ENOTDIR |})).
Proof.
  intros tmpDir Hf Hs Hdesc Hfile. rewrite main_unfold.
  apply is_empty_false in Hf, Hs. rewrite Hf, Hs. cbn [orb].
  destruct (describe_cases filePath symbolName w) as [[i' Hd'] | [msg Hd']];
    rewrite Hd' in Hdesc; cbn [fst] in Hdesc; [|discriminate].
  rewrite Hd'. cbv zeta. cbn [fst snd].
  fold (workspace w filePath).
  unfold prepare, bind, effect, must, fail, emit, exit, ret, Os.MkdirAll.
  fold tmpDir. rewrite MkdirAll_fuel_S, Hfile, set_files_same. reflexivity.
Qed.

Lemma workspace_blocked_by_file_witness :
  main Scenario.tool "app/pkg/models.go" "User" Scenario.blocked
  = (Exit 1,
     log Scenario.blocked
         (StderrJSON
            {| Error :=
                 Os.PathError "mkdir"
                   (Os.key Scenario.blocked
                      (workspace Scenario.blocked "app/pkg/models.go"))
                   Os.ENOTDIR |})).
Proof.
  apply (workspace_blocked_by_file Scenario.tool "app/pkg/models.go" "User"
           Scenario.blocked
           (describe_result "app/pkg/models.go" "User" Scenario.blocked)
           "/w/app/pkg" "");
    [discriminate | discriminate | vm_compute; reflexivity
    | vm_compute; reflexivity].
Defined.

End Blocked.

(* ===================================================================== *)
(** * The descriptor and the module root, continued *)
(* ===================================================================== *)

Section FileNames.

Local Arguments abs_path : simpl never.
Local Arguments Filepath.IsAbs : simpl never.

Lemma last_nonempty_snoc (l : list string) (x : string) :
  is_empty x = false -> Filepath.last_nonempty (l ++ [x]) = Some x.
Proof.
  intros Hx. induction l as [|y l IH].
  - cbn. rewrite Hx. reflexivity.
  - cbn [app Filepath.last_nonempty]. rewrite IH. reflexivity.
Qed.

Lemma split_on_abs_path (cs : list string) :
  proper cs -> cs <> [] ->
  split_on Filepath.Separator (abs_path cs) = "" :: cs.
Proof.
  intros Hcs Hne. unfold abs_path.
  rewrite str_app_cons, str_app_nil_l. cbn [split_on].
  change (Ascii.eqb "/" Filepath.Separator) with true. cbv iota.
  rewrite split_on_Join by (apply valid_sep_free; exact Hcs).
  destruct cs; [congruence | reflexivity].
Qed.

Lemma Base_abs_snoc (cs : list string) (x : string) :
  proper cs -> valid_elem x = true ->
  Filepath.Base (abs_path (cs ++ [x])) = x.
Proof.
  intros Hcs Hx. unfold Filepath.Base. rewrite abs_path_nonempty.
  rewrite split_on_abs_path;
    [|apply proper_snoc; auto | destruct cs; discriminate].
  change ("" :: cs ++ [x]) with (("" :: cs) ++ [x]).
  rewrite last_nonempty_snoc; [reflexivity|].
  apply valid_elem_spec in Hx as (Hx & _). apply is_empty_false. exact Hx.
Qed.

(** Directory and base name of a cleaned absolute path join to the path. *)
Lemma Join_Dir_Base (cs : list string) :
  proper cs ->
  Filepath.Join [Filepath.Dir (abs_path cs); Filepath.Base (abs_path cs)]
  = abs_path cs.
Proof.
  intros Hcs. destruct cs as [|x cs' _] using rev_ind.
  - vm_compute. reflexivity.
  - apply proper_snoc in Hcs as [Hcs' Hx].
    rewrite Dir_abs_snoc, Base_abs_snoc by assumption.
    apply Join_abs_elem; assumption.
Qed.

(** X20.  With an absolute working directory, the descriptor names the
    target file: its [FilePath] is the cleaned absolute path of the file,
    which exists, and joining the directory and the base name of that path
    gives the path back; [FileName] is its base name, the directory that
    [describe] returns is its directory, and [TypeName] is the type asked
    for. *)
Theorem descriptor_names_the_file (filePath symbolName : string) (w : world)
    (i : importInfo) (dir : string) :
  Filepath.IsAbs (cwd w) = true ->
  (describe filePath symbolName w).1 = Return (i, dir) ->
  FilePath i = Filepath.Abs (cwd w) filePath /\
  is_Some (files w !! FilePath i) /\
  dir = Filepath.Dir (FilePath i) /\
  FileName i = Filepath.Base (FilePath i) /\
  TypeName i = symbolName.
Proof.
  intros Hcwd Hdesc.
  destruct (Abs_rooted (cwd w) filePath Hcwd) as (cs & Hcs & E).
  destruct (describe_Return_file filePath symbolName w
              (describe filePath symbolName w).2 (i, dir)) as [n Hn].
  { rewrite <- Hdesc. destruct (describe filePath symbolName w); reflexivity. }
  unfold Os.key in Hn. fold (Os.key w filePath) in Hn.
  fold (Os.key w (Os.key w filePath)) in Hn.
  rewrite (key_idem w filePath Hcwd) in Hn. unfold Os.key in Hn.
  rewrite describe_unfold in Hdesc. cbv zeta in Hdesc.
  destruct (parsePkgName w _); [|discriminate].
  destruct (is_empty (findGoMod w _)); [discriminate|].
  destruct (parseGoMod w _) as [[m g]|]; [|discriminate].
  cbn [fst snd] in Hdesc.
  destruct (is_empty m); [discriminate|].
  destruct (ltb g "1.18"); [discriminate|].
  destruct (Filepath.Rel _ _); [|discriminate].
  cbn [fst] in Hdesc. inversion Hdesc. subst. cbn [FilePath FileName TypeName].
  rewrite E in *. rewrite (Join_Dir_Base cs Hcs).
  repeat split; eauto.
Qed.

Lemma descriptor_names_the_file_witness :
  let i := describe_result "app/pkg/models.go" "User" Sample.w0 in
  FilePath i = Filepath.Abs (cwd Sample.w0) "app/pkg/models.go" /\
  is_Some (files Sample.w0 !! FilePath i) /\
  "/w/app/pkg" = Filepath.Dir (FilePath i) /\
  FileName i = Filepath.Base (FilePath i) /\
  TypeName i = "User".
Proof.
  apply (descriptor_names_the_file "app/pkg/models.go" "User" Sample.w0
           (describe_result "app/pkg/models.go" "User" Sample.w0)
           "/w/app/pkg");
    [reflexivity | vm_compute; reflexivity].
Defined.

End FileNames.

Section ModuleRootErrors.

Local Arguments abs_path : simpl never.
Local Arguments Filepath.IsAbs : simpl never.

Lemma findGoMod_here (w : world) (dir : string) :
  has_go_mod w dir = true -> findGoMod w dir = dir.
Proof.
  unfold has_go_mod, findGoMod. cbn [findGoMod_fuel].
  destruct (Os.Stat w (Filepath.Join [dir; "go.mod"])); [discriminate|].
  reflexivity.
Qed.

(** X18.  A directory named [go.mod] next to the target file is taken
    for the module file: [findGoMod] stops there, also inside a module
    whose real [go.mod] lies further up, and the run ends with status 1
    and the message of the failed read, [read <path>: is a directory]. *)
Theorem go_mod_directory_is_reported (e : env)
    (filePath symbolName : string) (w : world) (pkgName : string) :
  let absPath := Filepath.Abs (cwd w) filePath in
  let goMod := Filepath.Join [Filepath.Dir absPath; "go.mod"] in
  filePath <> "" -> symbolName <> "" ->
  Filepath.IsAbs (cwd w) = true ->
  parsePkgName w absPath = Ok pkgName ->
  files w !! Os.key w goMod = Some Directory ->
  main e filePath symbolName w
  = (Exit 1,
     log w (StderrJSON {| Error := Os.PathError "read" goMod Os.EISDIR |})).
Proof.
  intros absPath goMod Hf Hs Hcwd Hpkg Hdir. rewrite main_unfold.
  apply is_empty_false in Hf, Hs. rewrite Hf, Hs. cbn [orb].
  rewrite describe_unfold. cbv zeta. fold absPath. rewrite Hpkg.
  rewrite findGoMod_here
    by (unfold has_go_mod, Os.Stat; fold goMod; rewrite Hdir; reflexivity).
  destruct (workspace_paths w filePath Hcwd) as (d & _ & Ed & _).
  fold absPath in Ed. rewrite Ed at 1. rewrite abs_path_nonempty.
  unfold parseGoMod, Os.ReadFile. fold goMod. rewrite Hdir. reflexivity.
Qed.

Lemma go_mod_directory_is_reported_witness :
  main Scenario.tool "app/pkg/models.go" "User" Scenario.inner_directory
  = (Exit 1,
     log Scenario.inner_directory
         (StderrJSON
            {| Error :=
                 Os.PathError "read"
                   (Filepath.Join
                      [Filepath.Dir
                         (Filepath.Abs (cwd Scenario.inner_directory)
                            "app/pkg/models.go");
                       "go.mod"])
                   Os.EISDIR |})).
Proof.
  apply (go_mod_directory_is_reported Scenario.tool "app/pkg/models.go" "User"
           Scenario.inner_directory "models");
    [discriminate | discriminate | reflexivity | vm_compute; reflexivity
    | vm_compute; reflexivity].
Defined.

(** X19.  When no ancestor of the directory of the target file holds a
    [go.mod], the run ends with status 1 and the message [go.mod not found
    for file] followed by that directory (not by the file); nothing is
    written. *)
Theorem missing_go_mod_is_reported (e : env)
    (filePath symbolName : string) (w : world) (pkgName : string) :
  let absPath := Filepath.Abs (cwd w) filePath in
  let fileDir := Filepath.Dir absPath in
  filePath <> "" -> symbolName <> "" ->
  parsePkgName w absPath = Ok pkgName ->
  (forall j, has_go_mod w (ancestor j fileDir) = false) ->
  main e filePath symbolName w
  = (Exit 1,
     log w (StderrJSON
              {| Error := "go.mod not found for file " +:+ fileDir |})).
Proof.
  intros absPath fileDir Hf Hs Hpkg Hnone. rewrite main_unfold.
  apply is_empty_false in Hf, Hs. rewrite Hf, Hs. cbn [orb].
  rewrite describe_unfold. cbv zeta. fold absPath. rewrite Hpkg.
  fold fileDir.
  destruct (findGoMod_fuel_walk w _ _ _ (findGoMod_spec w fileDir))
    as [(k & E & Hk & _) | (E & _)].
  - rewrite E, Hnone in Hk. discriminate.
  - rewrite E. reflexivity.
Qed.

Lemma missing_go_mod_is_reported_witness :
  main Scenario.tool "app/pkg/models.go" "User" Scenario.no_module
  = (Exit 1,
     log Scenario.no_module
         (StderrJSON
            {| Error :=
                 "go.mod not found for file "
                 +:+ Filepath.Dir
                       (Filepath.Abs (cwd Scenario.no_module)
                          "app/pkg/models.go") |})).
Proof.
  apply (missing_go_mod_is_reported Scenario.tool "app/pkg/models.go" "User"
           Scenario.no_module "models");
    [discriminate | discriminate | vm_compute; reflexivity |].
  intros [|[|[|j]]];
    [vm_compute; reflexivity | vm_compute; reflexivity
    | vm_compute; reflexivity |].
  rewrite !ancestor_S.
  change (Filepath.Dir
            (Filepath.Dir
               (Filepath.Dir
                  (Filepath.Dir
                     (Filepath.Abs (cwd Scenario.no_module)
                        "app/pkg/models.go")))))
    with "/".
  rewrite ancestor_fixed by reflexivity.
  vm_compute. reflexivity.
Defined.

End ModuleRootErrors.

(* ===================================================================== *)
(** * The cache: what its methods do and keep *)
(* ===================================================================== *)

Section CacheFacts.

Import Cache.

Context {V : Type}.
Variable undefined : V.

Implicit Types (s : state V) (m : list (string * item V)) (it : item V).

(** [#isPositiveNumber] on values of each kind: [null], [undefined], a
    string, [0], [-1], [NaN], [0.5], [60] and [Infinity]. *)
Example isPositiveNumber_examples :
  map isPositiveNumber
    [Null; Undefined; Other; Number (num 0); Number (num (-1));
     Number S754_nan; Number (S754_finite false 4503599627370496 (-53));
     Number (num 60); Number (S754_infinity false)]
  = [false; false; false; false; false; false; true; true; true].
Proof. vm_compute. reflexivity. Qed.

(** ** The map *)

Lemma map_get_set_eq (key : string) it m :
  map_get key (map_set key it m) = Some it.
Proof.
  induction m as [|[k old] m IH]; cbn.
  - rewrite String.eqb_refl. reflexivity.
  - destruct (String.eqb k key) eqn:E; cbn; rewrite E; [reflexivity | exact IH].
Qed.

Lemma keys_map_set (key : string) it m :
  map fst (map_set key it m)
  = if map_has key m then map fst m else map fst m ++ [key].
Proof.
  unfold map_has. induction m as [|[k old] m IH]; cbn; [reflexivity|].
  destruct (String.eqb k key) eqn:E; cbn; [reflexivity|].
  rewrite IH. destruct (map_get key m); reflexivity.
Qed.

Lemma map_has_In (key : string) m :
  map_has key m = true <-> In key (map fst m).
Proof.
  unfold map_has. induction m as [|[k old] m IH]; cbn.
  - split; [discriminate | tauto].
  - destruct (String.eqb k key) eqn:E.
    + apply String.eqb_eq in E. split; auto.
    + apply String.eqb_neq in E. rewrite IH. split; [auto | intros [?|?]; tauto].
Qed.

Lemma unique_map_set (key : string) it m :
  NoDup (map fst m) -> NoDup (map fst (map_set key it m)).
Proof.
  intros H. rewrite keys_map_set. destruct (map_has key m) eqn:E; [exact H|].
  apply NoDup_app. split; [exact H|]. split.
  - intros x Hx Hx'. apply list_elem_of_In in Hx.
    apply list_elem_of_singleton in Hx'. subst x.
    apply map_has_In in Hx. congruence.
  - apply NoDup_singleton.
Qed.

Lemma keys_map_delete (key : string) m :
  map fst (map_delete key m)
  = List.filter (fun k => negb (String.eqb k key)) (map fst m).
Proof.
  unfold map_delete. induction m as [|[k old] m IH]; cbn; [reflexivity|].
  destruct (String.eqb k key); cbn; rewrite IH; reflexivity.
Qed.

Lemma NoDup_bool_filter {A : Type} (f : A -> bool) (l : list A) :
  NoDup l -> NoDup (List.filter f l).
Proof.
  induction l as [|x l IH]; intros H; [exact H|].
  apply NoDup_cons in H as [Hx H]. cbn. destruct (f x); [|auto].
  apply NoDup_cons. split; [|auto].
  intros Hin. apply Hx. apply list_elem_of_In in Hin.
  apply filter_In in Hin as [Hin _]. apply list_elem_of_In. exact Hin.
Qed.

Lemma unique_map_delete (key : string) m :
  NoDup (map fst m) -> NoDup (map fst (map_delete key m)).
Proof.
  intros H. rewrite keys_map_delete. apply NoDup_bool_filter. exact H.
Qed.

Lemma map_has_delete (key : string) m : map_has key (map_delete key m) = false.
Proof.
  destruct (map_has key (map_delete key m)) eqn:E; [|reflexivity].
  apply map_has_In in E. rewrite keys_map_delete in E.
  apply filter_In in E as [_ E]. rewrite String.eqb_refl in E. discriminate.
Qed.

Lemma map_delete_absent (key : string) m :
  ~ In key (map fst m) -> map_delete key m = m.
Proof.
  unfold map_delete. induction m as [|[k old] m IH]; intros H; [reflexivity|].
  cbn in *. destruct (String.eqb k key) eqn:E.
  - apply String.eqb_eq in E. tauto.
  - cbn. rewrite IH by tauto. reflexivity.
Qed.

Lemma map_get_absent (key : string) m :
  ~ In key (map fst m) -> map_get key m = None.
Proof.
  intros H. destruct (map_get key m) eqn:E; [|reflexivity].
  exfalso. apply H. apply map_has_In. unfold map_has. rewrite E. reflexivity.
Qed.

Lemma map_get_app (key : string) m1 m2 :
  ~ In key (map fst m1) -> map_get key (m1 ++ m2) = map_get key m2.
Proof.
  induction m1 as [|[k old] m1 IH]; intros H; [reflexivity|].
  cbn in *. destruct (String.eqb k key) eqn:E.
  - apply String.eqb_eq in E. tauto.
  - apply IH. tauto.
Qed.

Lemma map_delete_app (key : string) m1 m2 :
  map_delete key (m1 ++ m2) = map_delete key m1 ++ map_delete key m2.
Proof. unfold map_delete. apply List.filter_app. Qed.

(** In a map the key of an entry finds that entry. *)
Lemma map_get_entry m1 m2 (key : string) it :
  NoDup (map fst (m1 ++ (key, it) :: m2)) ->
  map_get key (m1 ++ (key, it) :: m2) = Some it.
Proof.
  intros H. rewrite map_app in H. cbn [map fst] in H.
  rewrite map_get_app.
  - cbn. rewrite String.eqb_refl. reflexivity.
  - apply NoDup_app in H as (_ & H & _). intros Hin.
    apply (H key); [apply list_elem_of_In; exact Hin | left].
Qed.

Lemma map_has_delete_ne (key key' : string) m :
  key' <> key -> map_has key' (map_delete key m) = map_has key' m.
Proof.
  intros Hne. unfold map_has, map_delete.
  induction m as [|[k old] m IH]; [reflexivity|]. cbn.
  destruct (String.eqb k key) eqn:E; cbn.
  - apply String.eqb_eq in E. subst k.
    destruct (String.eqb key key') eqn:E'; [|exact IH].
    apply String.eqb_eq in E'. congruence.
  - destruct (String.eqb k key'); [reflexivity | exact IH].
Qed.

Lemma length_map_delete (key : string) m1 m2 it :
  NoDup (map fst (m1 ++ (key, it) :: m2)) ->
  map_delete key (m1 ++ (key, it) :: m2) = m1 ++ m2.
Proof.
  intros H. rewrite map_app in H. cbn [map fst] in H.
  apply NoDup_app in H as (_ & H1 & H2). apply NoDup_cons in H2 as [H2 _].
  rewrite map_delete_app. unfold map_delete at 2. cbn.
  rewrite String.eqb_refl. cbn. fold (map_delete key m2).
  rewrite !map_delete_absent; [reflexivity | |].
  - intros Hin. apply H2. apply list_elem_of_In. exact Hin.
  - intros Hin. apply (H1 key); [apply list_elem_of_In; exact Hin | left].
Qed.

(** ** [set] and [get] *)

(** X21.  A time to live that is neither [null] nor [undefined] nor a
    positive number makes [set] return [false]: the error is caught and
    logged, the clock is not read and the cache stays as it is. *)
Theorem set_rejects_invalid_ttl (key : string) (val : V) (ttl : jsarg) s :
  ttl <> Null -> ttl <> Undefined -> isPositiveNumber ttl = false ->
  (set key val ttl s).1 = Normal false /\
  cache (set key val ttl s).2 = cache s /\
  reads (set key val ttl s).2 = reads s /\
  errors (set key val ttl s).2 = S (errors s).
Proof.
  intros H1 H2 H3. unfold set, expiry_for.
  destruct ttl as [| |x|]; try congruence.
  - rewrite H3. cbn. auto.
  - cbn. auto.
Qed.

Lemma expiry_for_frame (ttl : jsarg) s :
  cache (expiry_for ttl s).2 = cache s /\
  cleanupTimer (expiry_for ttl s).2 = cleanupTimer s /\
  intervals (expiry_for ttl s).2 = intervals s /\
  fresh (expiry_for ttl s).2 = fresh s /\
  clock (expiry_for ttl s).2 = clock s.
Proof.
  unfold expiry_for. destruct ttl as [| |x|].
  - repeat split; reflexivity.
  - destruct (defaultTTL s) as [d|]; [destruct (truthy d)|];
      repeat split; reflexivity.
  - destruct (isPositiveNumber (Number x)); repeat split; reflexivity.
  - repeat split; reflexivity.
Qed.

(** [get], case by case. *)
Lemma get_eq (key : string) s :
  get undefined key s
  = match map_get key (cache s) with
    | None => (Normal undefined, s)
    | Some it =>
        match expiry it with
        | None => (Normal (value it), s)
        | Some e =>
            if lt e (clock s (reads s))
            then (Normal undefined,
                  with_cache (Date_now s).2 (map_delete key (cache s)))
            else (Normal (value it), (Date_now s).2)
        end
    end.
Proof.
  unfold get, map_has, isExpired.
  destruct (map_get key (cache s)) as [it|] eqn:Hg; [|reflexivity].
  cbn [negb]. unfold bind at 1. rewrite Hg.
  destruct (expiry it) as [e|].
  - cbn [bind Date_now ret]. destruct (lt e (clock s (reads s))).
    + reflexivity.
    + cbn [cache]. rewrite Hg. reflexivity.
  - rewrite Hg. reflexivity.
Qed.

(** [has], case by case. *)
Lemma has_eq (key : string) s :
  has key s
  = match map_get key (cache s) with
    | None => (Normal false, s)
    | Some it =>
        match expiry it with
        | None => (Normal true, s)
        | Some e => (Normal (negb (lt e (clock s (reads s)))), (Date_now s).2)
        end
    end.
Proof.
  unfold has, map_has, isExpired.
  destruct (map_get key (cache s)) as [it|] eqn:Hg; [|reflexivity].
  unfold bind at 1. rewrite Hg.
  destruct (expiry it) as [e|]; reflexivity.
Qed.

(** X22.  What [set] has stored, [get] returns: after a [set] that returned
    [true] the key holds the value with an expiry, none when the time to
    live was [null], and [get] gives the value back unless that expiry
    lies before the time at which [get] reads the clock. *)
Theorem get_after_set (key : string) (val : V) (ttl : jsarg) s s1 :
  set key val ttl s = (Normal true, s1) ->
  exists e,
    map_get key (cache s1) = Some {| value := val; expiry := e |} /\
    (ttl = Null -> e = None) /\
    (get undefined key s1).1
    = Normal (match e with
              | Some t => if lt t (clock s1 (reads s1)) then undefined else val
              | None => val
              end).
Proof.
  unfold set. destruct (expiry_for ttl s) as [[e|err] s'] eqn:He.
  - intros H. inversion H. subst s1. clear H. exists e.
    assert (Hget : map_get key (cache (with_cache s'
                     (map_set key {| value := val; expiry := e |} (cache s'))))
                   = Some {| value := val; expiry := e |})
      by apply map_get_set_eq.
    split; [exact Hget|]. split.
    + intros ->. cbn in He. inversion He. reflexivity.
    + rewrite get_eq. cbn [cache with_cache clock reads].
      rewrite map_get_set_eq. cbn [expiry value].
      destruct e as [t|]; [|reflexivity].
      destruct (lt t (clock s' (reads s'))); reflexivity.
  - cbn. discriminate.
Qed.

(** X23.  Looking up an entry that has expired removes it: [get] returns
    [undefined], the key is gone and the other entries stay. *)
Theorem get_drops_expired_entry (key : string) it (t : number) s :
  map_get key (cache s) = Some it ->
  expiry it = Some t ->
  lt t (clock s (reads s)) = true ->
  (get undefined key s).1 = Normal undefined /\
  cache (get undefined key s).2 = map_delete key (cache s) /\
  map_has key (cache (get undefined key s).2) = false.
Proof.
  intros Hget He Hlt. rewrite get_eq, Hget, He, Hlt. cbn [fst snd cache with_cache].
  split; [reflexivity|]. split; [reflexivity|]. apply map_has_delete.
Qed.

(** ** [keys] and [#cleanExpired] *)

Lemma has_entry m1 m2 (key : string) it (t : number) s :
  frozen t s -> cache s = m1 ++ (key, it) :: m2 -> unique_keys s ->
  (has key s).1 = Normal (live_at t it) /\
  cache (has key s).2 = cache s /\
  clock (has key s).2 = clock s.
Proof.
  intros Hfrozen Hc Hu. rewrite has_eq.
  unfold unique_keys in Hu. rewrite Hc in *.
  rewrite (map_get_entry m1 m2 key it Hu). unfold live_at.
  destruct (expiry it) as [e|]; cbn [fst snd]; [|auto].
  rewrite Hfrozen. auto.
Qed.

Lemma keys_loop_spec (t : number) (m2 : list (string * item V)) :
  forall m1 acc s,
  frozen t s -> cache s = m1 ++ m2 -> unique_keys s ->
  (keys_loop (map fst m2) acc s).1
  = Normal (acc ++ map fst (List.filter (fun kv => live_at t kv.2) m2)) /\
  cache (keys_loop (map fst m2) acc s).2 = cache s.
Proof.
  induction m2 as [|[key it] m2 IH]; intros m1 acc s Hfrozen Hc Hu.
  - cbn. rewrite app_nil_r. auto.
  - cbn [map fst keys_loop]. unfold bind.
    destruct (has_entry m1 m2 key it t s Hfrozen Hc Hu) as (H1 & H2 & H3).
    destruct (has key s) as [r s'] eqn:Hhas. cbn [fst snd] in *. subst r.
    assert (Hfrozen' : frozen t s') by (intros n; rewrite H3; apply Hfrozen).
    assert (Hu' : unique_keys s') by (unfold unique_keys; rewrite H2; exact Hu).
    assert (Hc' : cache s' = (m1 ++ [(key, it)]) ++ m2)
      by (rewrite H2, Hc, <- app_assoc; reflexivity).
    destruct (IH (m1 ++ [(key, it)])
                (if live_at t it then acc ++ [key] else acc) s'
                Hfrozen' Hc' Hu') as [R1 R2].
    rewrite R1, R2, H2. split; [|reflexivity].
    cbn [List.filter snd]. destruct (live_at t it); cbn [map fst];
      [rewrite <- app_assoc|]; reflexivity.
Qed.

(** X24.  While the clock stands still, [keys] returns the keys of the
    entries that have not expired, in the order of their insertion; the
    cache itself is not changed, so that [size] may count more. *)
Theorem keys_lists_live_entries (t : number) s :
  frozen t s -> unique_keys s ->
  (keys s).1
  = Normal (map fst (List.filter (fun kv => live_at t kv.2) (cache s))) /\
  cache (keys s).2 = cache s /\
  (size (keys s).2).1 = Normal (List.length (cache s)).
Proof.
  intros Hfrozen Hu. unfold keys.
  destruct (keys_loop_spec t (cache s) [] [] s Hfrozen eq_refl Hu) as [H1 H2].
  rewrite H1. unfold size. cbn [fst]. rewrite H2. auto.
Qed.

(** One round of the loop of [#cleanExpired]. *)
Lemma cleanExpired_loop_cons (key : string) (rest : list string)
    (removed : nat) s :
  cleanExpired_loop (key :: rest) removed s
  = match map_get key (cache s) with
    | None => (Throw TypeError, s)
    | Some it =>
        match expiry it with
        | None => cleanExpired_loop rest removed s
        | Some e =>
            if lt e (clock s (reads s))
            then cleanExpired_loop rest (S removed)
                   (with_cache (Date_now s).2 (map_delete key (cache s)))
            else cleanExpired_loop rest removed (Date_now s).2
        end
    end.
Proof.
  cbn [cleanExpired_loop]. unfold bind at 1, isExpired.
  destruct (map_get key (cache s)) as [it|]; [|reflexivity].
  destruct (expiry it) as [e|]; [|reflexivity].
  cbn [bind Date_now ret]. destruct (lt e (clock s (reads s))); reflexivity.
Qed.

Lemma cleanExpired_loop_spec (t : number) (m2 : list (string * item V)) :
  forall m1 removed s,
  frozen t s -> cache s = m1 ++ m2 -> unique_keys s ->
  (cleanExpired_loop (map fst m2) removed s).1
  = Normal (removed
            + List.length (List.filter (fun kv => negb (live_at t kv.2)) m2))
  /\
  cache (cleanExpired_loop (map fst m2) removed s).2
  = m1 ++ List.filter (fun kv => live_at t kv.2) m2.
Proof.
  induction m2 as [|[key it] m2 IH]; intros m1 removed s Hfrozen Hc Hu.
  - cbn. rewrite app_nil_r in *. rewrite Nat.add_0_r. auto.
  - unfold unique_keys in Hu. rewrite Hc in Hu.
    assert (Hg : map_get key (cache s) = Some it)
      by (rewrite Hc; apply map_get_entry; exact Hu).
    assert (Hdel : map_delete key (cache s) = m1 ++ m2)
      by (rewrite Hc; apply (length_map_delete key m1 m2 it Hu)).
    assert (Hu' : NoDup (map fst (m1 ++ m2))).
    { rewrite map_app in *. cbn [map fst] in Hu.
      apply NoDup_app in Hu as (U1 & U2 & U3).
      apply NoDup_cons in U3 as [_ U3].
      apply NoDup_app. split; [exact U1|]. split; [|exact U3].
      intros x Hx Hx'. apply (U2 x Hx). right. exact Hx'. }
    cbn [map fst]. rewrite cleanExpired_loop_cons, Hg, Hdel, Hfrozen.
    cbn [List.filter snd].
    destruct (expiry it) as [e|] eqn:He.
    + destruct (lt e t) eqn:Hlt.
      * assert (live_at t it = false) as ->
          by (unfold live_at; rewrite He, Hlt; reflexivity).
        cbn [negb].
        destruct (IH m1 (S removed) (with_cache (Date_now s).2 (m1 ++ m2)))
          as [R1 R2]; [intros n; apply Hfrozen | reflexivity | exact Hu' |].
        rewrite R1, R2. cbn [List.length]. split; [f_equal; lia | reflexivity].
      * assert (live_at t it = true) as ->
          by (unfold live_at; rewrite He, Hlt; reflexivity).
        cbn [negb].
        destruct (IH (m1 ++ [(key, it)]) removed (Date_now s).2) as [R1 R2].
        { intros n. apply Hfrozen. }
        { cbn [Date_now snd cache]. rewrite Hc, <- app_assoc. reflexivity. }
        { unfold unique_keys. cbn [Date_now snd cache].
          rewrite Hc. exact Hu. }
        rewrite R1, R2, <- app_assoc. auto.
    + assert (live_at t it = true) as ->
        by (unfold live_at; rewrite He; reflexivity).
      cbn [negb].
      destruct (IH (m1 ++ [(key, it)]) removed s) as [R1 R2].
      { exact Hfrozen. }
      { rewrite Hc, <- app_assoc. reflexivity. }
      { unfold unique_keys. rewrite Hc. exact Hu. }
      rewrite R1, R2, <- app_assoc. auto.
Qed.

Lemma length_partition {A : Type} (f : A -> bool) (l : list A) :
  List.length (List.filter f l)
  + List.length (List.filter (fun x => negb (f x)) l)
  = List.length l.
Proof.
  induction l as [|x l IH]; [reflexivity|].
  cbn. destruct (f x); cbn; lia.
Qed.

(** X25.  While the clock stands still, [#cleanExpired] removes exactly the
    entries that have expired, keeps the others in their order, and
    returns the number of entries it removed. *)
Theorem cleanExpired_removes_expired (t : number) s :
  frozen t s -> unique_keys s ->
  exists removed,
    (cleanExpired s).1 = Normal removed /\
    cache (cleanExpired s).2
    = List.filter (fun kv => live_at t kv.2) (cache s) /\
    removed + List.length (cache (cleanExpired s).2) = List.length (cache s).
Proof.
  intros Hfrozen Hu. unfold cleanExpired.
  destruct (cleanExpired_loop_spec t (cache s) [] 0 s Hfrozen eq_refl Hu)
    as [H1 H2].
  eexists. split; [exact H1|]. split; [exact H2|].
  rewrite H2. cbn [app Nat.add].
  rewrite Nat.add_comm. apply length_partition.
Qed.

(** ** What the methods keep *)

Lemma same_timers_refl s : same_timers s s.
Proof. repeat split. Qed.

Lemma same_timers_trans s1 s2 s3 :
  same_timers s1 s2 -> same_timers s2 s3 -> same_timers s1 s3.
Proof. intros (A & B & C) (D & E & F). repeat split; congruence. Qed.

Lemma one_timer_same s s' : same_timers s s' -> one_timer s -> one_timer s'.
Proof.
  intros (A & B & C) [H1 H2]. unfold one_timer. rewrite A, B, C. auto.
Qed.

Lemma set_frame (key : string) (val : V) (ttl : jsarg) s :
  thrown (set key val ttl s) = false /\
  same_timers s (set key val ttl s).2 /\
  (unique_keys s -> unique_keys (set key val ttl s).2).
Proof.
  unfold set. destruct (expiry_for_frame ttl s) as (A & B & C & D & _).
  destruct (expiry_for ttl s) as [[e|err] s']; cbn [fst snd] in *.
  - split; [reflexivity|]. split; [repeat split; assumption|].
    unfold unique_keys. cbn [cache with_cache]. rewrite <- A.
    apply unique_map_set.
  - split; [reflexivity|]. split; [repeat split; assumption|].
    unfold unique_keys. cbn. rewrite A. auto.
Qed.

Lemma get_frame (key : string) s :
  thrown (get undefined key s) = false /\
  same_timers s (get undefined key s).2 /\
  (unique_keys s -> unique_keys (get undefined key s).2).
Proof.
  rewrite get_eq. destruct (map_get key (cache s)) as [it|];
    [|split; [reflexivity|]; split; [apply same_timers_refl | auto]].
  destruct (expiry it) as [e|];
    [|split; [reflexivity|]; split; [apply same_timers_refl | auto]].
  destruct (lt e (clock s (reads s))).
  - split; [reflexivity|]. split; [repeat split|].
    unfold unique_keys. cbn. apply unique_map_delete.
  - split; [reflexivity|]. split; [repeat split|]. auto.
Qed.

Lemma has_frame (key : string) s :
  thrown (has key s) = false /\
  same_timers s (has key s).2 /\
  cache (has key s).2 = cache s.
Proof.
  rewrite has_eq. destruct (map_get key (cache s)) as [it|];
    [|repeat split].
  destruct (expiry it) as [e|]; repeat split.
Qed.

Lemma keys_loop_frame (ks : list string) :
  forall acc s,
  thrown (keys_loop ks acc s) = false /\
  same_timers s (keys_loop ks acc s).2 /\
  cache (keys_loop ks acc s).2 = cache s.
Proof.
  induction ks as [|key ks IH]; intros acc s; [repeat split|].
  cbn [keys_loop]. unfold bind.
  destruct (has_frame key s) as (A & B & C).
  destruct (has key s) as [[live|err] s']; [|discriminate A].
  cbn [snd] in *.
  destruct (IH (if live then acc ++ [key] else acc) s') as (A' & B' & C').
  split; [exact A'|]. split; [eapply same_timers_trans; eauto | congruence].
Qed.

Lemma cleanExpired_loop_frame (m2 : list (string * item V)) :
  forall m1 removed s,
  cache s = m1 ++ m2 -> unique_keys s ->
  thrown (cleanExpired_loop (map fst m2) removed s) = false /\
  same_timers s (cleanExpired_loop (map fst m2) removed s).2 /\
  unique_keys (cleanExpired_loop (map fst m2) removed s).2.
Proof.
  induction m2 as [|[key it] m2 IH]; intros m1 removed s Hc Hu.
  - cbn. split; [reflexivity|]. split; [apply same_timers_refl | exact Hu].
  - pose proof Hu as Hu0. unfold unique_keys in Hu. rewrite Hc in Hu.
    assert (Hg : map_get key (cache s) = Some it)
      by (rewrite Hc; apply map_get_entry; exact Hu).
    assert (Hdel : map_delete key (cache s) = m1 ++ m2)
      by (rewrite Hc; apply (length_map_delete key m1 m2 it Hu)).
    assert (Hu' : NoDup (map fst (m1 ++ m2))).
    { rewrite map_app in *. cbn [map fst] in Hu.
      apply NoDup_app in Hu as (U1 & U2 & U3).
      apply NoDup_cons in U3 as [_ U3].
      apply NoDup_app. split; [exact U1|]. split; [|exact U3].
      intros x Hx Hx'. apply (U2 x Hx). right. exact Hx'. }
    cbn [map fst]. rewrite cleanExpired_loop_cons, Hg, Hdel.
    destruct (expiry it) as [e|].
    + destruct (lt e (clock s (reads s))).
      * destruct (IH m1 (S removed) (with_cache (Date_now s).2 (m1 ++ m2)))
          as (A & B & C); [reflexivity | exact Hu' |].
        split; [exact A|]. split; [|exact C].
        eapply same_timers_trans; [|exact B]. repeat split.
      * destruct (IH (m1 ++ [(key, it)]) removed (Date_now s).2)
          as (A & B & C).
        { cbn [Date_now snd cache]. rewrite Hc, <- app_assoc. reflexivity. }
        { exact Hu0. }
        split; [exact A|]. split; [|exact C].
        eapply same_timers_trans; [|exact B]. repeat split.
    + apply (IH (m1 ++ [(key, it)]) removed s);
        [rewrite Hc, <- app_assoc; reflexivity | exact Hu0].
Qed.

Lemma fire_frame (timer : nat) s :
  unique_keys s ->
  thrown (fire timer s) = false /\
  same_timers s (fire timer s).2 /\
  unique_keys (fire timer s).2.
Proof.
  intros Hu. unfold fire.
  destruct (existsb (Nat.eqb timer) (map fst (intervals s)));
    [|split; [reflexivity|]; split; [apply same_timers_refl | exact Hu]].
  unfold bind, cleanExpired.
  destruct (cleanExpired_loop_frame (cache s) [] 0 s eq_refl Hu)
    as (A & B & C).
  destruct (cleanExpired_loop (map fst (cache s)) 0 s) as [[n|err] s'];
    [|discriminate A].
  split; [reflexivity|]. split; assumption.
Qed.

Lemma stopCleanup_spec s :
  one_timer s ->
  (stopCleanup s).1
  = Normal (match cleanupTimer s with Some _ => true | None => false end) /\
  cleanupTimer (stopCleanup s).2 = None /\
  intervals (stopCleanup s).2 = [] /\
  fresh (stopCleanup s).2 = fresh s /\
  cache (stopCleanup s).2 = cache s.
Proof.
  intros [H1 H2]. unfold stopCleanup.
  destruct (cleanupTimer s) as [timer|] eqn:Ht.
  - cbn. repeat split.
    destruct (intervals s) as [|[t0 d0] [|x l]]; try discriminate.
    cbn in H1. inversion H1. subst t0. cbn. rewrite Nat.eqb_refl. reflexivity.
  - cbn. rewrite Ht. repeat split.
    destruct (intervals s); [reflexivity | discriminate].
Qed.

Lemma startCleanup_spec (interval : jsarg) s :
  one_timer s ->
  let wanted :=
    match interval with
    | Undefined => Number (num 60)
    | _ => interval
    end in
  thrown (startCleanup interval s) = negb (isPositiveNumber wanted) /\
  one_timer (startCleanup interval s).2 /\
  cache (startCleanup interval s).2 = cache s.
Proof.
  intros Hone wanted.
  assert (Hrun : forall x, isPositiveNumber (Number x) = true ->
            thrown (bind stopCleanup
                      (fun _ => bind (setInterval (mul x (num 1000)))
                                  (fun timer => set_cleanupTimer (Some timer)))
                      s) = false /\
            one_timer (bind stopCleanup
                      (fun _ => bind (setInterval (mul x (num 1000)))
                                  (fun timer => set_cleanupTimer (Some timer)))
                      s).2 /\
            cache (bind stopCleanup
                      (fun _ => bind (setInterval (mul x (num 1000)))
                                  (fun timer => set_cleanupTimer (Some timer)))
                      s).2 = cache s).
  { intros x _. unfold bind at 1 3 5.
    destruct (stopCleanup_spec s Hone) as (A & B & C & D & E).
    destruct (stopCleanup s) as [[b|err] s1]; [|discriminate A].
    cbn [fst snd] in *. cbn.
    split; [reflexivity|]. split; [|exact E].
    unfold one_timer. cbn. rewrite C. cbn.
    split; [reflexivity|]. repeat constructor. }
  subst wanted. unfold startCleanup.
  destruct interval as [| |x|].
  - split; [reflexivity|]. split; [exact Hone | reflexivity].
  - assert (H60 : isPositiveNumber (Number (num 60)) = true)
      by (vm_compute; reflexivity).
    rewrite H60. apply Hrun. exact H60.
  - destruct (isPositiveNumber (Number x)) eqn:Ex; [apply Hrun; exact Ex|].
    split; [reflexivity|]. split; [exact Hone | reflexivity].
  - split; [reflexivity|]. split; [exact Hone | reflexivity].
Qed.

Lemma perform_keeps_wf (c : call V) s :
  wf s -> wf (perform undefined c s).2.
Proof.
  intros [Hu Hone]. destruct c; cbn [perform snd].
  - destruct (set_frame key val ttl s) as (_ & B & C).
    split; [auto | eapply one_timer_same; eauto].
  - destruct (get_frame key s) as (_ & B & C).
    split; [auto | eapply one_timer_same; eauto].
  - split; [|exact Hone]. unfold unique_keys. cbn. apply unique_map_delete.
    exact Hu.
  - split; [|exact Hone]. unfold unique_keys. cbn. constructor.
  - unfold dispose, bind.
    destruct (stopCleanup_spec s Hone) as (A & B & C & D & E).
    destruct (stopCleanup s) as [[b|err] s1]; [|discriminate A].
    cbn [snd] in *. cbn. split; [constructor|].
    unfold one_timer. cbn. rewrite B, C. split; [reflexivity | constructor].
  - split; assumption.
  - destruct (has_frame key s) as (_ & B & C).
    split; [unfold unique_keys; rewrite C; exact Hu|].
    eapply one_timer_same; eauto.
  - unfold keys. destruct (keys_loop_frame (map fst (cache s)) [] s)
      as (_ & B & C).
    split; [unfold unique_keys; rewrite C; exact Hu|].
    eapply one_timer_same; eauto.
  - destruct (startCleanup_spec interval s Hone) as (_ & B & C).
    split; [unfold unique_keys; rewrite C; exact Hu | exact B].
  - destruct (stopCleanup_spec s Hone) as (_ & B & C & D & E).
    split; [unfold unique_keys; rewrite E; exact Hu|].
    unfold one_timer. rewrite B, C. split; [reflexivity | constructor].
  - destruct (fire_frame timer s Hu) as (_ & B & C).
    split; [exact C | eapply one_timer_same; eauto].
Qed.

Lemma blank_wf (now : nat -> number) (d : option number) :
  wf ({| cache := []; defaultTTL := d; cleanupTimer := None;
         clock := now; reads := 0; intervals := []; fresh := 0;
         errors := 0 |} : state V).
Proof.
  split; [constructor|]. split; [reflexivity | constructor].
Qed.

Lemma constructor_cases (now : nat -> number) (d c : jsarg) :
  exists d0,
    let blank : state V :=
      {| cache := []; defaultTTL := d0; cleanupTimer := None;
         clock := now; reads := 0; intervals := []; fresh := 0;
         errors := 0 |} in
    (constructor V now d c = (Throw InvalidDefaultTTL, blank) /\
     match d with
     | Null | Undefined => False
     | _ => isPositiveNumber d = false
     end) \/
    (match d with
     | Null | Undefined => True
     | _ => isPositiveNumber d = true
     end /\
     ((constructor V now d c = startCleanup c blank /\
       isPositiveNumber
         (match c with Undefined => Number (num 60) | _ => c end) = true) \/
      (constructor V now d c = (Normal tt, blank) /\
       isPositiveNumber
         (match c with Undefined => Number (num 60) | _ => c end) = false))).
Proof.
  unfold constructor.
  set (c' := match c with Undefined => Number (num 60) | _ => c end).
  assert (Hstart : forall s, isPositiveNumber c' = true ->
            startCleanup c' s = startCleanup c s).
  { intros s H. destruct c; try reflexivity. }
  destruct d as [| |x|].
  - exists None. right. split; [exact I|].
    destruct (isPositiveNumber c') eqn:E; [left | right]; split; auto.
  - exists None. right. split; [exact I|].
    destruct (isPositiveNumber c') eqn:E; [left | right]; split; auto.
  - destruct (isPositiveNumber (Number x)) eqn:Ex.
    + exists (Some x). right. split; [reflexivity|].
      destruct (isPositiveNumber c') eqn:E; [left | right]; split; auto.
    + exists None. left. split; reflexivity.
  - exists None. left. split; reflexivity.
Qed.

(** X26.  Whatever is called on a cache, in whatever order, and whichever
    timers fire: no key is ever stored twice, and of the timers that the
    object has set at most one is active, the one it remembers. *)
Theorem calls_keep_the_cache_well_formed
    (now : nat -> number) (d c : jsarg) (calls : list (call V)) :
  wf (run undefined calls (constructor V now d c).2).
Proof.
  assert (H0 : wf (constructor V now d c).2).
  { destruct (constructor_cases now d c) as (d0 & [[E _] | [_ [[E _] | [E _]]]]);
      rewrite E; cbn [snd]; try apply blank_wf.
    destruct (startCleanup_spec c _ (proj2 (blank_wf now d0))) as (_ & B & C).
    split; [|exact B]. unfold unique_keys. rewrite C. constructor. }
  revert H0. generalize (constructor V now d c).2.
  induction calls as [|call calls IH]; intros s Hs; [exact Hs|].
  cbn [run]. apply IH. apply perform_keeps_wf. exact Hs.
Qed.

(** X27.  [dispose] leaves nothing behind: no entry, no active timer and
    no remembered timer. *)
Theorem dispose_releases_everything s :
  wf s ->
  (dispose s).1 = Normal tt /\
  cache (dispose s).2 = [] /\
  intervals (dispose s).2 = [] /\
  cleanupTimer (dispose s).2 = None.
Proof.
  intros [_ Hone]. unfold dispose, bind.
  destruct (stopCleanup_spec s Hone) as (A & B & C & D & E).
  destruct (stopCleanup s) as [[b|err] s1]; [|discriminate A].
  cbn [snd] in *. cbn. auto.
Qed.

(** X28.  The only call that can throw is [startCleanup], and it throws
    exactly when its interval is given and is not a positive number. *)
Theorem only_startCleanup_throws (c : call V) s :
  wf s ->
  (perform undefined c s).1 = true <->
  exists interval,
    c = CallStartCleanup interval /\
    interval <> Undefined /\ isPositiveNumber interval = false.
Proof.
  intros [Hu Hone]. split.
  - intros H. destruct c; cbn [perform fst] in H.
    + destruct (set_frame key val ttl s) as (A & _). congruence.
    + destruct (get_frame key s) as (A & _). congruence.
    + discriminate.
    + discriminate.
    + unfold dispose, bind in H.
      destruct (stopCleanup_spec s Hone) as (A & _).
      destruct (stopCleanup s) as [[b|err] s1];
        [discriminate H | discriminate A].
    + discriminate.
    + destruct (has_frame key s) as (A & _). congruence.
    + unfold keys in H.
      destruct (keys_loop_frame (map fst (cache s)) [] s) as (A & _).
      congruence.
    + destruct (startCleanup_spec interval s Hone) as (A & _).
      rewrite A in H. exists interval. split; [reflexivity|].
      destruct interval; try (split; [discriminate | reflexivity]).
      split; [discriminate|]. apply negb_true_iff in H. exact H.
    + destruct (stopCleanup_spec s Hone) as (A & _).
      unfold thrown in H. rewrite A in H. discriminate.
    + destruct (fire_frame timer s Hu) as (A & _). congruence.
  - intros (interval & -> & Hgiven & Hbad). cbn [perform fst].
    destruct (startCleanup_spec interval s Hone) as (A & _).
    rewrite A. destruct interval; try congruence; rewrite Hbad; reflexivity.
Qed.

(** X29.  The constructor throws exactly when a default time to live is
    given that is neither [null] nor a positive number, and then no timer
    has been started.  Otherwise the cache is empty and has one cleanup
    timer, of the interval in milliseconds, when the interval ([60] by
    default) is a positive number, and none when it is not. *)
Theorem constructor_starts_at_most_one_timer
    (now : nat -> number) (d c : jsarg) :
  let r := constructor V now d c in
  let interval := match c with Undefined => Number (num 60) | _ => c end in
  thrown r
  = match d with
    | Null | Undefined => false
    | _ => negb (isPositiveNumber d)
    end /\
  cache r.2 = [] /\
  intervals r.2
  = (if thrown r then []
     else match interval with
          | Number x =>
              if isPositiveNumber interval then [(0, mul x (num 1000))] else []
          | _ => []
          end).
Proof.
  intros r interval. subst r. unfold constructor. fold interval.
  assert (Hstart : forall d0,
    let blank : state V :=
      {| cache := []; defaultTTL := d0; cleanupTimer := None;
         clock := now; reads := 0; intervals := []; fresh := 0;
         errors := 0 |} in
    let r := if isPositiveNumber interval
             then startCleanup interval blank else (Normal tt, blank) in
    thrown r = false /\ cache r.2 = [] /\
    intervals r.2
    = match interval with
      | Number x =>
          if isPositiveNumber interval then [(0, mul x (num 1000))] else []
      | _ => []
      end).
  { intros d0 blank r0. subst r0.
    destruct interval as [| |x|]; try (repeat split; reflexivity).
    destruct (isPositiveNumber (Number x)) eqn:Ex; [|repeat split; reflexivity].
    unfold startCleanup. rewrite Ex. cbn. repeat split. }
  destruct d as [| |x|].
  - destruct (Hstart None) as (A & B & C). rewrite A. auto.
  - destruct (Hstart None) as (A & B & C). rewrite A. auto.
  - destruct (isPositiveNumber (Number x)) eqn:Ex.
    + destruct (Hstart (Some x)) as (A & B & C). rewrite A. auto.
    + repeat split.
  - repeat split.
Qed.

End CacheFacts.

Section CacheWitnesses.

Lemma set_rejects_invalid_ttl_witness :
  (Cache.set "a" "x" (Cache.Number (Cache.num 0))
     (CacheSample.fresh_cache CacheSample.still)).1 = Cache.Normal false /\
  Cache.cache (Cache.set "a" "x" (Cache.Number (Cache.num 0))
                 (CacheSample.fresh_cache CacheSample.still)).2
  = Cache.cache (CacheSample.fresh_cache CacheSample.still) /\
  Cache.reads (Cache.set "a" "x" (Cache.Number (Cache.num 0))
                 (CacheSample.fresh_cache CacheSample.still)).2
  = Cache.reads (CacheSample.fresh_cache CacheSample.still) /\
  Cache.errors (Cache.set "a" "x" (Cache.Number (Cache.num 0))
                  (CacheSample.fresh_cache CacheSample.still)).2
  = S (Cache.errors (CacheSample.fresh_cache CacheSample.still)).
Proof.
  apply (set_rejects_invalid_ttl "a" "x" (Cache.Number (Cache.num 0))
           (CacheSample.fresh_cache CacheSample.still));
    [discriminate | discriminate | vm_compute; reflexivity].
Defined.

Lemma get_after_set_witness :
  exists e,
    Cache.map_get "a" (Cache.cache (CacheSample.short_lived CacheSample.jumping))
    = Some {| Cache.value := "x"; Cache.expiry := e |} /\
    (Cache.Number (Cache.num 5) = Cache.Null -> e = None) /\
    (Cache.get "" "a" (CacheSample.short_lived CacheSample.jumping)).1
    = Cache.Normal
        (match e with
         | Some t =>
             if Cache.lt t
                  (Cache.clock (CacheSample.short_lived CacheSample.jumping)
                     (Cache.reads (CacheSample.short_lived CacheSample.jumping)))
             then "" else "x"
         | None => "x"
         end).
Proof.
  apply (get_after_set "" "a" "x" (Cache.Number (Cache.num 5))
           (CacheSample.fresh_cache CacheSample.jumping)).
  vm_compute; reflexivity.
Defined.

Lemma get_drops_expired_entry_witness :
  (Cache.get "" "b" CacheSample.mixed).1 = Cache.Normal "" /\
  Cache.cache (Cache.get "" "b" CacheSample.mixed).2
  = Cache.map_delete "b" (Cache.cache CacheSample.mixed) /\
  Cache.map_has "b" (Cache.cache (Cache.get "" "b" CacheSample.mixed).2)
  = false.
Proof.
  apply (get_drops_expired_entry "" "b"
           {| Cache.value := "y"; Cache.expiry := Some (Cache.num 999) |}
           (Cache.num 999) CacheSample.mixed);
    vm_compute; reflexivity.
Defined.

Lemma keys_lists_live_entries_witness :
  (Cache.keys CacheSample.mixed).1
  = Cache.Normal
      (map fst (List.filter (fun kv => Cache.live_at (Cache.num 1000) kv.2)
                  (Cache.cache CacheSample.mixed))) /\
  Cache.cache (Cache.keys CacheSample.mixed).2 = Cache.cache CacheSample.mixed /\
  (Cache.size (Cache.keys CacheSample.mixed).2).1
  = Cache.Normal (List.length (Cache.cache CacheSample.mixed)).
Proof.
  apply (keys_lists_live_entries (Cache.num 1000) CacheSample.mixed).
  - intros n. reflexivity.
  - unfold Cache.unique_keys. apply (bool_decide_unpack _). vm_compute. exact I.
Defined.

Lemma cleanExpired_removes_expired_witness :
  exists removed,
    (Cache.cleanExpired CacheSample.mixed).1 = Cache.Normal removed /\
    Cache.cache (Cache.cleanExpired CacheSample.mixed).2
    = List.filter (fun kv => Cache.live_at (Cache.num 1000) kv.2)
        (Cache.cache CacheSample.mixed) /\
    removed + List.length (Cache.cache (Cache.cleanExpired CacheSample.mixed).2)
    = List.length (Cache.cache CacheSample.mixed).
Proof.
  apply (cleanExpired_removes_expired (Cache.num 1000) CacheSample.mixed).
  - intros n. reflexivity.
  - unfold Cache.unique_keys. apply (bool_decide_unpack _). vm_compute. exact I.
Defined.

Lemma dispose_releases_everything_witness :
  (Cache.dispose CacheSample.mixed).1 = Cache.Normal tt /\
  Cache.cache (Cache.dispose CacheSample.mixed).2 = [] /\
  Cache.intervals (Cache.dispose CacheSample.mixed).2 = [] /\
  Cache.cleanupTimer (Cache.dispose CacheSample.mixed).2 = None.
Proof.
  apply (dispose_releases_everything CacheSample.mixed).
  split.
  - unfold Cache.unique_keys. apply (bool_decide_unpack _). vm_compute. exact I.
  - split; [reflexivity | repeat constructor].
Defined.

Lemma only_startCleanup_throws_witness :
  (Cache.perform "" (Cache.CallStartCleanup Cache.Null) CacheSample.mixed).1
  = true <->
  exists interval,
    Cache.CallStartCleanup Cache.Null
    = Cache.CallStartCleanup (V := string) interval /\
    interval <> Cache.Undefined /\ Cache.isPositiveNumber interval = false.
Proof.
  apply (only_startCleanup_throws ""
           (Cache.CallStartCleanup Cache.Null) CacheSample.mixed).
  split.
  - unfold Cache.unique_keys. apply (bool_decide_unpack _). vm_compute. exact I.
  - split; [reflexivity | repeat constructor].
Defined.

End CacheWitnesses.
